(** * SpectroChemPy: SIMPLISMA purest-variable extraction and masked-data adapter

    A shallow embedding of
      - [spectrochempy/core/analysis/simplisma.py]  (class [SIMPLISMA]) and
      - [spectrochempy/analysis/abstractanalysis.py]
        ([_get_masked_rc], [_remove_masked_data], [_restore_masked_data]) and
      - [spectrochempy/analysis/_analysisutils.py]  ([_svd_flip]).

    Conventions of the embedding.
      - A numpy [float64] is idealised as a real number ([R]); a 1-D array is a
        list, a 2-D array is the list of its rows.  An array without rows
        carries no column count.
      - A Python exception is the left summand of [result]; the constructors
        of [exn] name the exceptions the embedded code can raise.
      - Python ints that are used as indices ([maxPIndex]) are [Z], with the
        wrap-around of negative indices written out in [norm_index].
      - [np.linalg.lstsq] and the parsers [int()] and [float()] are library
        functions: they are fields of the class [Extern]. *)

From Stdlib Require Import String Ascii.
From Stdlib Require Import Reals Lra Lia ZArith Bool Arith List.
Import ListNotations.

Set Implicit Arguments.

(* ------------------------------------------------------------------------- *)
(** ** Python exceptions and the error monad                                  *)
(* ------------------------------------------------------------------------- *)

Inductive exn : Type :=
| ValueError_ndim     (* 'For now, SIMPLISMA only handles 2D Datasets' *)
| ValueError_n_pc     (* 'Oh you did not just... ' *)
| ValueError_empty    (* numpy: zero-size array to reduction operation *)
| ValueError_shape    (* numpy: could not broadcast input array *)
| TypeError           (* '<' not supported between instances of ... *)
| IndexError
| EOFError.           (* input() on an exhausted console *)

Definition result (A : Type) : Type := (exn + A)%type.

Definition raise {A : Type} (e : exn) : result A := inl e.
Definition ret {A : Type} (a : A) : result A := inr a.

Definition bind {A B : Type} (m : result A) (k : A -> result B) : result B :=
  match m with
  | inl e => inl e
  | inr a => k a
  end.

Declare Scope result_scope.
Delimit Scope result_scope with result.
Notation "x <- m ;; k" := (bind m (fun x => k))
  (at level 61, m at next level, right associativity) : result_scope.
Notation "' pat <- m ;; k" := (bind m (fun x => match x with pat => k end))
  (at level 61, pat pattern, m at next level, right associativity) : result_scope.
Open Scope result_scope.

Fixpoint mapM {A B : Type} (f : A -> result B) (l : list A) : result (list B) :=
  match l with
  | [] => ret []
  | a :: t => b <- f a ;; bs <- mapM f t ;; ret (b :: bs)
  end.

(* ------------------------------------------------------------------------- *)
(** ** Arrays                                                                 *)
(* ------------------------------------------------------------------------- *)

Abbreviation vector := (list R) (only parsing).
Abbreviation matrix := (list (list R)) (only parsing).

Definition has_shape {T : Type} (m n : nat) (A : list (list T)) : Prop :=
  length A = m /\ Forall (fun r => length r = n) A.

(** [A.shape[1]] of an array that has at least one row. *)
Definition ncols {T : Type} (A : list (list T)) : nat :=
  match A with
  | [] => 0
  | r :: _ => length r
  end.

Definition full {T : Type} (m n : nat) (x : T) : list (list T) :=
  repeat (repeat x n) m.

(** [np.zeros((m, n))] *)
Definition zeros (m n : nat) : matrix := full m n 0%R.

Definition row {T : Type} (A : list (list T)) (k : nat) : list T := nth k A [].

(** [A[:, k]] for an index [k] already in range. *)
Definition column (A : matrix) (k : nat) : vector := map (fun r => nth k r 0%R) A.

(** [A.T], for [A] with [n] columns. *)
Definition transpose (n : nat) (A : matrix) : matrix := map (column A) (seq 0 n).

Definition map2 {A B C : Type} (f : A -> B -> C) (u : list A) (v : list B) : list C :=
  map (fun ab => f (fst ab) (snd ab)) (combine u v).

Definition vsum (v : vector) : R := fold_right Rplus 0%R v.

Definition dotp (u v : vector) : R := vsum (map2 Rmult u v).

(** [np.dot(A, B)] for 2-D arrays; [B] has at least one row. *)
Definition matmul (A B : matrix) : matrix :=
  map (fun r => map (fun c => dotp r (column B c)) (seq 0 (ncols B))) A.

Definition scale (k : R) (A : matrix) : matrix := map (map (Rmult k)) A.

Definition msub (A B : matrix) : matrix := map2 (map2 Rminus) A B.

(** Index of a Python sequence of length [n]: negative indices count from the
    end, anything outside [-n, n) raises [IndexError]. *)
Definition norm_index (n : nat) (k : Z) : result nat :=
  if (0 <=? k)%Z && (k <? Z.of_nat n)%Z then ret (Z.to_nat k)
  else if (- Z.of_nat n <=? k)%Z && (k <? 0)%Z then ret (Z.to_nat (Z.of_nat n + k))
  else raise IndexError.

(** [l[k]] *)
Definition getitem {T : Type} (d : T) (l : list T) (k : Z) : result T :=
  i <- norm_index (length l) k ;; ret (nth i l d).

Fixpoint replace_nth {T : Type} (i : nat) (x : T) (l : list T) : list T :=
  match l, i with
  | [], _ => []
  | _ :: t, O => x :: t
  | y :: t, S i' => y :: replace_nth i' x t
  end.

(** [l[k] = x] *)
Definition setitem {T : Type} (l : list T) (k : Z) (x : T) : result (list T) :=
  i <- norm_index (length l) k ;; ret (replace_nth i x l).

(** Broadcasting of the value of an assignment to a target of shape [(m, n)]:
    every dimension of the value is the target's, or 1. *)
Definition broadcast_row {T : Type} (n : nat) (r : list T) : result (list T) :=
  if length r =? n then ret r
  else match r with
       | [x] => ret (repeat x n)
       | _ => raise ValueError_shape
       end.

Definition broadcast_to {T : Type} (m n : nat) (V : list (list T)) : result (list (list T)) :=
  rows <- (if length V =? m then ret V
           else match V with
                | [r] => ret (repeat r m)
                | _ => raise ValueError_shape
                end) ;;
  mapM (broadcast_row n) rows.

(** Flattened reductions. *)
Definition flatten (A : matrix) : vector := concat A.

Fixpoint min_from (best : R) (v : vector) : R :=
  match v with
  | [] => best
  | x :: t => min_from (Rmin best x) t
  end.

(** [np.min]: raises on an array without elements. *)
Definition np_min (v : vector) : result R :=
  match v with
  | [] => raise ValueError_empty
  | x :: t => ret (min_from x t)
  end.

Fixpoint max_from (best : R) (v : vector) : R :=
  match v with
  | [] => best
  | x :: t => max_from (Rmax best x) t
  end.

(** [np.max]; only reached on arrays with at least one element. *)
Definition np_max (v : vector) : R :=
  match v with
  | [] => 0%R
  | x :: t => max_from x t
  end.

(** [np.argmax]: the first index at which the maximum is attained. *)
Fixpoint argmax_from (best : R) (bi i : nat) (v : vector) : nat :=
  match v with
  | [] => bi
  | x :: t => if Rlt_dec best x then argmax_from x i (S i) t
              else argmax_from best bi (S i) t
  end.

Definition np_argmax (v : vector) : nat :=
  match v with
  | [] => 0
  | x :: t => argmax_from x 0 1 t
  end.

(** [np.argmin]: the first index at which the minimum is attained. *)
Fixpoint argmin_from (best : R) (bi i : nat) (v : vector) : nat :=
  match v with
  | [] => bi
  | x :: t => if Rlt_dec x best then argmin_from x i (S i) t
              else argmin_from best bi (S i) t
  end.

Definition np_argmin (v : vector) : nat :=
  match v with
  | [] => 0
  | x :: t => argmin_from x 0 1 t
  end.

(** [np.mean] and [np.std] (population standard deviation, [ddof=0]). *)
Definition np_mean (v : vector) : R := (vsum v / INR (length v))%R.

Definition np_std (v : vector) : R :=
  sqrt (np_mean (map (fun x => Rabs (x - np_mean v) ^ 2)%R v)).

(** [np.linalg.norm] of a 2-D array (Frobenius norm). *)
Definition norm (A : matrix) : R := sqrt (vsum (map (fun x => Rabs x ^ 2)%R (flatten A))).

(** [np.linalg.det], by expansion along the first row. *)
Fixpoint remove_nth {T : Type} (k : nat) (l : list T) : list T :=
  match l, k with
  | [], _ => []
  | _ :: t, O => t
  | x :: t, S k' => x :: remove_nth k' t
  end.

Fixpoint det_n (n : nat) (M : matrix) : R :=
  match n with
  | O => 1%R
  | S n' =>
      match M with
      | [] => 0%R
      | r :: rest =>
          vsum (map (fun k => ((-1) ^ k * nth k r 0 * det_n n' (map (remove_nth k) rest))%R)
                    (seq 0 (S n')))
      end
  end.

Definition det (M : matrix) : R := det_n (length M) M.

(* ------------------------------------------------------------------------- *)
(** ** abstractanalysis.py: removal and restoration of masked rows/columns    *)
(* ------------------------------------------------------------------------- *)

Module Masked.

(** [X._mask]: either [NOMASK] or a boolean array of the shape of the data. *)
Inductive maskval : Type :=
| NOMASK
| Mask (m : list (list bool)).

(** The part of an [NDDataset] the adapter touches. *)
Record NDDataset : Type := mkNDDataset {
  data : matrix;
  _mask : maskval
}.

(** The traits of [AnalysisConfigurable] the adapter reads and writes. *)
Record AnalysisConfigurable : Type := mkAnalysis {
  _X_mask : option maskval;
  _shape : nat * nat
}.

(** A cell of a [np.ma] array: the value and its mask bit. *)
Abbreviation cell := (R * bool)%type (only parsing).
Abbreviation marray := (list (list (R * bool))) (only parsing).

(** A plain [ndarray] seen as a masked array: nothing is masked. *)
Definition plain (A : matrix) : marray := map (map (fun x => (x, false))) A.

(** [np.ma.zeros((m, n))] *)
Definition ma_zeros (m n : nat) : marray := full m n (0%R, false).

(** [MASKED] assigned to a cell: the mask bit is set, the value stays. *)
Definition set_masked (c : cell) : cell := (fst c, true).

Definition any (v : list bool) : bool := existsb (fun b => b) v.

(** [np.any(mask)] *)
Definition np_any (mask : maskval) : bool :=
  match mask with
  | NOMASK => false
  | Mask m => existsb any m
  end.

(** [np.all(m, axis=-1)]: one flag per row. *)
Definition all_rows (m : list (list bool)) : list bool :=
  map (forallb (fun b => b)) m.

(** [np.all(m, axis=-2)]: one flag per column. *)
Definition all_columns (m : list (list bool)) : list bool :=
  map (fun c => forallb (fun r => nth c r false) m) (seq 0 (ncols m)).

Definition _get_masked_rc (self : AnalysisConfigurable) (mask : maskval)
  : list bool * list bool :=
  match mask with
  | Mask m =>
      if np_any mask then (all_rows m, all_columns m)
      else (repeat false (fst (_shape self)), repeat false (snd (_shape self)))
  | NOMASK => (repeat false (fst (_shape self)), repeat false (snd (_shape self)))
  end.

(** [l[keep]] with a boolean index: the index must have the length of [l]. *)
Fixpoint compress {T : Type} (keep : list bool) (l : list T) : list T :=
  match keep, l with
  | k :: ks, x :: xs => if k then x :: compress ks xs else compress ks xs
  | _, _ => []
  end.

Definition bool_index {T : Type} (keep : list bool) (l : list T) : result (list T) :=
  if length keep =? length l then ret (compress keep l) else raise IndexError.

Definition count (keep : list bool) : nat := length (filter (fun b => b) keep).

(** [base[keep] = vals], element by element. *)
Fixpoint scatter {T : Type} (keep : list bool) (base vals : list T) : list T :=
  match keep, base with
  | k :: ks, b :: bs =>
      if k then
        match vals with
        | v :: vs => v :: scatter ks bs vs
        | [] => b :: scatter ks bs []
        end
      else b :: scatter ks bs vals
  | _, _ => base
  end.

(** [Dtemp[:, keep] = V] *)
Definition assign_columns (Dtemp : marray) (keep : list bool) (V : marray) : result marray :=
  if forallb (fun r => length keep =? length r) Dtemp then
    V' <- broadcast_to (length Dtemp) (count keep) V ;;
    ret (map2 (scatter keep) Dtemp V')
  else raise IndexError.

(** [Dtemp[keep] = V], for [Dtemp] with [n] columns *)
Definition assign_rows (n : nat) (Dtemp : marray) (keep : list bool) (V : marray) : result marray :=
  if length keep =? length Dtemp then
    V' <- broadcast_to (count keep) n V ;;
    ret (scatter keep Dtemp V')
  else raise IndexError.

(** [Dtemp[:, sel] = MASKED] *)
Definition mask_columns (Dtemp : marray) (sel : list bool) : result marray :=
  if forallb (fun r => length sel =? length r) Dtemp then
    ret (map (fun r => map2 (fun (k : bool) c => if k then set_masked c else c) sel r) Dtemp)
  else raise IndexError.

(** [Dtemp[sel] = MASKED] *)
Definition mask_rows (Dtemp : marray) (sel : list bool) : result marray :=
  if length sel =? length Dtemp then
    ret (map2 (fun (k : bool) r => if k then map set_masked r else r) sel Dtemp)
  else raise IndexError.

(** Retains only valid rows and columns.  [X] is an [NDDataset], which always
    has the attribute [mask]: the early return for an object without one is
    not taken. *)
Definition _remove_masked_data (self : AnalysisConfigurable) (X : NDDataset)
  : result (AnalysisConfigurable * NDDataset) :=
  (* store the mask because it will be destroyed *)
  let self := {| _X_mask := Some (_mask X); _shape := _shape self |} in
  (* remove masked rows and columns *)
  let '(masked_rows, masked_columns) := _get_masked_rc self (_mask X) in
  data1 <- mapM (bool_index (map negb masked_columns)) (data X) ;;
  data2 <- bool_index (map negb masked_rows) data1 ;;
  (* destroy the mask, return the modified X dataset *)
  ret (self, {| data := data2; _mask := NOMASK |}).

(** The [axis] argument: an int or a string. *)
Inductive axisval : Type :=
| AxisInt (z : Z)
| AxisStr (s : string).

Definition axis_eq (a b : axisval) : bool :=
  match a, b with
  | AxisInt x, AxisInt y => (x =? y)%Z
  | AxisStr x, AxisStr y => String.eqb x y
  | _, _ => false
  end.

Definition both : axisval := AxisStr "both".

Definition _restore_masked_data (self : AnalysisConfigurable) (D : marray) (axis : axisval)
  : result marray :=
  match _X_mask self with
  | None => ret D   (* return it unchanged as we had no mask originally *)
  | Some X_mask =>
      let '(rowsize, colsize) := _shape self in
      let '(masked_rows, masked_columns) := _get_masked_rc self X_mask in
      let M := length D in
      let N := ncols D in
      (* Put back masked columns in D *)
      D <- (if axis_eq axis (AxisInt (-1)) || axis_eq axis (AxisInt 1) || axis_eq axis both
            then
              if any masked_columns then
                Dtemp <- assign_columns (ma_zeros M colsize) (map negb masked_columns) D ;;
                mask_columns Dtemp masked_columns
              else ret D
            else ret D) ;;
      (* Put back masked rows in D *)
      if axis_eq axis (AxisInt (-2)) || axis_eq axis (AxisInt 0) || axis_eq axis both
      then
        if any masked_rows then
          Dtemp <- assign_rows N (ma_zeros rowsize N) (map negb masked_rows) D ;;
          mask_rows Dtemp masked_rows
        else ret D
      else ret D
  end.

(** [_X_validate]: the original shape is stored, then the masked data are
    removed. *)
Definition _X_validate (self : AnalysisConfigurable) (X : NDDataset)
  : result (AnalysisConfigurable * NDDataset) :=
  let self := {| _X_mask := _X_mask self; _shape := (length (data X), ncols (data X)) |} in
  _remove_masked_data self X.

(** Strip, then restore on both axes, as the property [X] does. *)
Definition strip_restore (self : AnalysisConfigurable) (X : NDDataset) : result marray :=
  '(self, X') <- _X_validate self X ;;
  _restore_masked_data self (plain (data X')) both.

(** The masked array a dataset denotes: its data under its mask. *)
Definition masked_view (X : NDDataset) : marray :=
  match _mask X with
  | NOMASK => plain (data X)
  | Mask m => map2 (map2 (fun x (b : bool) => (x, b))) (data X) m
  end.

(** The mask of a masked array. *)
Definition getmask (D : marray) : list (list bool) := map (map snd) D.

(** A mask that covers whole rows and whole columns only: a cell is masked
    exactly when its row or its column is masked. *)
Definition aligned_mask (mr mc : list bool) : list (list bool) :=
  map (fun r : bool => map (fun c : bool => r || c) mc) mr.

End Masked.

(* ------------------------------------------------------------------------- *)
(** ** simplisma.py                                                           *)
(* ------------------------------------------------------------------------- *)

Module Simplisma.

Open Scope R_scope.

(** Library functions the class calls. *)
Class Extern : Type := {
  lstsq : matrix -> matrix -> matrix;   (* np.linalg.lstsq(a, b)[0] *)
  py_int : string -> option Z;          (* int(s); None stands for ValueError *)
  py_float : string -> option R         (* float(s); None stands for ValueError *)
}.

(** A Python value that may be passed as [n_pc]. *)
Inductive pyval : Type :=
| PyInt (z : Z)
| PyFloat (r : R)
| PyBool (b : bool)
| PyStr (s : string)
| PyNone.

(** [**kwargs]: a missing key is [None]. *)
Record kwargs : Type := mkKwargs {
  kw_verbose : option bool;
  kw_interactive : option bool;
  kw_tol : option R;
  kw_noise : option R;
  kw_n_pc : option pyval
}.

(** The part of an [NDDataset] the class reads: its shape, its data (the rows,
    when the dataset is 2-D) and the coordinates [X.x], if any. *)
Record NDDataset : Type := mkNDDataset {
  shape : list nat;
  data : matrix;
  x : option vector
}.

(** What is appended to [logs], printed, or sent to [info_].  The format
    strings are kept as constructors, the numbers they format as arguments. *)
Inductive entry : Type :=
| Header (interactive : bool) (noise tol : R) (n_pc : nat)
| IterSummary (iter : nat) (index : Z) (coord stdev_res rsquare : R)
| ChangedPure (k : nat)        (* '   |--> changed pure variable #k' *)
| RejectedPure (k : nat)       (* '   |--> rejected pure variable #k' *)
| Interrupted (k : nat)        (* '**** Interrupted by user at compound # k' *)
| TolReached (tol : R)         (* '**** Unexplained variance lower than 'tol'' *)
| MaxReached (n_pc : nat)      (* '**** Reached maximum number of pure compounds' *)
| IncorrectAnswer              (* 'Incorrect answer. Please enter a valid index or value' *)
| PurestSet (k : nat) (index : Z) (coord : R).

Inductive warning : Type :=
| NegativeValues.   (* 'SIMPLISMA does not handle easily negative values.' *)

(** The validated configuration and the dataset: fixed during a run. *)
Record env : Type := mkEnv {
  X : NDDataset;
  interactive : bool;
  verbose : bool;
  tol : R;
  noise : R;
  n_pc : nat
}.

Record state : Type := mkState {
  j : nat;
  finished : bool;
  Pt : matrix;
  w : matrix;
  s : matrix;
  C : matrix;
  St : matrix;
  maxPIndex : list Z;
  maxPCoordinate : vector;
  prev_stdev_res : R;
  logs : list entry;
  console : list entry;
  stdin : list string
}.

Definition set_j (v : nat) (st : state) : state :=
  mkState v (finished st) (Pt st) (w st) (s st) (C st) (St st) (maxPIndex st)
    (maxPCoordinate st) (prev_stdev_res st) (logs st) (console st) (stdin st).

Definition set_finished (v : bool) (st : state) : state :=
  mkState (j st) v (Pt st) (w st) (s st) (C st) (St st) (maxPIndex st)
    (maxPCoordinate st) (prev_stdev_res st) (logs st) (console st) (stdin st).

Definition set_Pt (v : matrix) (st : state) : state :=
  mkState (j st) (finished st) v (w st) (s st) (C st) (St st) (maxPIndex st)
    (maxPCoordinate st) (prev_stdev_res st) (logs st) (console st) (stdin st).

Definition set_w (v : matrix) (st : state) : state :=
  mkState (j st) (finished st) (Pt st) v (s st) (C st) (St st) (maxPIndex st)
    (maxPCoordinate st) (prev_stdev_res st) (logs st) (console st) (stdin st).

Definition set_s (v : matrix) (st : state) : state :=
  mkState (j st) (finished st) (Pt st) (w st) v (C st) (St st) (maxPIndex st)
    (maxPCoordinate st) (prev_stdev_res st) (logs st) (console st) (stdin st).

Definition set_C (v : matrix) (st : state) : state :=
  mkState (j st) (finished st) (Pt st) (w st) (s st) v (St st) (maxPIndex st)
    (maxPCoordinate st) (prev_stdev_res st) (logs st) (console st) (stdin st).

Definition set_St (v : matrix) (st : state) : state :=
  mkState (j st) (finished st) (Pt st) (w st) (s st) (C st) v (maxPIndex st)
    (maxPCoordinate st) (prev_stdev_res st) (logs st) (console st) (stdin st).

Definition set_maxPIndex (v : list Z) (st : state) : state :=
  mkState (j st) (finished st) (Pt st) (w st) (s st) (C st) (St st) v
    (maxPCoordinate st) (prev_stdev_res st) (logs st) (console st) (stdin st).

Definition set_maxPCoordinate (v : vector) (st : state) : state :=
  mkState (j st) (finished st) (Pt st) (w st) (s st) (C st) (St st) (maxPIndex st) v
    (prev_stdev_res st) (logs st) (console st) (stdin st).

Definition set_prev_stdev_res (v : R) (st : state) : state :=
  mkState (j st) (finished st) (Pt st) (w st) (s st) (C st) (St st) (maxPIndex st)
    (maxPCoordinate st) v (logs st) (console st) (stdin st).

Definition set_logs (v : list entry) (st : state) : state :=
  mkState (j st) (finished st) (Pt st) (w st) (s st) (C st) (St st) (maxPIndex st)
    (maxPCoordinate st) (prev_stdev_res st) v (console st) (stdin st).

Definition set_console (v : list entry) (st : state) : state :=
  mkState (j st) (finished st) (Pt st) (w st) (s st) (C st) (St st) (maxPIndex st)
    (maxPCoordinate st) (prev_stdev_res st) (logs st) v (stdin st).

Definition set_stdin (v : list string) (st : state) : state :=
  mkState (j st) (finished st) (Pt st) (w st) (s st) (C st) (St st) (maxPIndex st)
    (maxPCoordinate st) (prev_stdev_res st) (logs st) (console st) v.

(** *** Utility functions *)

(** [St.data[0:k, :] = B] *)
Definition set_rows (A : matrix) (k : nat) (B : matrix) : result matrix :=
  B' <- broadcast_to (Nat.min k (length A)) (ncols A) B ;;
  ret (B' ++ skipn k A).

(** [C.data[:, j] = v] *)
Definition set_column (A : matrix) (j : nat) (v : vector) : result matrix :=
  if (j <? ncols A)%nat then
    v' <- broadcast_row (length A) v ;;
    ret (map2 (fun r y => replace_nth j y r) A v')
  else raise IndexError.

(** [X.data[:, k]] *)
Definition get_column (A : matrix) (k : Z) : result vector :=
  i <- norm_index (ncols A) k ;; ret (column A i).

(** [A[i, :]] *)
Definition get_row (A : matrix) (i : nat) : result vector :=
  if (i <? length A)%nat then ret (row A i) else raise IndexError.

(** [A[i, :] = v] *)
Definition set_row (A : matrix) (i : nat) (v : vector) : result matrix :=
  if (i <? length A)%nat then
    v' <- broadcast_row (ncols A) v ;; ret (replace_nth i v' A)
  else raise IndexError.

(** [A[i:] = v] *)
Definition set_rows_from (A : matrix) (i : nat) (v : vector) : result matrix :=
  v' <- broadcast_row (ncols A) v ;;
  ret (firstn i A ++ map (fun _ => v') (skipn i A)).

(** [A[a, b]] *)
Definition getitem2 (A : matrix) (a b : Z) : result R :=
  i <- norm_index (length A) a ;;
  k <- norm_index (ncols A) b ;;
  ret (nth k (row A i) 0).

(** [A[i, k] = y] *)
Definition setitem2 (A : matrix) (i k : nat) (y : R) : result matrix :=
  if (i <? length A)%nat && (k <? length (row A i))%nat
  then ret (replace_nth i (replace_nth k y (row A i)) A)
  else raise IndexError.

(** [for i in range(...)] over a state that the body updates. *)
Fixpoint for_range {S : Type} (rng : list nat) (f : nat -> S -> result S) (a : S) : result S :=
  match rng with
  | [] => ret a
  | i :: t => a' <- f i a ;; for_range t f a'
  end.

Definition figures_of_merit {E : Extern} (X : NDDataset) (maxPIndex : list Z)
  (C St : matrix) (j : nat) : result (matrix * matrix * R * R) :=
  (* return %explained variance and stdev of residuals when the jth compound is added *)
  k <- getitem 0%Z maxPIndex (Z.of_nat j) ;;
  col <- get_column (data X) k ;;
  C <- set_column C j col ;;
  St <- set_rows St (j + 1) (lstsq (map (firstn (j + 1)) C) (data X)) ;;
  let Xhat := matmul (map (firstn (j + 1)) C) (firstn (j + 1) St) in
  let res := msub Xhat (data X) in
  let stdev_res := np_std (flatten res) in
  let rsquare := 1 - norm res ^ 2 / norm (data X) ^ 2 in
  ret (C, St, rsquare, stdev_res).

(** The argument [diff] of the source is not used by the format string. *)
Definition str_iter_summary (j : nat) (index : Z) (coord rsquare stdev_res : R) : entry :=
  IterSummary (j + 1) index coord stdev_res rsquare.

(** [X.shape[-2]] and [X.shape[-1]] of a 2-D dataset. *)
Definition n_obs (X : NDDataset) : nat := nth 0 (shape X) 0%nat.
Definition n_vars (X : NDDataset) : nat := nth 1 (shape X) 0%nat.

Definition arange (n : nat) : vector := map INR (seq 0 n).

Definition get_x_data (X : NDDataset) : vector :=
  match x X with
  | Some (c :: cs) => c :: cs
  | _ => arange (n_vars X)
  end.

(** *** Statistics *)

Definition sigma (X : NDDataset) : vector :=
  map np_std (transpose (n_vars X) (data X)).

Definition mu (X : NDDataset) : vector :=
  map np_mean (transpose (n_vars X) (data X)).

Definition alpha (e : env) : R := noise e / 100 * np_max (mu (X e)).

Definition lamda (e : env) : vector :=
  map2 (fun m sg => sqrt (m ^ 2 + sg ^ 2)) (mu (X e)) (sigma (X e)).

Definition p (e : env) : vector :=
  map2 (fun sg m => sg / (m + alpha e)) (sigma (X e)) (mu (X e)).

(** [mu ** 2 + (sigma + alpha) ** 2] *)
Definition scaling (e : env) : vector :=
  map2 (fun m sg => m ^ 2 + (sg + alpha e) ^ 2) (mu (X e)) (sigma (X e)).

Definition Xscaled (e : env) : matrix :=
  map (fun r => map2 (fun y d => y / sqrt d) r (scaling e)) (data (X e)).

Definition COO (e : env) : matrix :=
  scale (1 / INR (n_obs (X e)))
        (matmul (transpose (n_vars (X e)) (Xscaled e)) (Xscaled e)).

(** *** Console *)

Definition lower_ascii (c : ascii) : ascii :=
  let n := nat_of_ascii c in
  if (65 <=? n)%nat && (n <=? 90)%nat then ascii_of_nat (n + 32) else c.

(** [str.lower] *)
Fixpoint lower (a : string) : string :=
  match a with
  | EmptyString => EmptyString
  | String c t => String (lower_ascii c) (lower t)
  end.

(** [ans = ''; while ans.lower() not in valid: ans = input(...)] *)
Fixpoint prompt (valid : list string) (inp : list string) : result (string * list string) :=
  match inp with
  | [] => raise EOFError
  | ans :: rest =>
      if existsb (String.eqb (lower ans)) valid then ret (ans, rest)
      else prompt valid rest
  end.

(** *** Determine the purest variables: the body of the [while] loop *)

(** [j == 0]: compute first purest variable and weights, get index and
    coordinate of pure variable. *)
Definition score0 (e : env) (st : state) : result state :=
  let j := j st in
  w' <- set_row (w st) j (map2 (fun l d => l ^ 2 / d) (lamda e) (scaling e)) ;;
  wj <- get_row w' j ;;
  s' <- set_row (s st) j (map2 Rmult (sigma (X e)) wj) ;;
  Pt' <- set_row (Pt st) j (map2 Rmult (p e) wj) ;;
  Ptj <- get_row Pt' j ;;
  let k := Z.of_nat (np_argmax Ptj) in
  maxPIndex' <- setitem (maxPIndex st) (Z.of_nat j) k ;;
  coord <- getitem 0 (get_x_data (X e)) k ;;
  maxPCoordinate' <- setitem (maxPCoordinate st) (Z.of_nat j) coord ;;
  ret (set_maxPCoordinate maxPCoordinate'
         (set_maxPIndex maxPIndex' (set_Pt Pt' (set_s s' (set_w w' st))))).

(** The matrix [Mji] of candidate [i] at iteration [j]. *)
Definition Mji (COO : matrix) (idx : list Z) (j : nat) : result matrix :=
  for_range (seq 0 (j + 1)) (fun line M =>
    for_range (seq 0 (j + 1)) (fun col M =>
      a <- getitem 0%Z idx (Z.of_nat line) ;;
      b <- getitem 0%Z idx (Z.of_nat col) ;;
      y <- getitem2 COO a b ;;
      setitem2 M line col y) M)
    (zeros (j + 1) (j + 1)).

(** [j > 0]: compute jth purest variable, get index and coordinate of jth
    pure variable. *)
Definition scorej (e : env) (st : state) : result state :=
  let j := j st in
  w' <- for_range (seq 0 (n_vars (X e))) (fun i w' =>
          let idx := Z.of_nat i :: firstn j (maxPIndex st) in
          M <- Mji (COO e) idx j ;;
          setitem2 w' j i (det M)) (w st) ;;
  wj <- get_row w' j ;;
  Pt' <- set_rows_from (Pt st) j (map2 Rmult (p e) wj) ;;
  s' <- set_row (s st) j (map2 Rmult (sigma (X e)) wj) ;;
  Ptj <- get_row Pt' j ;;
  let k := Z.of_nat (np_argmax Ptj) in
  maxPIndex' <- setitem (maxPIndex st) (Z.of_nat j) k ;;
  coord <- getitem 0 (get_x_data (X e)) k ;;
  maxPCoordinate' <- setitem (maxPCoordinate st) (Z.of_nat j) coord ;;
  ret (set_maxPCoordinate maxPCoordinate'
         (set_maxPIndex maxPIndex' (set_Pt Pt' (set_s s' (set_w w' st))))).

(** compute figures of merit *)
Definition merit {E : Extern} (e : env) (st : state) : result (state * R * R) :=
  '(C', St', rsquare, stdev_res) <-
     figures_of_merit (X e) (maxPIndex st) (C st) (St st) (j st) ;;
  ret (set_St St' (set_C C' st), rsquare, stdev_res).

(** [str_iter_summary(j, maxPIndex[j], maxPCoordinate[j], rsquare, stdev_res, _)] *)
Definition summary (st : state) (rsquare stdev_res : R) : result entry :=
  k <- getitem 0%Z (maxPIndex st) (Z.of_nat (j st)) ;;
  coord <- getitem 0 (maxPCoordinate st) (Z.of_nat (j st)) ;;
  ret (str_iter_summary (j st) k coord rsquare stdev_res).

Definition log (l : list entry) (st : state) : state := set_logs (logs st ++ l) st.

(** [print] and [info_] *)
Definition emit (l : list entry) (st : state) : state := set_console (console st ++ l) st.

(** The answer to 'enter the new index (int) or variable value (float)'. *)
Definition change {E : Extern} (e : env) (new : string) (st : state) : result state :=
  let j := j st in
  match py_int new with
  | Some z =>
      maxPIndex' <- setitem (maxPIndex st) (Z.of_nat j) z ;;
      coord <- getitem 0 (get_x_data (X e)) z ;;
      maxPCoordinate' <- setitem (maxPCoordinate st) (Z.of_nat j) coord ;;
      ret (set_maxPCoordinate maxPCoordinate' (set_maxPIndex maxPIndex' st))
  | None =>
      match py_float new with
      | Some r =>
          let k := Z.of_nat (np_argmin (map (fun c => Rabs (c - r)) (get_x_data (X e)))) in
          maxPIndex' <- setitem (maxPIndex st) (Z.of_nat j) k ;;
          coord <- getitem 0 (get_x_data (X e)) k ;;
          maxPCoordinate' <- setitem (maxPCoordinate st) (Z.of_nat j) coord ;;
          ret (set_maxPCoordinate maxPCoordinate' (set_maxPIndex maxPIndex' st))
      | None => ret (emit [IncorrectAnswer] st)
      end
  end.

(** The loops [while ans.lower() != 'a'] (first variable) and
    [while ans.lower() == 'c'] (later variables). *)
Fixpoint change_loop {E : Extern} (e : env) (first : bool) (inp : list string)
  (ans : string) (st : state) (rsquare stdev_res : R)
  : result (string * list string * state * R * R) :=
  if (if first then negb (String.eqb (lower ans) "a") else String.eqb (lower ans) "c")
  then
    match inp with
    | [] => raise EOFError
    | new :: inp1 =>
        st1 <- change e new st ;;
        '(st2, rsquare', stdev_res') <- merit e st1 ;;
        llog <- summary st2 rsquare' stdev_res' ;;
        k <- getitem 0%Z (maxPIndex st2) (Z.of_nat (j st2)) ;;
        coord <- getitem 0 (maxPCoordinate st2) (Z.of_nat (j st2)) ;;
        let st3 := log [ChangedPure (j st2 + 1); llog] st2 in
        let st4 := emit (llog :: if first then [] else [PurestSet (j st2 + 1) k coord]) st3 in
        match inp1 with
        | [] => raise EOFError
        | ans' :: inp2 => change_loop e first inp2 ans' st4 rsquare' stdev_res'
        end
    end
  else ret (ans, inp, st, rsquare, stdev_res).

(** [Pt = Pt[0:j, :]; St = St[0:j, :]; s = s[0:j, :]; C = C[:, 0:j]] *)
Definition truncate (st : state) : state :=
  let j := j st in
  set_C (map (firstn j) (C st))
    (set_s (firstn j (s st)) (set_St (firstn j (St st)) (set_Pt (firstn j (Pt st)) st))).

Definition iteration0 {E : Extern} (e : env) (st : state) : result state :=
  st <- score0 e st ;;
  '(st, rsquare0, stdev_res0) <- merit e st ;;
  (* add summary to log *)
  llog <- summary st rsquare0 stdev_res0 ;;
  let st := log [llog] st in
  let st := if verbose e || interactive e then emit [llog] st else st in
  '(st, stdev_res0) <-
    (if interactive e then
       '(ans, inp) <- prompt ["a"; "c"]%string (stdin st) ;;
       '(_, inp, st, _, stdev_res0) <- change_loop e true inp ans st rsquare0 stdev_res0 ;;
       (* ans was [a]ccept *)
       ret (set_j (j st + 1) (set_stdin inp st), stdev_res0)
     else ret (set_j (j st + 1) st, stdev_res0)) ;;
  ret (set_prev_stdev_res stdev_res0 st).

Definition iterationj {E : Extern} (e : env) (st : state) : result state :=
  st <- scorej e st ;;
  '(st, rsquarej, stdev_resj) <- merit e st ;;
  let st := set_prev_stdev_res stdev_resj st in
  (* add summary to log *)
  llog <- summary st rsquarej stdev_resj ;;
  let st := log [llog] st in
  let st := if verbose e || interactive e then emit [llog] st else st in
  if interactive e then
    '(ans, inp) <- prompt ["a"; "c"; "r"; "f"]%string (stdin st) ;;
    '(ans, inp, st, _, _) <- change_loop e false inp ans st rsquarej stdev_resj ;;
    let st := set_stdin inp st in
    if String.eqb (lower ans) "r" then
      maxPCoordinate' <- setitem (maxPCoordinate st) (Z.of_nat (j st)) 0 ;;
      maxPIndex' <- setitem (maxPIndex st) (Z.of_nat (j st)) 0%Z ;;
      let st := set_maxPIndex maxPIndex' (set_maxPCoordinate maxPCoordinate' st) in
      let st := log [RejectedPure (j st + 1)] st in
      ret (set_j (j st - 1) st)
    else if String.eqb (lower ans) "a" then
      ret (set_j (j st + 1) st)
    else if String.eqb (lower ans) "f" then
      let st := set_j (j st + 1) (set_finished true st) in
      let st := log [Interrupted (j st)] st in
      ret (truncate st)
    else ret st
  else
    (* not interactive *)
    let st := set_j (j st + 1) st in
    if Rlt_dec (1 - rsquarej) (tol e / 100) then
      let st := log [TolReached (tol e)] st in
      let st := truncate st in
      let st := emit [TolReached (tol e)] st in
      ret (set_finished true st)
    else ret st.

Definition body {E : Extern} (e : env) (st : state) : result state :=
  st <- (if (j st =? 0)%nat then iteration0 e st else iterationj e st) ;;
  if (j st =? n_pc e)%nat then
    if negb (interactive e) then
      ret (set_finished true (emit [MaxReached (n_pc e)] (log [MaxReached (n_pc e)] st)))
    else ret st
  else ret st.

(** [while not finished: ...]; [None] when the fuel runs out first. *)
Fixpoint while_not_finished {E : Extern} (fuel : nat) (e : env) (st : state)
  : result (option state) :=
  if finished st then ret (Some st)
  else
    match fuel with
    | O => ret None
    | S fuel' => st' <- body e st ;; while_not_finished fuel' e st'
    end.

(** *** Check data, read the options *)

Definition check_data (X : NDDataset) : result (list warning) :=
  if negb (length (shape X) =? 2)%nat then raise ValueError_ndim
  else
    m <- np_min (flatten (data X)) ;;
    ret (if Rlt_dec m 0 then [NegativeValues] else []).

(** [kwargs.get(key, default)] *)
Definition get {A : Type} (o : option A) (default : A) : A :=
  match o with
  | Some v => v
  | None => default
  end.

(** [n_pc < 2] *)
Definition lt_two (v : pyval) : result bool :=
  match v with
  | PyInt z => ret (z <? 2)%Z
  | PyFloat r => ret (if Rlt_dec r 2 then true else false)
  | PyBool _ => ret true
  | PyStr _ | PyNone => raise TypeError
  end.

(** [isinstance(n_pc, int)]; [bool] is a subclass of [int]. *)
Definition isinstance_int (v : pyval) : bool :=
  match v with
  | PyInt _ | PyBool _ => true
  | _ => false
  end.

(** The value of an [int] used as a size. *)
Definition as_size (v : pyval) : nat :=
  match v with
  | PyInt z => Z.to_nat z
  | PyBool true => 1
  | _ => 0
  end.

Definition configure (X : NDDataset) (kw : kwargs) : result env :=
  let verbose := get (kw_verbose kw) true in
  let interactive := get (kw_interactive kw) false in
  let tol := get (kw_tol kw) (1 / 10) in
  let noise := get (kw_noise kw) 3 in
  let n_pc := get (kw_n_pc kw) (PyInt 2) in
  small <- lt_two n_pc ;;
  if small || negb (isinstance_int n_pc) then raise ValueError_n_pc
  else
    let n_pc := if interactive then PyInt 100 else n_pc in
    ret (mkEnv X interactive verbose tol noise (as_size n_pc)).

(** *** Containers for returned objects and intermediate data *)

Definition init_state (e : env) (inp : list string) : state :=
  let hdr := Header (interactive e) (noise e) (tol e) (n_pc e) in
  {| j := 0;
     finished := false;
     Pt := zeros (n_pc e) (n_vars (X e));
     w := zeros (n_pc e) (n_vars (X e));
     s := zeros (n_pc e) (n_vars (X e));
     C := zeros (n_obs (X e)) (n_pc e);
     St := zeros (n_pc e) (n_vars (X e));
     maxPIndex := repeat 0%Z (n_pc e);
     maxPCoordinate := repeat 0 (n_pc e);
     prev_stdev_res := 0;
     logs := [hdr];
     console := [hdr];
     stdin := inp |}.

(** The attributes of the constructed object. *)
Record SIMPLISMA_object : Type := mkObject {
  _log : list entry;
  _X : NDDataset;
  _Pt : matrix;
  _C : matrix;
  _St : matrix;
  _s : matrix
}.

Definition finish (e : env) (st : state) : SIMPLISMA_object :=
  {| _log := logs st; _X := X e; _Pt := Pt st; _C := C st; _St := St st; _s := s st |}.

(** [SIMPLISMA(X, **kwargs)], with the console input [inp].  The warnings
    issued come with the result; [None] when [fuel] passes of the loop were
    not enough. *)
Definition SIMPLISMA {E : Extern} (X : NDDataset) (kw : kwargs) (inp : list string)
  (fuel : nat) : list warning * result (option SIMPLISMA_object) :=
  match check_data X with
  | inl ex => ([], inl ex)
  | inr warnings =>
      (warnings,
       e <- configure X kw ;;
       final <- while_not_finished fuel e (init_state e inp) ;;
       ret (option_map (finish e) final))
  end.

(** [transform] and [inverse_transform] *)
Definition transform (o : SIMPLISMA_object) : matrix * matrix := (_C o, _St o).

Definition inverse_transform (o : SIMPLISMA_object) : matrix := matmul (_C o) (_St o).

End Simplisma.

(* ------------------------------------------------------------------------- *)
(** ** _analysisutils.py: sign correction of a singular value decomposition  *)
(* ------------------------------------------------------------------------- *)

Module AnalysisUtils.

Open Scope R_scope.

(** [np.sign] *)
Definition np_sign (y : R) : R :=
  if Rlt_dec 0 y then 1 else if Rlt_dec y 0 then -1 else 0.

(** [np.argmax(np.abs(A), axis=0)]: one index per column of [A]; raises on
    an array without rows. *)
Definition argmax_abs_columns (A : matrix) : result (list nat) :=
  match A with
  | [] => raise ValueError_empty
  | _ :: _ => ret (map (fun c => np_argmax (map Rabs (column A c))) (seq 0 (ncols A)))
  end.

(** [np.argmax(np.abs(A), axis=1)]: one index per row of [A]; raises on
    rows without elements. *)
Definition argmax_abs_rows (A : matrix) : result (list nat) :=
  mapM (fun r => match r with
                 | [] => raise ValueError_empty
                 | _ :: _ => ret (np_argmax (map Rabs r))
                 end) A.

(** [A *= signs]: one factor per column of [A]. *)
Definition scale_columns (A : matrix) (signs : vector) : result matrix :=
  sg <- broadcast_row (ncols A) signs ;;
  ret (map (fun r => map2 Rmult r sg) A).

(** [A *= signs[:, np.newaxis]]: one factor per row of [A]. *)
Definition scale_rows (A : matrix) (signs : vector) : result matrix :=
  sg <- broadcast_row (length A) signs ;;
  ret (map2 (fun r y => map (fun a => a * y) r) A sg).

(** [_svd_flip(U, VT, u_based_decision)].  The source multiplies [U] and [VT]
    in place and returns them; the arrays returned are the value here. *)
Definition _svd_flip (U VT : matrix) (u_based_decision : bool) : result (matrix * matrix) :=
  if u_based_decision then
    (* columns of U, rows of VT *)
    max_abs_cols <- argmax_abs_columns U ;;
    let signs := map2 (fun i c => np_sign (nth c (row U i) 0)) max_abs_cols
                      (seq 0 (ncols U)) in
    U' <- scale_columns U signs ;;
    VT' <- scale_rows VT signs ;;
    ret (U', VT')
  else
    (* rows of V, columns of U *)
    max_abs_rows <- argmax_abs_rows VT ;;
    let signs := map2 (fun r i => np_sign (nth i r 0)) VT max_abs_rows in
    U' <- scale_columns U signs ;;
    VT' <- scale_rows VT signs ;;
    ret (U', VT').

End AnalysisUtils.

(* ------------------------------------------------------------------------- *)
(** ** Vocabulary of the statements                                           *)
(* ------------------------------------------------------------------------- *)

Import Simplisma.

Open Scope R_scope.

(** A 2-D dataset of [m] observations of [n] variables, with elements, whose
    coordinates (if any) have one entry per variable. *)
Definition valid_dataset (X : Simplisma.NDDataset) (m n : nat) : Prop :=
  shape X = [m; n] /\ has_shape m n (Simplisma.data X) /\ (0 < m)%nat /\ (0 < n)%nat /\
  (forall c, x X = Some c -> c = [] \/ length c = n).

(** [k] is an index of a sequence of length [n], counted from either end. *)
Definition index_of (n : nat) (k : Z) : Prop := (- Z.of_nat n <= k < Z.of_nat n)%Z.

(** The position an index denotes. *)
Definition position (n : nat) (k : Z) : nat :=
  if (k <? 0)%Z then Z.to_nat (Z.of_nat n + k) else Z.to_nat k.

(** The containers as allocated: [n_pc] components, [m] observations, [n]
    variables, and the selected indices are indices of a variable. *)
Definition state_ok (e : env) (m n : nat) (st : state) : Prop :=
  has_shape (n_pc e) n (Pt st) /\ has_shape (n_pc e) n (w st) /\
  has_shape (n_pc e) n (s st) /\ has_shape m (n_pc e) (C st) /\
  has_shape (n_pc e) n (St st) /\
  length (maxPIndex st) = n_pc e /\ length (maxPCoordinate st) = n_pc e /\
  Forall (index_of n) (maxPIndex st).

(** The containers of a run, possibly sliced to [k] of the [npc] components. *)
Definition shapes (npc m n : nat) (st : state) : Prop :=
  exists k, (0 < k <= npc)%nat /\
            has_shape k n (Pt st) /\ has_shape k n (s st) /\
            has_shape m k (C st) /\ has_shape k n (St st).

(** The four containers of [st'] are those of [st]. *)
Definition same_containers (st st' : state) : Prop :=
  Pt st' = Pt st /\ s st' = s st /\ C st' = C st /\ St st' = St st.

(** The solver returns one row per column of the design matrix and one
    column per column of the right-hand side. *)
Definition lstsq_shaped (E : Extern) : Prop :=
  forall m k n A B, (0 < m)%nat -> has_shape m k A -> has_shape m n B ->
                    has_shape k n (lstsq A B).

(** The positions of the variables selected before the current pass. *)
Definition previous (n : nat) (st : state) : list nat :=
  map (position n) (firstn (j st) (maxPIndex st)).

(** The scoring step of a pass: the branch [j == 0] or the branch [j > 0]. *)
Definition score (e : env) (st : state) : result state :=
  if (j st =? 0)%nat then score0 e st else scorej e st.

(** The figures of merit a pass computes for the variable it selects. *)
Definition pass_merit {E : Extern} (e : env) (st : state) : result (state * R * R) :=
  st1 <- score e st ;; merit e st1.

(** The test [(1 - rsquarej) < tol / 100], made in the passes with [j > 0]. *)
Definition tol_fires (e : env) (st : state) (rsquare : R) : bool :=
  (0 <? j st)%nat && (if Rlt_dec (1 - rsquare) (tol e / 100) then true else false).

(** What a pass of a batch run ([interactive] false) makes of the state [st],
    given the state [st2] after the scoring step and the figures of merit
    [rsquare], [stdev_res] of the selected variable. *)
Record batch_step (e : env) (st st2 : state) (rsquare stdev_res : R) (st' : state)
  : Prop := mkBatchStep {
  step_j : j st' = (j st + 1)%nat;
  step_finished :
    finished st' = finished st || tol_fires e st rsquare || (j st + 1 =? n_pc e)%nat;
  step_logs :
    logs st' =
      logs st
      ++ IterSummary (j st + 1) (nth (j st) (maxPIndex st2) 0%Z)
           (nth (j st) (maxPCoordinate st2) 0) stdev_res rsquare
         :: (if tol_fires e st rsquare then [TolReached (tol e)] else [])
      ++ (if (j st + 1 =? n_pc e)%nat then [MaxReached (n_pc e)] else []);
  step_console :
    console st' =
      console st
      ++ (if verbose e
          then [IterSummary (j st + 1) (nth (j st) (maxPIndex st2) 0%Z)
                  (nth (j st) (maxPCoordinate st2) 0) stdev_res rsquare]
          else [])
      ++ (if tol_fires e st rsquare then [TolReached (tol e)] else [])
      ++ (if (j st + 1 =? n_pc e)%nat then [MaxReached (n_pc e)] else []);
  step_w : w st' = w st2;
  step_maxPIndex : maxPIndex st' = maxPIndex st2;
  step_maxPCoordinate : maxPCoordinate st' = maxPCoordinate st2;
  step_Pt :
    Pt st' = if tol_fires e st rsquare then firstn (j st + 1) (Pt st2) else Pt st2;
  step_St :
    St st' = if tol_fires e st rsquare then firstn (j st + 1) (St st2) else St st2;
  step_s :
    s st' = if tol_fires e st rsquare then firstn (j st + 1) (s st2) else s st2;
  step_C :
    C st' = if tol_fires e st rsquare then map (firstn (j st + 1)) (C st2) else C st2;
  step_stdin : stdin st' = stdin st
}.


(** [A[idx, :][:, idx]]: the sub-matrix of [A] at the rows and columns [idx]. *)
Definition submatrix (A : matrix) (idx : list nat) : matrix :=
  map (fun a => map (fun b => nth b (row A a) 0) idx) idx.

(** [k] is the first index at which [v] is maximal. *)
Definition first_max (v : vector) (k : nat) : Prop :=
  (k < length v)%nat /\
  (forall i, (i < length v)%nat -> nth i v 0 <= nth k v 0) /\
  (forall i, (i < k)%nat -> nth i v 0 < nth k v 0).

(** [n_pc] passes the check of the constructor: an [int], at least 2. *)
Definition valid_n_pc (v : pyval) : Prop := exists z, v = PyInt z /\ (2 <= z)%Z.

Definition is_summary (en : entry) : bool :=
  match en with
  | IterSummary _ _ _ _ _ => true
  | _ => false
  end.

Definition is_end_message (en : entry) : bool :=
  match en with
  | TolReached _ | MaxReached _ => true
  | _ => false
  end.

(** The number of the pass a summary line reports (0 for another entry). *)
Definition summary_iteration (en : entry) : nat :=
  match en with
  | IterSummary iter _ _ _ _ => iter
  | _ => 0%nat
  end.

(** A summary line that reports a variable of the dataset with its
    coordinate, and a standard deviation that is not negative. *)
Definition reports_variable (X : Simplisma.NDDataset) (n : nat) (en : entry) : Prop :=
  match en with
  | IterSummary _ index coord stdev_res _ =>
      exists a, (a < n)%nat /\ index = Z.of_nat a /\
                coord = nth a (get_x_data X) 0 /\ 0 <= stdev_res
  | _ => True
  end.

(** The message of an interruption by the user. *)
Definition is_interruption (en : entry) : bool :=
  match en with
  | Interrupted _ => true
  | _ => false
  end.

(** An entry of the log that does not tell the end of the analysis. *)
Definition goes_on (en : entry) : Prop :=
  is_end_message en = false /\ is_interruption en = false.

(** The log of an interactive run: the user has ended it after [j]
    components, or nothing has. *)
Definition on_request (st : state) : Prop :=
  if finished st then
    exists pre, logs st = pre ++ [Interrupted (j st)] /\ Forall goes_on pre /\
                (2 <= j st)%nat /\ length (Pt st) = j st
  else Forall goes_on (logs st).

(** The options with another value of [verbose]. *)
Definition with_verbose (b : option bool) (kw : kwargs) : kwargs :=
  mkKwargs b (kw_interactive kw) (kw_tol kw) (kw_noise kw) (kw_n_pc kw).

(** The configuration with another value of [verbose]. *)
Definition set_verbose (b : bool) (e : env) : env :=
  mkEnv (X e) (interactive e) b (tol e) (noise e) (n_pc e).

(** What the adapter gives back for the data [D] when the rows [mr] and the
    columns [mc] were masked: a masked cell holds 0 under a set mask bit, the
    other cells hold the data. *)
Definition restored (D : list (list R)) (mr mc : list bool) : list (list (R * bool)) :=
  map2 (fun (r : bool) row =>
          map2 (fun (c : bool) y => if r || c then (0, true) else (y, false)) mc row)
       mr D.

(** The mask of a dataset of [m] rows and [n] columns. *)
Definition mask_shaped (m n : nat) (mask : Masked.maskval) : Prop :=
  match mask with
  | Masked.NOMASK => True
  | Masked.Mask b => has_shape m n b
  end.

(** The signs [_svd_flip] takes from the columns of [U]: for each of the [k]
    columns, the sign of its first entry of largest absolute value. *)
Definition column_signs (U : list (list R)) (k : nat) : list R :=
  map (fun c => AnalysisUtils.np_sign
                  (nth c (row U (np_argmax (map Rabs (column U c)))) 0))
      (seq 0 k).

(** The signs [_svd_flip] takes from the rows of [VT]: for each row, the sign
    of its first entry of largest absolute value. *)
Definition row_signs (VT : list (list R)) : list R :=
  map (fun r => AnalysisUtils.np_sign (nth (np_argmax (map Rabs r)) r 0)) VT.

(** *** A solver for the examples

    The solution of the normal equations, [(A^T A)^-1 A^T B], with the inverse
    by cofactors: the least-squares solution whenever the columns of [A] are
    independent. *)

Definition minor (i k : nat) (M : matrix) : matrix :=
  map (remove_nth k) (remove_nth i M).

Definition adjugate (M : matrix) : matrix :=
  map (fun i => map (fun k => (-1) ^ (i + k) * det (minor k i M)) (seq 0 (length M)))
      (seq 0 (length M)).

Definition inverse (M : matrix) : matrix := scale (/ det M) (adjugate M).

Definition lstsq_normal (A B : matrix) : matrix :=
  let At := transpose (ncols A) A in
  matmul (matmul (inverse (matmul At A)) At) B.

(** The library of a batch run: the parsers of console input reject
    everything, they are not called when [interactive] is false. *)
Definition batch : Extern :=
  {| lstsq := lstsq_normal; py_int := fun _ => None; py_float := fun _ => None |}.

(** *** Example inputs *)

Definition no_kwargs : kwargs := mkKwargs None None None None None.

(** Two observations of one variable. *)
Definition X_one_variable : Simplisma.NDDataset :=
  {| shape := [2; 1]%nat; Simplisma.data := [[1]; [2]]; x := None |}.

Definition e_one_variable : env := mkEnv X_one_variable false true (1 / 10) 3 2.

(** Two observations of two variables, each a pure component; up to three
    components are asked for. *)
Definition X_two_variables : Simplisma.NDDataset :=
  {| shape := [2; 2]%nat; Simplisma.data := [[1; 0]; [0; 1]]; x := None |}.

Definition e_two_variables : env := mkEnv X_two_variables false true (1 / 10) 3 3.

(** The error the check of [n_pc] ends with. *)
Definition n_pc_error (v : pyval) : exn :=
  match v with
  | PyStr _ | PyNone => TypeError
  | _ => ValueError_n_pc
  end.

(** The keyword arguments with [interactive] set to [b]. *)
Definition with_interactive (b : option bool) (kw : kwargs) : kwargs :=
  mkKwargs (kw_verbose kw) b (kw_tol kw) (kw_noise kw) (kw_n_pc kw).

(** An estimator before any dataset is given to it. *)
Definition analysis0 : Masked.AnalysisConfigurable :=
  {| Masked._X_mask := None; Masked._shape := (0%nat, 0%nat) |}.

(** A 2 x 2 dataset whose first row and first column are masked. *)
Definition X_row_and_column_masked : Masked.NDDataset :=
  {| Masked.data := [[1; 2]; [3; 4]];
     Masked._mask := Masked.Mask [[true; true]; [true; false]] |}.

(** The same data with the first column masked, and with the first row
    masked. *)
Definition X_column_masked : Masked.NDDataset :=
  {| Masked.data := [[1; 2]; [3; 4]];
     Masked._mask := Masked.Mask [[true; false]; [true; false]] |}.

Definition X_row_masked : Masked.NDDataset :=
  {| Masked.data := [[1; 2]; [3; 4]];
     Masked._mask := Masked.Mask [[true; true]; [false; false]] |}.


(** The state of the batch run on [X_two_variables] after its first pass. *)
Definition st_two_after_first : state :=
  match @body batch e_two_variables (init_state e_two_variables []) with
  | inr st => st
  | inl _ => init_state e_two_variables []
  end.

(** An [n_pc] below 2. *)
Definition kw_n_pc_1 : kwargs := mkKwargs None None None None (Some (PyInt 1)).

(** A library whose parser of integers reads the digits 0 and 1. *)
Definition digits : Extern :=
  {| lstsq := lstsq_normal;
     py_int := fun a => if String.eqb a "0" then Some 0%Z
                        else if String.eqb a "1" then Some 1%Z else None;
     py_float := fun _ => None |}.

(** The options of an interactive run on [X_one_variable]. *)
Definition e_interactive : env := mkEnv X_one_variable true true (1 / 10) 3 100.

(** A 2 x 2 array whose first column has its largest entry negative, and
    an array of two rows to go with it. *)
Definition U_two : matrix := [[-2; 0]; [1; 1]].
Definition VT_two : matrix := [[1; -3]; [0; 2]].

(* ========================================================================= *)
(** * Properties                                                              *)
(* ========================================================================= *)

(** ** Lists, indices and the error monad *)

Section Basics.

Variable T : Type.

Lemma bind_inr (A B : Type) (m : result A) (k : A -> result B) b :
  bind m k = inr b -> exists a, m = inr a /\ k a = inr b.
Proof. destruct m as [ex | a]; simpl; [discriminate | eauto]. Qed.

Lemma length_replace_nth i (y : T) l : length (replace_nth i y l) = length l.
Proof.
  revert i. induction l as [| a t IH]; intros [| i]; simpl; auto.
Qed.

Lemma nth_replace_nth_eq i (y d : T) l :
  (i < length l)%nat -> nth i (replace_nth i y l) d = y.
Proof.
  revert i. induction l as [| a t IH]; intros [| i] Hi; simpl in *; try lia; auto.
  apply IH. lia.
Qed.

Lemma nth_replace_nth_neq i k (y d : T) l :
  i <> k -> nth k (replace_nth i y l) d = nth k l d.
Proof.
  revert i k. induction l as [| a t IH]; intros [| i] [| k] Hik; simpl; auto; try lia.
Qed.

Lemma Forall_replace_nth (P : T -> Prop) i y l :
  Forall P l -> P y -> Forall P (replace_nth i y l).
Proof.
  intros Hl Hy. revert i. induction Hl as [| a t Ha Ht IH]; intros [| i]; simpl; auto.
Qed.

Lemma firstn_replace_nth i k (y : T) l :
  (k <= i)%nat -> firstn k (replace_nth i y l) = firstn k l.
Proof.
  revert i k. induction l as [| a t IH]; intros [| i] [| k] Hk; simpl; auto; try lia.
  f_equal. apply IH. lia.
Qed.

Lemma skipn_replace_nth i k (y : T) l :
  (i < k)%nat -> skipn k (replace_nth i y l) = skipn k l.
Proof.
  revert i k. induction l as [| a t IH]; intros [| i] [| k] Hk; simpl; auto; try lia.
  apply IH. lia.
Qed.

Lemma norm_index_nat n i :
  (i < n)%nat -> norm_index n (Z.of_nat i) = inr i.
Proof.
  intros Hi. unfold norm_index.
  destruct (Z.leb_spec 0 (Z.of_nat i)); [| lia].
  destruct (Z.ltb_spec (Z.of_nat i) (Z.of_nat n)); [| lia].
  simpl. unfold ret. f_equal. lia.
Qed.

Lemma norm_index_position n k :
  index_of n k -> norm_index n k = inr (position n k) /\ (position n k < n)%nat.
Proof.
  unfold index_of, norm_index, position. intros Hk.
  destruct (Z.leb_spec 0 k), (Z.ltb_spec k (Z.of_nat n)), (Z.ltb_spec k 0),
    (Z.leb_spec (- Z.of_nat n) k); simpl; try lia; split; try reflexivity; lia.
Qed.

Lemma norm_index_inr n k i :
  norm_index n k = inr i -> index_of n k /\ i = position n k.
Proof.
  unfold index_of, norm_index, position.
  destruct (Z.leb_spec 0 k), (Z.ltb_spec k (Z.of_nat n)), (Z.ltb_spec k 0),
    (Z.leb_spec (- Z.of_nat n) k); simpl; unfold ret, raise; intros Heq;
    inversion Heq; subst; split; try reflexivity; lia.
Qed.

Lemma position_nat n i : position n (Z.of_nat i) = i.
Proof.
  unfold position. destruct (Z.ltb_spec (Z.of_nat i) 0); lia.
Qed.

Lemma index_of_nat n i : (i < n)%nat -> index_of n (Z.of_nat i).
Proof. unfold index_of. lia. Qed.

Lemma getitem_nat (d : T) l i :
  (i < length l)%nat -> getitem d l (Z.of_nat i) = inr (nth i l d).
Proof.
  intros Hi. unfold getitem. rewrite norm_index_nat by assumption. reflexivity.
Qed.

Lemma setitem_nat l i (y : T) :
  (i < length l)%nat -> setitem l (Z.of_nat i) y = inr (replace_nth i y l).
Proof.
  intros Hi. unfold setitem. rewrite norm_index_nat by assumption. reflexivity.
Qed.

Lemma setitem_inr l k (y : T) l' :
  setitem l k y = inr l' ->
  index_of (length l) k /\ l' = replace_nth (position (length l) k) y l.
Proof.
  unfold setitem. intros H. apply bind_inr in H as (i & Hi & H').
  apply norm_index_inr in Hi as [Hk ->]. inversion H'. auto.
Qed.

Lemma broadcast_row_same n (r : list T) :
  length r = n -> broadcast_row n r = inr r.
Proof.
  intros Hr. unfold broadcast_row. rewrite Hr, Nat.eqb_refl. reflexivity.
Qed.

Lemma broadcast_row_length n (r r' : list T) :
  broadcast_row n r = inr r' -> length r' = n.
Proof.
  unfold broadcast_row. destruct (Nat.eqb_spec (length r) n) as [Hn | Hn].
  - intros H. inversion H. subst. reflexivity.
  - destruct r as [| a [| b t]]; intros H; inversion H. apply repeat_length.
Qed.

Lemma mapM_inr (A : Type) (f : A -> result T) (g : A -> T) l :
  (forall a, In a l -> f a = inr (g a)) -> mapM f l = inr (map g l).
Proof.
  induction l as [| a t IH]; intros Hf; simpl; [reflexivity |].
  rewrite (Hf a) by (left; reflexivity). simpl.
  rewrite IH by (intros b Hb; apply Hf; right; assumption). reflexivity.
Qed.

Lemma mapM_Forall (A : Type) (f : A -> result T) (P : T -> Prop) l l' :
  (forall a b, f a = inr b -> P b) -> mapM f l = inr l' ->
  length l' = length l /\ Forall P l'.
Proof.
  intros Hf. revert l'. induction l as [| a t IH]; intros l' H; simpl in H.
  - inversion H. split; [reflexivity | constructor].
  - apply bind_inr in H as (b & Hb & H1). apply bind_inr in H1 as (bs & Hbs & H2).
    inversion H2. subst l'. destruct (IH bs Hbs) as [Hlen Hall].
    split; [simpl; congruence | constructor; eauto].
Qed.

End Basics.

Section Shapes.

Variable T : Type.

Lemma has_shape_full m n (y : T) : has_shape m n (full m n y).
Proof.
  unfold has_shape, full. split; [apply repeat_length |].
  apply Forall_forall. intros r Hr. apply repeat_spec in Hr. subst.
  apply repeat_length.
Qed.

Lemma has_shape_ncols m n (A : list (list T)) :
  has_shape m n A -> (0 < m)%nat -> ncols A = n.
Proof.
  intros [Hm Hn] Hpos. destruct A as [| r t]; simpl in *; [lia |].
  inversion Hn. assumption.
Qed.

Lemma has_shape_row m n (A : list (list T)) i :
  has_shape m n A -> (i < m)%nat -> length (row A i) = n.
Proof.
  intros [Hm Hn] Hi. unfold row.
  rewrite Forall_forall in Hn. apply Hn. apply nth_In. lia.
Qed.

Lemma has_shape_replace_nth m n (A : list (list T)) i r :
  has_shape m n A -> length r = n -> has_shape m n (replace_nth i r A).
Proof.
  intros [Hm Hn] Hr. split.
  - rewrite length_replace_nth. assumption.
  - apply Forall_replace_nth; assumption.
Qed.

Lemma broadcast_to_shape m n (V V' : list (list T)) :
  broadcast_to m n V = inr V' -> has_shape m n V'.
Proof.
  unfold broadcast_to. intros H. apply bind_inr in H as (rows & Hrows & H').
  apply (@mapM_Forall _ _ _ (fun r => length r = n)) in H' as [Hlen Hall].
  - split; [| assumption]. rewrite Hlen.
    destruct (Nat.eqb_spec (length V) m) as [Hm | Hm].
    + inversion Hrows. subst. reflexivity.
    + destruct V as [| r [| r' t]]; inversion Hrows. apply repeat_length.
  - intros a b. apply broadcast_row_length.
Qed.

Lemma broadcast_to_same m n (V : list (list T)) :
  has_shape m n V -> broadcast_to m n V = inr V.
Proof.
  intros [Hm Hn]. unfold broadcast_to. rewrite Hm, Nat.eqb_refl. simpl.
  rewrite (@mapM_inr _ _ (broadcast_row n) (fun r => r)).
  - rewrite map_id. reflexivity.
  - intros r Hr. apply broadcast_row_same.
    rewrite Forall_forall in Hn. apply Hn. assumption.
Qed.

Lemma length_map2 (A B : Type) (f : A -> B -> T) u v :
  length (map2 f u v) = Nat.min (length u) (length v).
Proof. unfold map2. rewrite length_map, length_combine. reflexivity. Qed.

Lemma nth_map2 (A B : Type) (f : A -> B -> T) u v i d da db :
  (i < length u)%nat -> (i < length v)%nat ->
  nth i (map2 f u v) d = f (nth i u da) (nth i v db).
Proof.
  unfold map2. revert v i.
  induction u as [| a u IH]; intros [| b v] [| i] Hu Hv; simpl in *; try lia; auto.
  apply IH; lia.
Qed.

End Shapes.

(** ** The options: [n_pc] *)

Section Options.

Context {E : Extern}.

Lemma configure_valid X kw z :
  get (kw_n_pc kw) (PyInt 2) = PyInt z -> (2 <= z)%Z ->
  configure X kw =
    inr (mkEnv X (get (kw_interactive kw) false) (get (kw_verbose kw) true)
               (get (kw_tol kw) (1 / 10)) (get (kw_noise kw) 3)
               (if get (kw_interactive kw) false then 100%nat else Z.to_nat z)).
Proof.
  intros Hv Hz. unfold configure. rewrite Hv. simpl.
  destruct (Z.ltb_spec z 2); [lia |]. simpl.
  destruct (get (kw_interactive kw) false); reflexivity.
Qed.

Lemma configure_invalid X kw :
  ~ valid_n_pc (get (kw_n_pc kw) (PyInt 2)) ->
  configure X kw = inl (n_pc_error (get (kw_n_pc kw) (PyInt 2))).
Proof.
  intros Hinv. unfold configure.
  destruct (get (kw_n_pc kw) (PyInt 2)) as [z | r | b | t |] eqn:Hv; simpl; try reflexivity.
  - destruct (Z.ltb_spec z 2); [reflexivity |].
    exfalso. apply Hinv. exists z. split; [reflexivity | lia].
  - destruct (Rlt_dec r 2); reflexivity.
Qed.

Lemma SIMPLISMA_invalid X kw inp fuel :
  ~ valid_n_pc (get (kw_n_pc kw) (PyInt 2)) ->
  SIMPLISMA X kw inp fuel =
    match check_data X with
    | inl ex' => ([], inl ex')
    | inr warnings => (warnings, inl (n_pc_error (get (kw_n_pc kw) (PyInt 2))))
    end.
Proof.
  intros Hinv. unfold SIMPLISMA.
  destruct (check_data X) as [ex' | ws]; [reflexivity |].
  rewrite configure_invalid by assumption. reflexivity.
Qed.

(** C6.  Whatever the dataset, the console and the other options are, a
    construction with an [n_pc] that is not an [int] of at least 2 ends with
    an error: the options are rejected ([configure] fails, with [ValueError],
    or with the [TypeError] of the comparison for a value that cannot be
    compared with 2), so the containers [Pt], [w], [s], [C], [St] are never
    built and the loop never runs; the outcome is the same for every console
    input and every number of passes.  Only the check of the data comes
    first. *)
Theorem invalid_n_pc_raises X kw :
  ~ valid_n_pc (get (kw_n_pc kw) (PyInt 2)) ->
  exists ex,
    configure X kw = inl ex /\
    ex = n_pc_error (get (kw_n_pc kw) (PyInt 2)) /\
    forall inp fuel,
      SIMPLISMA X kw inp fuel =
        match check_data X with
        | inl ex' => ([], inl ex')
        | inr warnings => (warnings, inl ex)
        end.
Proof.
  intros Hinv. exists (n_pc_error (get (kw_n_pc kw) (PyInt 2))).
  split; [apply configure_invalid; assumption |]. split; [reflexivity |].
  intros inp fuel. apply SIMPLISMA_invalid; assumption.
Qed.

(** C10.  The check of [n_pc] is made on the value the caller gave, before
    [interactive] replaces it by 100: with an invalid [n_pc] the construction
    ends with the same error whether [interactive] is set or not, and with a
    valid one the interactive run is configured with [n_pc = 100]. *)
Theorem interactive_keeps_n_pc_check X kw :
  (~ valid_n_pc (get (kw_n_pc kw) (PyInt 2)) ->
   forall b inp inp' fuel fuel',
     SIMPLISMA X (with_interactive (Some true) kw) inp fuel =
     SIMPLISMA X (with_interactive b kw) inp' fuel' /\
     exists warnings ex,
       SIMPLISMA X (with_interactive (Some true) kw) inp fuel = (warnings, inl ex)) /\
  (valid_n_pc (get (kw_n_pc kw) (PyInt 2)) ->
   exists e, configure X (with_interactive (Some true) kw) = inr e /\
             interactive e = true /\ n_pc e = 100%nat).
Proof.
  split.
  - intros Hinv b inp inp' fuel fuel'.
    rewrite (@SIMPLISMA_invalid X (with_interactive (Some true) kw) inp fuel) by exact Hinv.
    rewrite (@SIMPLISMA_invalid X (with_interactive b kw) inp' fuel') by exact Hinv.
    split; [reflexivity |].
    destruct (check_data X) as [ex' | ws]; eauto.
  - intros (z & Hv & Hz).
    eexists. split.
    + apply (@configure_valid X (with_interactive (Some true) kw) z); assumption.
    + simpl. split; reflexivity.
Qed.

End Options.

(** ** Reductions: [np.argmax], [np.max] *)

Lemma argmax_from_spec v : forall best bi i,
  (argmax_from best bi i v = bi /\ forall u, (u < length v)%nat -> nth u v 0 <= best) \/
  (exists t, argmax_from best bi i v = (i + t)%nat /\ (t < length v)%nat /\
             best < nth t v 0 /\
             (forall u, (u < length v)%nat -> nth u v 0 <= nth t v 0) /\
             (forall u, (u < t)%nat -> nth u v 0 < nth t v 0)).
Proof.
  induction v as [| y v IH]; intros best bi i; simpl.
  - left. split; [reflexivity | intros u Hu; lia].
  - destruct (Rlt_dec best y) as [Hlt | Hge].
    + destruct (IH y i (S i)) as [[Hk Hall] | (t & Hk & Ht & Hbest & Hall & Hfirst)].
      * right. exists 0%nat. rewrite Hk.
        split; [lia |]. split; [lia |]. split; [assumption |]. split.
        -- intros [| u] Hu; [lra | apply Hall; lia].
        -- intros u Hu; lia.
      * right. exists (S t). rewrite Hk.
        split; [lia |]. split; [lia |]. split; [simpl; lra |]. split.
        -- intros [| u] Hu; simpl; [lra | apply Hall; lia].
        -- intros [| u] Hu; simpl; [lra | apply Hfirst; lia].
    + destruct (IH best bi (S i)) as [[Hk Hall] | (t & Hk & Ht & Hbest & Hall & Hfirst)].
      * left. split; [assumption |]. intros [| u] Hu; [lra | apply Hall; lia].
      * right. exists (S t). rewrite Hk.
        split; [lia |]. split; [lia |]. split; [simpl; assumption |]. split.
        -- intros [| u] Hu; simpl; [lra | apply Hall; lia].
        -- intros [| u] Hu; simpl; [lra | apply Hfirst; lia].
Qed.

Lemma np_argmax_first_max v : v <> [] -> first_max v (np_argmax v).
Proof.
  destruct v as [| y v]; [congruence | intros _].
  unfold first_max, np_argmax.
  destruct (argmax_from_spec v y 0 1) as [[Hk Hall] | (t & Hk & Ht & Hbest & Hall & Hfirst)];
    rewrite Hk.
  - split; [simpl; lia |]. split.
    + intros [| u] Hu; simpl in *; [lra | apply Hall; lia].
    + intros u Hu; lia.
  - split; [simpl; lia |]. split.
    + intros [| u] Hu; simpl in *; [lra | apply Hall; lia].
    + intros [| u] Hu; simpl in *; [lra | apply Hfirst; lia].
Qed.



(** ** The statistics of a valid dataset *)

Section Statistics.

Variables (e : env) (m n : nat).
Hypothesis HX : valid_dataset (X e) m n.

Lemma valid_n_vars : n_vars (X e) = n.
Proof. destruct HX as (Hs & _). unfold n_vars. rewrite Hs. reflexivity. Qed.

Lemma valid_n_obs : n_obs (X e) = m.
Proof. destruct HX as (Hs & _). unfold n_obs. rewrite Hs. reflexivity. Qed.

Lemma length_mu : length (mu (X e)) = n.
Proof.
  unfold mu, transpose. rewrite !length_map, length_seq. apply valid_n_vars.
Qed.

Lemma length_sigma : length (sigma (X e)) = n.
Proof.
  unfold sigma, transpose. rewrite !length_map, length_seq. apply valid_n_vars.
Qed.

Lemma length_lamda : length (lamda e) = n.
Proof. unfold lamda. rewrite length_map2, length_mu, length_sigma. lia. Qed.

Lemma length_scaling : length (scaling e) = n.
Proof. unfold scaling. rewrite length_map2, length_mu, length_sigma. lia. Qed.

Lemma length_p : length (p e) = n.
Proof. unfold p. rewrite length_map2, length_mu, length_sigma. lia. Qed.

Lemma length_get_x_data : length (get_x_data (X e)) = n.
Proof.
  destruct HX as (_ & _ & _ & _ & Hx). unfold get_x_data.
  destruct (x (X e)) as [[| c cs] |] eqn:Hc.
  - unfold arange. rewrite length_map, length_seq. apply valid_n_vars.
  - destruct (Hx _ eq_refl) as [Hnil | Hlen]; [discriminate | assumption].
  - unfold arange. rewrite length_map, length_seq. apply valid_n_vars.
Qed.

End Statistics.

(** ** Assignments to rows and columns *)

Ltac bind_inv H a Ha :=
  let H' := fresh in
  apply bind_inr in H as (a & Ha & H'); rename H' into H.

Ltac state_simpl :=
  cbn [j finished Pt w s C St maxPIndex maxPCoordinate prev_stdev_res logs console stdin
       set_j set_finished set_Pt set_w set_s set_C set_St set_maxPIndex
       set_maxPCoordinate set_prev_stdev_res set_logs set_console set_stdin
       log emit truncate] in *.

Lemma set_row_ok m n A i v :
  has_shape m n A -> (i < m)%nat -> length v = n ->
  set_row A i v = inr (replace_nth i v A).
Proof.
  intros HA Hi Hv. unfold set_row.
  destruct HA as [Hm Hn]. destruct (Nat.ltb_spec i (length A)); [| lia].
  rewrite broadcast_row_same; [reflexivity |].
  rewrite (@has_shape_ncols _ m n A); [assumption | split; assumption | lia].
Qed.

Lemma set_row_shape m n A i v A' :
  has_shape m n A -> set_row A i v = inr A' -> has_shape m n A'.
Proof.
  intros HA. unfold set_row.
  destruct (Nat.ltb_spec i (length A)) as [Hi | Hi]; [| discriminate].
  intros H. bind_inv H v' Hv'. inversion H. subst A'.
  apply has_shape_replace_nth; [assumption |].
  apply broadcast_row_length in Hv'. rewrite Hv'.
  apply has_shape_ncols with (m := m); [assumption | destruct HA; lia].
Qed.

Lemma get_row_ok A i : (i < length A)%nat -> get_row A i = inr (row A i).
Proof.
  intros Hi. unfold get_row. destruct (Nat.ltb_spec i (length A)); [reflexivity | lia].
Qed.

Lemma row_replace_nth_eq (T : Type) i (v : list T) (A : list (list T)) :
  (i < length A)%nat -> row (replace_nth i v A) i = v.
Proof. intros Hi. unfold row. apply nth_replace_nth_eq. assumption. Qed.

Section FirstVariable.

Variables (e : env) (m n : nat) (st : state).
Hypothesis HX : valid_dataset (X e) m n.
Hypothesis Hst : state_ok e m n st.
Hypothesis Hpc : (0 < n_pc e)%nat.
Hypothesis Hj : j st = 0%nat.

(** The rows the first pass writes. *)
Let w0 : vector := map2 (fun l d => l ^ 2 / d) (lamda e) (scaling e).
Let Pt0 : vector := map2 Rmult (p e) w0.

Lemma length_w0 : length w0 = n.
Proof.
  unfold w0. rewrite length_map2, (length_lamda e HX), (length_scaling e HX). lia.
Qed.

Lemma length_Pt0 : length Pt0 = n.
Proof. unfold Pt0. rewrite length_map2, (length_p e HX), length_w0. lia. Qed.

Lemma score0_eq :
  score0 e st =
    inr (set_maxPCoordinate
           (replace_nth 0 (nth (np_argmax Pt0) (get_x_data (X e)) 0) (maxPCoordinate st))
           (set_maxPIndex (replace_nth 0 (Z.of_nat (np_argmax Pt0)) (maxPIndex st))
              (set_Pt (replace_nth 0 Pt0 (Pt st))
                 (set_s (replace_nth 0 (map2 Rmult (sigma (X e)) w0) (s st))
                    (set_w (replace_nth 0 w0 (w st)) st))))).
Proof.
  destruct Hst as (HPt & Hw & Hs & HC & HSt & HmI & HmC & Hidx).
  assert (Hn : (0 < n)%nat) by (destruct HX as (_ & _ & _ & Hn & _); exact Hn).
  assert (Hk : (np_argmax Pt0 < n)%nat).
  { destruct (@np_argmax_first_max Pt0) as (Hk & _).
    - intros Hnil. pose proof length_Pt0 as Hl. rewrite Hnil in Hl. simpl in Hl. lia.
    - rewrite length_Pt0 in Hk. exact Hk. }
  assert (Hws : length (map2 Rmult (sigma (X e)) w0) = n)
    by (rewrite length_map2, (length_sigma e HX), length_w0; lia).
  unfold score0. rewrite Hj.
  erewrite set_row_ok; [| exact Hw | exact Hpc | exact length_w0]. cbn [bind].
  rewrite get_row_ok by (rewrite length_replace_nth; destruct Hw; lia). cbn [bind].
  rewrite row_replace_nth_eq by (destruct Hw; lia).
  erewrite set_row_ok;
    [| exact Hs | exact Hpc | exact Hws].
  cbn [bind].
  erewrite set_row_ok; [| exact HPt | exact Hpc | exact length_Pt0]. cbn [bind].
  rewrite get_row_ok by (rewrite length_replace_nth; destruct HPt; lia). cbn [bind].
  rewrite row_replace_nth_eq by (destruct HPt; lia).
  change (Z.of_nat 0) with 0%Z.
  rewrite (setitem_nat (maxPIndex st) (i := 0)) by lia. cbn [bind].
  rewrite getitem_nat by (rewrite (length_get_x_data e HX); exact Hk). cbn [bind].
  rewrite (setitem_nat (maxPCoordinate st) (i := 0)) by lia. cbn [bind].
  reflexivity.
Qed.

End FirstVariable.



(** ** Loops that fill a row, or a matrix row by row *)

Section Fill.

Variable T : Type.

Lemma replace_nth_same i (d : T) l :
  (i < length l)%nat -> replace_nth i (nth i l d) l = l.
Proof.
  revert i. induction l as [| a t IH]; intros [| i] Hi; simpl in *; try lia; auto.
  f_equal. apply IH. lia.
Qed.

Lemma replace_nth_twice i (y z : T) l :
  replace_nth i z (replace_nth i y l) = replace_nth i z l.
Proof.
  revert i. induction l as [| a t IH]; intros [| i]; simpl; auto.
  f_equal. apply IH.
Qed.

Lemma firstn_S_replace_nth i (y : T) l :
  (i < length l)%nat -> firstn (S i) (replace_nth i y l) = firstn i l ++ [y].
Proof.
  revert i. induction l as [| a t IH]; intros [| i] Hi; simpl in *; try lia; auto.
  f_equal. apply IH. lia.
Qed.

Lemma firstn_all_length (l : list T) k : length l = k -> firstn k l = l.
Proof. intros <-. apply firstn_all. Qed.

Lemma map_nth_seq (B : Type) (f : T -> B) (d : T) l :
  map (fun k => f (nth k l d)) (seq 0 (length l)) = map f l.
Proof.
  induction l as [| a t IH]; simpl; [reflexivity |].
  f_equal. rewrite <- seq_shift, map_map. exact IH.
Qed.

End Fill.

Lemma fill_row_aux (F : nat -> matrix -> result matrix) (g : nat -> R) (line : nat) :
  forall len a M,
    (line < length M)%nat -> length (row M line) = (a + len)%nat ->
    (forall col M', (a <= col < a + len)%nat -> length M' = length M ->
                    length (row M' line) = (a + len)%nat ->
                    F col M' = setitem2 M' line col (g col)) ->
    for_range (seq a len) F M =
      inr (replace_nth line (firstn a (row M line) ++ map g (seq a len)) M).
Proof.
  induction len as [| len IH]; intros a M Hline Hrow HF; simpl.
  - rewrite app_nil_r, firstn_all_length by lia.
    unfold row. rewrite replace_nth_same by assumption. reflexivity.
  - rewrite HF by (try lia; assumption).
    unfold setitem2.
    destruct (Nat.ltb_spec line (length M)); [| lia].
    destruct (Nat.ltb_spec a (length (row M line))); [| lia]. cbn [andb bind ret].
    rewrite IH.
    + f_equal. unfold row at 1. rewrite nth_replace_nth_eq by assumption.
      rewrite replace_nth_twice, firstn_S_replace_nth by lia.
      rewrite <- app_assoc. reflexivity.
    + rewrite length_replace_nth. assumption.
    + unfold row at 1. rewrite nth_replace_nth_eq by assumption.
      rewrite length_replace_nth. lia.
    + intros col M' Hcol HM' Hrow'. apply HF.
      * lia.
      * rewrite HM', length_replace_nth. reflexivity.
      * rewrite Hrow'. lia.
Qed.

Lemma fill_row (F : nat -> matrix -> result matrix) (g : nat -> R) (line c : nat) M :
  (line < length M)%nat -> length (row M line) = c ->
  (forall col M', (col < c)%nat -> length M' = length M -> length (row M' line) = c ->
                  F col M' = setitem2 M' line col (g col)) ->
  for_range (seq 0 c) F M = inr (replace_nth line (map g (seq 0 c)) M).
Proof.
  intros Hline Hrow HF.
  rewrite (@fill_row_aux F g line c 0 M); try assumption.
  - reflexivity.
  - intros col M' Hcol. apply HF. lia.
Qed.

Lemma fill_matrix_aux (G : nat -> matrix -> result matrix) (rowval : nat -> list R) c :
  forall len a M,
    has_shape (a + len) c M ->
    (forall line, length (rowval line) = c) ->
    (forall line M', (a <= line < a + len)%nat -> has_shape (a + len) c M' ->
                     G line M' = inr (replace_nth line (rowval line) M')) ->
    for_range (seq a len) G M = inr (firstn a M ++ map rowval (seq a len)).
Proof.
  induction len as [| len IH]; intros a M HM Hval HG; simpl.
  - destruct HM as [HM _]. rewrite app_nil_r, firstn_all_length by lia. reflexivity.
  - rewrite HG by (try lia; assumption). cbn [bind].
    assert (HM' : has_shape (a + S len) c (replace_nth a (rowval a) M))
      by (apply has_shape_replace_nth; [assumption | apply Hval]).
    destruct HM as [HM _].
    rewrite IH.
    + rewrite firstn_S_replace_nth by lia. rewrite <- app_assoc. reflexivity.
    + replace (S a + len)%nat with (a + S len)%nat by lia. exact HM'.
    + assumption.
    + intros line M' Hline HM''.
      replace (S a + len)%nat with (a + S len)%nat in HM'' by lia.
      apply HG; [lia | assumption].
Qed.

Lemma fill_matrix (G : nat -> matrix -> result matrix) (rowval : nat -> list R) r c M :
  has_shape r c M ->
  (forall line, length (rowval line) = c) ->
  (forall line M', (line < r)%nat -> has_shape r c M' ->
                   G line M' = inr (replace_nth line (rowval line) M')) ->
  for_range (seq 0 r) G M = inr (map rowval (seq 0 r)).
Proof.
  intros HM Hval HG. rewrite (@fill_matrix_aux G rowval c r 0 M); try assumption.
  - reflexivity.
  - intros line M' Hline. apply HG. lia.
Qed.

(** ** The matrix [Mji] and the weights of a later pass *)

Lemma getitem2_ok n A a b :
  has_shape n n A -> index_of n a -> index_of n b ->
  getitem2 A a b = inr (nth (position n b) (row A (position n a)) 0).
Proof.
  intros HA Ha Hb. unfold getitem2.
  destruct (norm_index_position Ha) as [Hna Hpa].
  destruct (norm_index_position Hb) as [Hnb Hpb].
  assert (Hn : (0 < n)%nat) by lia.
  destruct HA as [Hlen Hrows]. rewrite Hlen, Hna. cbn [bind].
  rewrite (@has_shape_ncols _ n n A) by (try split; assumption).
  rewrite Hnb. reflexivity.
Qed.

Lemma Mji_eq n A idx j :
  has_shape n n A -> length idx = (j + 1)%nat -> Forall (index_of n) idx ->
  Mji A idx j = inr (submatrix A (map (position n) idx)).
Proof.
  intros HA Hlen Hidx. unfold Mji.
  assert (Hnth : forall k, (k < j + 1)%nat -> index_of n (nth k idx 0%Z)).
  { intros k Hk. rewrite Forall_forall in Hidx. apply Hidx. apply nth_In. lia. }
  rewrite (@fill_matrix _
             (fun line => map (fun col => nth (position n (nth col idx 0%Z))
                                              (row A (position n (nth line idx 0%Z))) 0)
                              (seq 0 (j + 1))) (j + 1) (j + 1)).
  - apply f_equal. unfold submatrix. rewrite <- Hlen.
    rewrite <- (map_nth_seq (fun a => map (fun b => nth b (row A a) 0) (map (position n) idx))
                            0%nat (map (position n) idx)).
    rewrite length_map. apply map_ext_in. intros line Hline. apply in_seq in Hline.
    rewrite (nth_indep _ 0%nat (position n 0%Z)) by (rewrite length_map; lia).
    rewrite map_nth.
    rewrite <- (map_nth_seq (fun b => nth b (row A (position n (nth line idx 0%Z))) 0)
                            0%nat (map (position n) idx)).
    rewrite length_map. apply map_ext_in. intros col Hcol. apply in_seq in Hcol.
    rewrite (nth_indep _ 0%nat (position n 0%Z)) by (rewrite length_map; lia).
    rewrite map_nth. reflexivity.
  - apply has_shape_full.
  - intros line. rewrite length_map, length_seq. reflexivity.
  - intros line M' Hline HM'.
    apply fill_row.
    + destruct HM'. lia.
    + apply (has_shape_row HM'). exact Hline.
    + intros col M'' Hcol _ _.
      rewrite getitem_nat by lia. cbn [bind].
      rewrite getitem_nat by lia. cbn [bind].
      rewrite (getitem2_ok HA) by (apply Hnth; lia). reflexivity.
Qed.

Lemma nth_map_seq (T : Type) (f : nat -> T) len a d :
  (a < len)%nat -> nth a (map f (seq 0 len)) d = f a.
Proof.
  intros Ha. rewrite (nth_indep _ d (f 0%nat)) by (rewrite length_map, length_seq; exact Ha).
  rewrite map_nth, seq_nth by exact Ha. reflexivity.
Qed.

Lemma nth_map_lt (T U : Type) (f : T -> U) l a d d' :
  (a < length l)%nat -> nth a (map f l) d = f (nth a l d').
Proof.
  intros Ha. rewrite (nth_indep _ d (f d')) by (rewrite length_map; exact Ha).
  apply map_nth.
Qed.

Section Dispersion.

Variables (e : env) (m n : nat).
Hypothesis HX : valid_dataset (X e) m n.

Lemma Xscaled_shape : has_shape m n (Xscaled e).
Proof.
  destruct HX as (_ & [Hlen Hrows] & _). unfold Xscaled. split.
  - rewrite length_map. exact Hlen.
  - apply Forall_map. eapply Forall_impl; [| exact Hrows].
    intros r Hr. cbn beta. rewrite length_map2, Hr, (length_scaling e HX). lia.
Qed.

Lemma COO_shape : has_shape n n (COO e).
Proof.
  assert (Hm : (0 < m)%nat) by (destruct HX as (_ & _ & Hm & _); exact Hm).
  unfold COO, scale, matmul. rewrite (valid_n_vars e HX).
  rewrite (has_shape_ncols Xscaled_shape Hm). split.
  - unfold transpose. rewrite !length_map, length_seq. reflexivity.
  - rewrite Forall_map, Forall_map. apply Forall_forall. intros r _.
    rewrite !length_map, length_seq. reflexivity.
Qed.

(** [COO[a, b] = (1 / n_obs) * sum_k Xscaled[k, a] * Xscaled[k, b]] *)
Lemma COO_entry a b :
  (a < n)%nat -> (b < n)%nat ->
  nth b (row (COO e) a) 0 =
    1 / INR m * dotp (column (Xscaled e) a) (column (Xscaled e) b).
Proof.
  intros Ha Hb.
  assert (Hm : (0 < m)%nat) by (destruct HX as (_ & _ & Hm & _); exact Hm).
  unfold COO, scale, matmul, row. rewrite (valid_n_vars e HX), (valid_n_obs e HX).
  rewrite (has_shape_ncols Xscaled_shape Hm).
  assert (Hlen : length (transpose n (Xscaled e)) = n)
    by (unfold transpose; rewrite length_map, length_seq; reflexivity).
  rewrite nth_map_lt with (d' := []) by (rewrite length_map, Hlen; exact Ha).
  rewrite nth_map_lt with (d' := []) by (rewrite Hlen; exact Ha).
  rewrite nth_map_lt with (d' := 0) by (rewrite length_map, length_seq; exact Hb).
  rewrite nth_map_seq by exact Hb.
  unfold transpose. rewrite nth_map_seq by exact Ha. reflexivity.
Qed.

End Dispersion.

Lemma set_rows_from_ok m n A i v :
  has_shape m n A -> (0 < m)%nat -> length v = n ->
  set_rows_from A i v = inr (firstn i A ++ map (fun _ => v) (skipn i A)).
Proof.
  intros HA Hm Hv. unfold set_rows_from.
  rewrite (has_shape_ncols HA Hm), broadcast_row_same by exact Hv. reflexivity.
Qed.

Lemma row_set_rows_from (A : list (list R)) i v :
  (i < length A)%nat -> row (firstn i A ++ map (fun _ => v) (skipn i A)) i = v.
Proof.
  intros Hi. unfold row.
  rewrite app_nth2 by (rewrite length_firstn; lia).
  rewrite length_firstn, Nat.min_l, Nat.sub_diag by lia.
  destruct (skipn i A) as [| r t] eqn:Hs; [| reflexivity].
  apply (f_equal (@length _)) in Hs. rewrite length_skipn in Hs. simpl in Hs. lia.
Qed.

Lemma Forall_firstn (T : Type) (P : T -> Prop) k l :
  Forall P l -> Forall P (firstn k l).
Proof.
  intros H. rewrite <- (firstn_skipn k l) in H. apply Forall_app in H. tauto.
Qed.

Lemma Forall_skipn (T : Type) (P : T -> Prop) k l :
  Forall P l -> Forall P (skipn k l).
Proof.
  intros H. rewrite <- (firstn_skipn k l) in H. apply Forall_app in H. tauto.
Qed.

Section LaterVariable.

Variables (e : env) (m n : nat) (st : state).
Hypothesis HX : valid_dataset (X e) m n.
Hypothesis Hst : state_ok e m n st.
Hypothesis Hj : (0 < j st < n_pc e)%nat.

(** The rows a later pass writes. *)
Let wj : list R := map (fun i => det (submatrix (COO e) (i :: previous n st))) (seq 0 n).
Let Ptj : list R := map2 Rmult (p e) wj.

Lemma length_wj : length wj = n.
Proof. unfold wj. rewrite length_map, length_seq. reflexivity. Qed.

Lemma length_Ptj : length Ptj = n.
Proof. unfold Ptj. rewrite length_map2, (length_p e HX), length_wj. lia. Qed.

Lemma weights_loop :
  for_range (seq 0 (n_vars (X e)))
    (fun i w' =>
       M <- Mji (COO e) (Z.of_nat i :: firstn (j st) (maxPIndex st)) (j st) ;;
       setitem2 w' (j st) i (det M)) (w st)
  = inr (replace_nth (j st) wj (w st)).
Proof.
  destruct Hst as (HPt & Hw & Hs & HC & HSt & HmI & HmC & Hidx).
  rewrite (valid_n_vars e HX).
  apply fill_row.
  - destruct Hw. lia.
  - apply (has_shape_row Hw). lia.
  - intros i M' Hi _ _.
    rewrite (@Mji_eq n).
    + cbn [bind map]. rewrite position_nat. reflexivity.
    + apply (COO_shape e HX).
    + cbn [length]. rewrite length_firstn. lia.
    + constructor; [apply index_of_nat; exact Hi |].
      apply Forall_firstn. exact Hidx.
Qed.

Lemma scorej_eq :
  scorej e st =
    inr (set_maxPCoordinate
           (replace_nth (j st) (nth (np_argmax Ptj) (get_x_data (X e)) 0) (maxPCoordinate st))
           (set_maxPIndex (replace_nth (j st) (Z.of_nat (np_argmax Ptj)) (maxPIndex st))
              (set_Pt (firstn (j st) (Pt st) ++ map (fun _ => Ptj) (skipn (j st) (Pt st)))
                 (set_s (replace_nth (j st) (map2 Rmult (sigma (X e)) wj) (s st))
                    (set_w (replace_nth (j st) wj (w st)) st))))).
Proof.
  pose proof weights_loop as Hloop.
  destruct Hst as (HPt & Hw & Hs & HC & HSt & HmI & HmC & Hidx).
  assert (Hn : (0 < n)%nat) by (destruct HX as (_ & _ & _ & Hn & _); exact Hn).
  assert (Hpc : (0 < n_pc e)%nat) by lia.
  assert (Hws : length (map2 Rmult (sigma (X e)) wj) = n)
    by (rewrite length_map2, (length_sigma e HX), length_wj; lia).
  assert (Hk : (np_argmax Ptj < n)%nat).
  { destruct (@np_argmax_first_max Ptj) as (Hk & _).
    - intros Hnil. pose proof length_Ptj as Hl. rewrite Hnil in Hl. simpl in Hl. lia.
    - rewrite length_Ptj in Hk. exact Hk. }
  unfold scorej. rewrite Hloop. cbn [bind].
  rewrite get_row_ok by (rewrite length_replace_nth; destruct Hw; lia). cbn [bind].
  rewrite row_replace_nth_eq by (destruct Hw; lia).
  erewrite set_rows_from_ok; [| exact HPt | exact Hpc | exact length_Ptj]. cbn [bind].
  erewrite set_row_ok; [| exact Hs | lia | exact Hws]. cbn [bind].
  rewrite get_row_ok
    by (rewrite length_app, length_firstn, length_map, length_skipn; destruct HPt; lia).
  cbn [bind].
  rewrite row_set_rows_from by (destruct HPt; lia).
  rewrite (setitem_nat (maxPIndex st)) by lia. cbn [bind].
  rewrite getitem_nat by (rewrite (length_get_x_data e HX); exact Hk). cbn [bind].
  rewrite (setitem_nat (maxPCoordinate st)) by lia. cbn [bind].
  reflexivity.
Qed.

End LaterVariable.

(** ** Figures of merit *)

Lemma column_length (A : list (list R)) k : length (column A k) = length A.
Proof. unfold column. apply length_map. Qed.

Lemma set_column_ok m c A k v :
  has_shape m c A -> (0 < m)%nat -> (k < c)%nat -> length v = m ->
  set_column A k v = inr (map2 (fun r y => replace_nth k y r) A v).
Proof.
  intros HA Hm Hk Hv. unfold set_column.
  rewrite (has_shape_ncols HA Hm).
  destruct (Nat.ltb_spec k c); [| lia].
  destruct HA as [Hlen _]. rewrite broadcast_row_same by lia. reflexivity.
Qed.

Lemma set_column_shape m c A k v A' :
  has_shape m c A -> set_column A k v = inr A' -> has_shape m c A'.
Proof.
  intros [Hlen Hrows]. unfold set_column.
  destruct (k <? ncols A)%nat; [| discriminate].
  intros H. bind_inv H v' Hv'. inversion H. subst A'.
  apply broadcast_row_length in Hv'. split.
  - rewrite length_map2. lia.
  - unfold map2. apply Forall_map. apply Forall_forall. intros [r y] Hin.
    cbn [fst snd]. rewrite length_replace_nth.
    apply in_combine_l in Hin. rewrite Forall_forall in Hrows. apply Hrows. exact Hin.
Qed.


Lemma get_column_ok m n A k :
  has_shape m n A -> (0 < m)%nat -> index_of n k ->
  get_column A k = inr (column A (position n k)).
Proof.
  intros HA Hm Hk. unfold get_column. rewrite (has_shape_ncols HA Hm).
  destruct (norm_index_position Hk) as [-> _]. reflexivity.
Qed.

Lemma set_rows_ok r n A k B :
  has_shape r n A -> (0 < r)%nat -> (k <= r)%nat -> has_shape k n B ->
  set_rows A k B = inr (B ++ skipn k A).
Proof.
  intros HA Hr Hk HB. unfold set_rows.
  rewrite (has_shape_ncols HA Hr). destruct HA as [Hlen _].
  rewrite Hlen, Nat.min_l by lia. rewrite (broadcast_to_same HB). reflexivity.
Qed.

Lemma set_rows_shape r n A k B A' :
  has_shape r n A -> (0 < r)%nat -> set_rows A k B = inr A' -> has_shape r n A'.
Proof.
  intros HA Hr. unfold set_rows. rewrite (has_shape_ncols HA Hr).
  intros H. bind_inv H B' HB'. inversion H. subst A'.
  apply broadcast_to_shape in HB'. destruct HA as [Hlen Hrows], HB' as [HlenB HrowsB].
  split.
  - rewrite length_app, length_skipn. lia.
  - apply Forall_app. split; [assumption | apply Forall_skipn; assumption].
Qed.

Lemma has_shape_map_firstn (T : Type) m c k (A : list (list T)) :
  has_shape m c A -> (k <= c)%nat -> has_shape m k (map (firstn k) A).
Proof.
  intros [Hlen Hrows] Hk. split.
  - rewrite length_map. exact Hlen.
  - apply Forall_map. eapply Forall_impl; [| exact Hrows].
    intros r Hr. cbn beta in *. rewrite length_firstn. lia.
Qed.



Section Merit.

Context {E : Extern}.
Variables (X : Simplisma.NDDataset) (maxPIndex : list Z) (C St : list (list R)).
Variables (j m n npc : nat).
Hypothesis HE : lstsq_shaped E.
Hypothesis HX : has_shape m n (Simplisma.data X).
Hypothesis Hm : (0 < m)%nat.
Hypothesis HC : has_shape m npc C.
Hypothesis HSt : has_shape npc n St.
Hypothesis Hj : (j < npc)%nat.
Hypothesis Hlen : length maxPIndex = npc.
Hypothesis Hidx : index_of n (nth j maxPIndex 0%Z).

(** The column written into [C], and the solution written into [St]. *)
Let C' : list (list R) :=
  map2 (fun r y => replace_nth j y r) C
       (column (Simplisma.data X) (position n (nth j maxPIndex 0%Z))).
Let B : list (list R) := lstsq (map (firstn (j + 1)) C') (Simplisma.data X).

Lemma merit_C_shape : has_shape m npc C'.
Proof.
  eapply set_column_shape; [exact HC |].
  eapply set_column_ok; [exact HC | exact Hm | exact Hj |].
  rewrite column_length. destruct HX. assumption.
Qed.

Lemma merit_B_shape : has_shape (j + 1) n B.
Proof.
  eapply HE; [exact Hm | | exact HX].
  apply has_shape_map_firstn with (c := npc); [exact merit_C_shape | lia].
Qed.

Lemma merit_St_shape : has_shape npc n (B ++ skipn (j + 1) St).
Proof.
  destruct merit_B_shape as [HlenB HrowsB], HSt as [HlenS HrowsS]. split.
  - rewrite length_app, length_skipn. lia.
  - apply Forall_app. split; [exact HrowsB | apply Forall_skipn; exact HrowsS].
Qed.

Lemma figures_of_merit_eq :
  figures_of_merit X maxPIndex C St j =
    inr (C', B ++ skipn (j + 1) St,
         1 - norm (msub (matmul (map (firstn (j + 1)) C')
                                (firstn (j + 1) (B ++ skipn (j + 1) St)))
                        (Simplisma.data X)) ^ 2
             / norm (Simplisma.data X) ^ 2,
         np_std (flatten (msub (matmul (map (firstn (j + 1)) C')
                                       (firstn (j + 1) (B ++ skipn (j + 1) St)))
                               (Simplisma.data X)))).
Proof.
  unfold figures_of_merit.
  rewrite getitem_nat by lia. cbn [bind].
  rewrite (get_column_ok HX Hm Hidx). cbn [bind].
  erewrite set_column_ok;
    [| exact HC | exact Hm | exact Hj | rewrite column_length; destruct HX; assumption].
  cbn [bind].
  erewrite set_rows_ok; [| exact HSt | lia | lia | exact merit_B_shape]. cbn [bind].
  reflexivity.
Qed.

End Merit.


(** ** What the steps of a pass leave unchanged *)

Ltac binds H :=
  repeat (let a := fresh "a" in let Ha := fresh "Ha" in
          let H' := fresh "H" in
          apply bind_inr in H as (a & Ha & H'); rename H' into H).

Lemma setitem_length (T : Type) (l l' : list T) k y :
  setitem l k y = inr l' -> length l' = length l.
Proof.
  intros H. apply setitem_inr in H as [_ ->]. apply length_replace_nth.
Qed.

Lemma setitem_nat_lt (T : Type) (l l' : list T) i y :
  setitem l (Z.of_nat i) y = inr l' -> (i < length l)%nat.
Proof.
  intros H. apply setitem_inr in H as [Hk _]. unfold index_of in Hk. lia.
Qed.

Lemma score_frame e st st1 :
  score e st = inr st1 ->
  j st1 = j st /\ finished st1 = finished st /\ C st1 = C st /\ St st1 = St st /\
  logs st1 = logs st /\ console st1 = console st /\ stdin st1 = stdin st /\
  prev_stdev_res st1 = prev_stdev_res st /\
  (j st < length (maxPIndex st1))%nat /\ (j st < length (maxPCoordinate st1))%nat.
Proof.
  unfold score, score0, scorej. intros H.
  destruct (j st =? 0)%nat; binds H; inversion H; subst st1; state_simpl;
    repeat (split; [reflexivity |]);
    match goal with
    | H1 : setitem (maxPIndex st) _ _ = inr ?l1,
      H2 : setitem (maxPCoordinate st) _ _ = inr ?l2 |- _ =>
        assert (Hl1 : length l1 = length (maxPIndex st))
          by (eapply setitem_length; exact H1);
        assert (Hl2 : length l2 = length (maxPCoordinate st))
          by (eapply setitem_length; exact H2);
        apply setitem_nat_lt in H1; apply setitem_nat_lt in H2;
        rewrite Hl1, Hl2; split; assumption
    end.
Qed.

Lemma merit_frame {E : Extern} e st1 st2 rsquare stdev_res :
  merit e st1 = inr (st2, rsquare, stdev_res) ->
  exists C' St', st2 = set_St St' (set_C C' st1).
Proof.
  unfold merit. intros H. binds H. destruct a as [[[C' St'] r] sd].
  inversion H. eauto.
Qed.

Lemma summary_ok st rsquare stdev_res :
  (j st < length (maxPIndex st))%nat -> (j st < length (maxPCoordinate st))%nat ->
  summary st rsquare stdev_res =
    inr (IterSummary (j st + 1) (nth (j st) (maxPIndex st) 0%Z)
           (nth (j st) (maxPCoordinate st) 0) stdev_res rsquare).
Proof.
  intros H1 H2. unfold summary.
  rewrite getitem_nat by exact H1. cbn [bind].
  rewrite getitem_nat by exact H2. reflexivity.
Qed.

(** ** A pass of a batch run *)

Lemma body_batch {E : Extern} e st st1 st2 rsquare stdev_res :
  interactive e = false ->
  score e st = inr st1 -> merit e st1 = inr (st2, rsquare, stdev_res) ->
  exists st', body e st = inr st' /\ batch_step e st st2 rsquare stdev_res st'.
Proof.
  intros Hint Hscore Hmerit.
  destruct (score_frame _ _ Hscore) as (Hj & Hfin & HC & HSt & Hlogs & Hcons & Hin & _ & HlI & HlC).
  destruct (merit_frame _ _ Hmerit) as (C' & St' & Hst2).
  assert (Hsum : summary st2 rsquare stdev_res =
                 inr (IterSummary (j st + 1) (nth (j st) (maxPIndex st2) 0%Z)
                        (nth (j st) (maxPCoordinate st2) 0) stdev_res rsquare)).
  { assert (Hj2 : j st2 = j st) by (subst st2; state_simpl; exact Hj).
    rewrite <- Hj2. apply summary_ok; rewrite Hj2; subst st2; state_simpl; assumption. }
  assert (Hj2 : j st2 = j st) by (subst st2; state_simpl; exact Hj).
  unfold body. unfold score in Hscore.
  destruct (Nat.eqb_spec (j st) 0) as [Hz | Hnz].
  - (* first variable *)
    assert (Htol : tol_fires e st rsquare = false)
      by (unfold tol_fires; rewrite Hz; reflexivity).
    unfold iteration0. rewrite Hscore. cbn [bind]. rewrite Hmerit. cbn [bind].
    rewrite Hsum. cbn [bind]. rewrite Hint, orb_false_r.
    destruct (j st + 1 =? n_pc e)%nat eqn:Hmax; destruct (verbose e) eqn:Hv;
      cbn [bind ret negb andb orb]; state_simpl; rewrite Hj2, Hmax;
      cbn [bind ret negb andb orb]; state_simpl;
      (eexists; split; [reflexivity |]);
      constructor; state_simpl;
      rewrite ?Hj2, ?Htol, ?Hmax, ?Hv, ?orb_false_r, ?orb_true_r, ?app_nil_r;
      try reflexivity; subst st2; state_simpl;
      rewrite ?Hlogs, ?Hcons, ?Hfin, ?Hin, <- ?app_assoc; reflexivity.
  - (* later variables *)
    assert (Htol : tol_fires e st rsquare =
                   if Rlt_dec (1 - rsquare) (tol e / 100) then true else false).
    { unfold tol_fires. destruct (Nat.ltb_spec 0 (j st)); [reflexivity | lia]. }
    unfold iterationj. rewrite Hscore. cbn [bind]. rewrite Hmerit. cbn [bind].
    assert (Hsum' : summary (set_prev_stdev_res stdev_res st2) rsquare stdev_res =
                    summary st2 rsquare stdev_res) by reflexivity.
    rewrite Hsum', Hsum. cbn [bind]. rewrite Hint, orb_false_r.
    destruct (Rlt_dec (1 - rsquare) (tol e / 100));
      destruct (j st + 1 =? n_pc e)%nat eqn:Hmax; destruct (verbose e) eqn:Hv;
      cbn [bind ret negb andb orb]; state_simpl; rewrite ?Hj2, ?Hmax;
      cbn [bind ret negb andb orb]; state_simpl;
      (eexists; split; [reflexivity |]);
      constructor; state_simpl;
      rewrite ?Hj2, ?Htol, ?Hmax, ?Hv, ?orb_false_r, ?orb_true_r, ?app_nil_r;
      try reflexivity; subst st2; state_simpl;
      rewrite ?Hlogs, ?Hcons, ?Hfin, ?Hin, <- ?app_assoc; reflexivity.
Qed.

(** ** The scores of a pass, and what a batch run keeps of them *)

Lemma body_batch_inv {E : Extern} e st st' :
  interactive e = false -> body e st = inr st' ->
  exists st1 st2 rsquare stdev_res,
    score e st = inr st1 /\ merit e st1 = inr (st2, rsquare, stdev_res) /\
    batch_step e st st2 rsquare stdev_res st'.
Proof.
  intros Hint Hbody. pose proof Hbody as Hb. unfold body in Hb.
  apply bind_inr in Hb as (sti & Hiter & _).
  assert (Hsm : exists st1 st2 r sd,
             score e st = inr st1 /\ merit e st1 = inr (st2, r, sd)).
  { unfold score. destruct (j st =? 0)%nat.
    - unfold iteration0 in Hiter.
      apply bind_inr in Hiter as (st1 & Hscore & H1).
      apply bind_inr in H1 as ([[st2 r] sd] & Hmerit & _). eauto 6.
    - unfold iterationj in Hiter.
      apply bind_inr in Hiter as (st1 & Hscore & H1).
      apply bind_inr in H1 as ([[st2 r] sd] & Hmerit & _). eauto 6. }
  destruct Hsm as (st1 & st2 & r & sd & Hscore & Hmerit).
  destruct (@body_batch E e st st1 st2 r sd Hint Hscore Hmerit) as (st'' & Hbody' & Hstep).
  rewrite Hbody in Hbody'. inversion Hbody'. subst st''.
  exists st1, st2, r, sd. split; [exact Hscore | split; [exact Hmerit | exact Hstep]].
Qed.

Lemma row_firstn (T : Type) (A : list (list T)) i k :
  (i < k)%nat -> row (firstn k A) i = row A i.
Proof.
  intros Hi. unfold row. rewrite nth_firstn.
  destruct (Nat.ltb_spec i k); [reflexivity | lia].
Qed.



Lemma has_shape_set_rows_from (T : Type) m n (A : list (list T)) i v :
  has_shape m n A -> length v = n ->
  has_shape m n (firstn i A ++ map (fun _ => v) (skipn i A)).
Proof.
  intros [Hlen Hrows] Hv. split.
  - rewrite length_app, length_firstn, length_map, length_skipn. lia.
  - apply Forall_app. split; [apply Forall_firstn; exact Hrows |].
    apply Forall_map. apply Forall_forall. intros r _. exact Hv.
Qed.

Lemma has_shape_firstn (T : Type) m n k (A : list (list T)) :
  has_shape m n A -> (k <= m)%nat -> has_shape k n (firstn k A).
Proof.
  intros [Hlen Hrows] Hk. split.
  - rewrite length_firstn. lia.
  - apply Forall_firstn. exact Hrows.
Qed.

Lemma np_argmax_lt v n : length v = n -> (0 < n)%nat -> (np_argmax v < n)%nat.
Proof.
  intros Hv Hn. destruct (@np_argmax_first_max v) as (Hk & _).
  - intros Hnil. rewrite Hnil in Hv. simpl in Hv. lia.
  - rewrite Hv in Hk. exact Hk.
Qed.

Ltac split_state_ok :=
  unfold state_ok; state_simpl;
  refine (conj _ (conj _ (conj _ (conj _ (conj _ (conj _ (conj _ _))))))).

Lemma score_ok e m n st :
  valid_dataset (X e) m n -> state_ok e m n st -> (j st < n_pc e)%nat ->
  exists st1, score e st = inr st1 /\ state_ok e m n st1.
Proof.
  intros HX Hst Hj. unfold score.
  assert (Hn : (0 < n)%nat) by (destruct HX as (_ & _ & _ & Hn & _); exact Hn).
  destruct (Nat.eqb_spec (j st) 0) as [Hz | Hnz].
  - rewrite (score0_eq HX Hst) by lia. eexists. split; [reflexivity |].
    destruct Hst as (HPt & Hw & Hs & HC & HSt & HmI & HmC & Hidx).
    assert (Hw0 : length (map2 (fun l d => l ^ 2 / d) (lamda e) (scaling e)) = n)
      by (rewrite length_map2, (length_lamda e HX), (length_scaling e HX); lia).
    assert (HPt0 : length (map2 Rmult (p e)
                     (map2 (fun l d => l ^ 2 / d) (lamda e) (scaling e))) = n)
      by (rewrite length_map2, (length_p e HX), Hw0; lia).
    split_state_ok; try assumption.
    + apply has_shape_replace_nth; assumption.
    + apply has_shape_replace_nth; assumption.
    + apply has_shape_replace_nth; [assumption |].
      rewrite length_map2, (length_sigma e HX), Hw0. lia.
    + rewrite length_replace_nth. assumption.
    + rewrite length_replace_nth. assumption.
    + apply Forall_replace_nth; [assumption |]. apply index_of_nat.
      apply np_argmax_lt; assumption.
  - rewrite (scorej_eq HX Hst) by lia. eexists. split; [reflexivity |].
    destruct Hst as (HPt & Hw & Hs & HC & HSt & HmI & HmC & Hidx).
    assert (Hwj : length (map (fun i => det (submatrix (COO e) (i :: previous n st)))
                              (seq 0 n)) = n)
      by (rewrite length_map, length_seq; reflexivity).
    assert (HPtj : length (map2 Rmult (p e)
                     (map (fun i => det (submatrix (COO e) (i :: previous n st)))
                          (seq 0 n))) = n)
      by (rewrite length_map2, (length_p e HX), Hwj; lia).
    split_state_ok; try assumption.
    + apply has_shape_set_rows_from; assumption.
    + apply has_shape_replace_nth; assumption.
    + apply has_shape_replace_nth; [assumption |].
      rewrite length_map2, (length_sigma e HX), Hwj. lia.
    + rewrite length_replace_nth. assumption.
    + rewrite length_replace_nth. assumption.
    + apply Forall_replace_nth; [assumption |]. apply index_of_nat.
      apply np_argmax_lt; assumption.
Qed.

Lemma merit_ok {E : Extern} e m n st1 :
  lstsq_shaped E -> valid_dataset (X e) m n -> state_ok e m n st1 ->
  (j st1 < n_pc e)%nat ->
  exists st2 rsquare stdev_res,
    merit e st1 = inr (st2, rsquare, stdev_res) /\ state_ok e m n st2.
Proof.
  intros HE HX Hst Hj.
  destruct Hst as (HPt & Hw & Hs & HC & HSt & HmI & HmC & Hidx).
  destruct HX as (Hshape & Hdata & Hm & Hn & Hx).
  assert (Hk : index_of n (nth (j st1) (maxPIndex st1) 0%Z)).
  { rewrite Forall_forall in Hidx. apply Hidx. apply nth_In. lia. }
  unfold merit.
  rewrite figures_of_merit_eq with (m := m) (n := n) (npc := n_pc e); try assumption.
  cbn [bind]. do 3 eexists. split; [reflexivity |].
  split_state_ok; try assumption.
  - eapply merit_C_shape; eassumption.
  - eapply merit_St_shape; eassumption.
Qed.

Lemma batch_pass {E : Extern} e m n st :
  lstsq_shaped E -> valid_dataset (X e) m n -> interactive e = false ->
  state_ok e m n st -> (j st < n_pc e)%nat ->
  exists st2 rsquare stdev_res st',
    pass_merit e st = inr (st2, rsquare, stdev_res) /\ state_ok e m n st2 /\
    body e st = inr st' /\ batch_step e st st2 rsquare stdev_res st'.
Proof.
  intros HE HX Hint Hst Hj.
  destruct (score_ok HX Hst Hj) as (st1 & Hscore & Hst1).
  destruct (score_frame _ _ Hscore) as (Hj1 & _).
  destruct (merit_ok HE HX Hst1) as (st2 & r & sd & Hmerit & Hst2); [lia |].
  destruct (body_batch _ _ Hint Hscore Hmerit) as (st' & Hbody & Hstep).
  exists st2, r, sd, st'. unfold pass_merit. rewrite Hscore. cbn [bind].
  split; [exact Hmerit |]. split; [exact Hst2 |]. split; assumption.
Qed.

(** ** The loop of a batch run *)

Ltac step_facts H :=
  pose proof (step_j H) as Sj; pose proof (step_finished H) as Sfin;
  pose proof (step_logs H) as Slogs; pose proof (step_console H) as Scons;
  pose proof (step_Pt H) as SPt; pose proof (step_St H) as SSt;
  pose proof (step_s H) as Ss; pose proof (step_C H) as SC;
  pose proof (step_w H) as Sw; pose proof (step_maxPIndex H) as SmI;
  pose proof (step_maxPCoordinate H) as SmC; pose proof (step_stdin H) as Sin.

Lemma state_ok_step e m n st st2 rsquare stdev_res st' :
  state_ok e m n st2 -> batch_step e st st2 rsquare stdev_res st' ->
  tol_fires e st rsquare = false -> state_ok e m n st'.
Proof.
  intros (HPt & Hw & Hs & HC & HSt & HmI & HmC & Hidx) Hstep Htol.
  step_facts Hstep. rewrite Htol in *.
  unfold state_ok. rewrite SPt, Sw, Ss, SC, SSt, SmI, SmC.
  repeat (split; [assumption |]). assumption.
Qed.

Lemma while_finished {E : Extern} fuel e st :
  finished st = true -> while_not_finished fuel e st = inr (Some st).
Proof. intros H. destruct fuel; simpl; rewrite H; reflexivity. Qed.

Lemma while_step {E : Extern} fuel e st st' :
  finished st = false -> body e st = inr st' ->
  while_not_finished (S fuel) e st = while_not_finished fuel e st'.
Proof. intros Hf Hb. simpl. rewrite Hf, Hb. reflexivity. Qed.

Lemma while_no_fuel {E : Extern} e st :
  finished st = false -> while_not_finished 0 e st = inr None.
Proof. intros Hf. simpl. rewrite Hf. reflexivity. Qed.

Section BatchRun.

Context {E : Extern}.
Variables (e : env) (m n : nat).
Hypothesis HE : lstsq_shaped E.
Hypothesis HX : valid_dataset (X e) m n.
Hypothesis Hint : interactive e = false.

Lemma batch_run : forall d st,
  state_ok e m n st -> finished st = false -> (j st + S d = n_pc e)%nat ->
  exists st' tail,
    (j st < j st' <= n_pc e)%nat /\ finished st' = true /\
    (forall fuel, (j st' - j st <= fuel)%nat ->
                  while_not_finished fuel e st = inr (Some st')) /\
    (forall fuel, (fuel < j st' - j st)%nat ->
                  while_not_finished fuel e st = inr None) /\
    has_shape (j st') n (Pt st') /\ has_shape (j st') n (s st') /\
    has_shape m (j st') (C st') /\ has_shape (j st') n (St st') /\
    logs st' = logs st ++ tail /\
    length (filter is_summary tail) = (j st' - j st)%nat /\
    Forall (fun en => is_summary en = true \/ is_end_message en = true) tail /\
    ((forall t, ~ In (TolReached t) tail) ->
     j st' = n_pc e /\ In (MaxReached (n_pc e)) tail).
Proof.
  induction d as [| d IH]; intros st Hst Hfin Hd.
  - (* the last pass allowed *)
    destruct (batch_pass HE HX Hint Hst) as (st2 & r & sd & st' & _ & Hst2 & Hbody & Hstep);
      [lia |].
    step_facts Hstep.
    assert (Hmax : (j st + 1 =? n_pc e)%nat = true) by (apply Nat.eqb_eq; lia).
    rewrite Hmax in *. rewrite Hfin, orb_true_r in Sfin.
    destruct Hst2 as (HPt & Hw & Hs & HC & HSt & HmI & HmC & Hidx).
    eexists st', _. split; [lia |]. split; [exact Sfin |].
    split; [| split].
    + intros [| fuel] Hfuel; [lia |].
      erewrite while_step; [| exact Hfin | exact Hbody]. apply while_finished. exact Sfin.
    + intros fuel Hfuel. assert (fuel = 0%nat) as -> by lia.
      apply while_no_fuel. exact Hfin.
    + rewrite SPt, Ss, SC, SSt, Sj.
      replace (j st + 1)%nat with (n_pc e) by lia.
      refine (conj _ (conj _ (conj _ (conj _ (conj Slogs (conj _ (conj _ _))))))).
      * destruct (tol_fires e st r); [apply has_shape_firstn with (m := n_pc e) |];
          try assumption; lia.
      * destruct (tol_fires e st r); [apply has_shape_firstn with (m := n_pc e) |];
          try assumption; lia.
      * destruct (tol_fires e st r);
          [apply has_shape_map_firstn with (c := n_pc e) |]; try assumption; lia.
      * destruct (tol_fires e st r); [apply has_shape_firstn with (m := n_pc e) |];
          try assumption; lia.
      * cbn [filter is_summary]. rewrite filter_app.
        destruct (tol_fires e st r); cbn [filter is_summary app length]; lia.
      * constructor; [left; reflexivity |].
        apply Forall_app. split.
        -- destruct (tol_fires e st r);
             [constructor; [right; reflexivity | constructor] | constructor].
        -- constructor; [right; reflexivity | constructor].
      * intros _. split; [reflexivity |].
        right. apply in_or_app. right. left. reflexivity.
  - (* a pass that may be followed by others *)
    destruct (batch_pass HE HX Hint Hst) as (st2 & r & sd & st1 & _ & Hst2 & Hbody & Hstep);
      [lia |].
    step_facts Hstep.
    assert (Hmax : (j st + 1 =? n_pc e)%nat = false) by (apply Nat.eqb_neq; lia).
    rewrite Hmax in *. rewrite Hfin, orb_false_r in Sfin.
    cbn [orb] in Sfin. rewrite app_nil_r in Slogs.
    destruct (tol_fires e st r) eqn:Htol.
    + (* the tolerance criterion ends the run *)
      destruct Hst2 as (HPt & Hw & Hs & HC & HSt & HmI & HmC & Hidx).
      eexists st1, _. split; [lia |]. split; [exact Sfin |].
      split; [| split].
      * intros [| fuel] Hfuel; [lia |].
        erewrite while_step; [| exact Hfin | exact Hbody]. apply while_finished. exact Sfin.
      * intros fuel Hfuel. assert (fuel = 0%nat) as -> by lia.
        apply while_no_fuel. exact Hfin.
      * rewrite SPt, Ss, SC, SSt, Sj.
        refine (conj _ (conj _ (conj _ (conj _ (conj Slogs (conj _ (conj _ _))))))).
        -- apply has_shape_firstn with (m := n_pc e); [assumption | lia].
        -- apply has_shape_firstn with (m := n_pc e); [assumption | lia].
        -- apply has_shape_map_firstn with (c := n_pc e); [assumption | lia].
        -- apply has_shape_firstn with (m := n_pc e); [assumption | lia].
        -- cbn [filter is_summary app length]. lia.
        -- constructor; [left; reflexivity |].
           constructor; [right; reflexivity | constructor].
        -- intros Hno. exfalso. apply (Hno (tol e)). right. left. reflexivity.
    + (* the run goes on *)
      assert (Hst1 : state_ok e m n st1) by (eapply state_ok_step; eassumption).
      destruct (IH st1 Hst1 Sfin) as
        (st' & tail & Hjs & Hf' & Hsome & Hnone & HPt' & Hs' & HC' & HSt' & Hlogs & Hcount
         & Hall & Hend); [lia |].
      eexists st', _. split; [lia |]. split; [exact Hf' |].
      split; [| split].
      * intros [| fuel] Hfuel; [lia |].
        erewrite while_step; [| exact Hfin | exact Hbody]. apply Hsome. lia.
      * intros [| fuel] Hfuel; [apply while_no_fuel; exact Hfin |].
        erewrite while_step; [| exact Hfin | exact Hbody]. apply Hnone. lia.
      * split; [exact HPt' |]. split; [exact Hs' |]. split; [exact HC' |].
        split; [exact HSt' |].
        split; [rewrite Hlogs, Slogs, <- app_assoc; reflexivity |].
        split; [| split].
        -- cbn [app filter is_summary length]. rewrite Hcount. lia.
        -- constructor; [left; reflexivity | exact Hall].
        -- intros Hno. destruct Hend as [Hj' Hin].
           ++ intros t Ht. apply (Hno t). right. exact Ht.
           ++ split; [exact Hj' | right; exact Hin].
Qed.

End BatchRun.

(** ** The run as a whole *)

Lemma init_state_ok e m n inp :
  valid_dataset (X e) m n -> state_ok e m n (init_state e inp).
Proof.
  intros HX. pose proof (valid_n_vars e HX) as Hv. pose proof (valid_n_obs e HX) as Ho.
  destruct HX as (_ & _ & _ & Hn & _).
  unfold state_ok, init_state. cbn [Pt w s C St maxPIndex maxPCoordinate].
  rewrite Hv, Ho. unfold zeros.
  repeat (split; [apply has_shape_full |]).
  split; [apply repeat_length |]. split; [apply repeat_length |].
  apply Forall_forall. intros k Hk. apply repeat_spec in Hk. subst k.
  unfold index_of. lia.
Qed.

Lemma check_data_valid X m n :
  valid_dataset X m n ->
  exists y, np_min (flatten (Simplisma.data X)) = inr y /\
            check_data X = inr (if Rlt_dec y 0 then [NegativeValues] else []).
Proof.
  intros (Hs & [Hlen Hrows] & Hm & Hn & _).
  destruct (Simplisma.data X) as [| r t] eqn:Hd; [simpl in Hlen; lia |].
  apply Forall_inv in Hrows.
  destruct r as [| y r]; [simpl in Hrows; lia |].
  exists (min_from y (r ++ concat t)). split.
  - unfold flatten. reflexivity.
  - unfold check_data. rewrite Hs, Hd. reflexivity.
Qed.

Lemma matmul_shape P Q : has_shape (length P) (ncols Q) (matmul P Q).
Proof.
  unfold matmul. split; [apply length_map |].
  apply Forall_map. apply Forall_forall. intros r _.
  rewrite length_map, length_seq. reflexivity.
Qed.

Lemma lstsq_normal_shaped : lstsq_shaped batch.
Proof.
  intros m k n A B Hm HA HB. cbn [lstsq batch]. unfold lstsq_normal.
  pose proof (matmul_shape
                (matmul (inverse (matmul (transpose (ncols A) A) A)) (transpose (ncols A) A))
                B) as Hs.
  rewrite (has_shape_ncols HB Hm) in Hs.
  replace k with (length (matmul (inverse (matmul (transpose (ncols A) A) A))
                                 (transpose (ncols A) A))); [exact Hs |].
  unfold matmul at 1. rewrite length_map. unfold inverse, scale, adjugate.
  rewrite !length_map, length_seq. unfold matmul. rewrite length_map.
  unfold transpose. rewrite length_map, length_seq.
  apply (has_shape_ncols HA Hm).
Qed.

(** C5.  A batch run on a valid 2-D dataset, with a solver that returns one
    row per component, ends: the loop makes a number of passes that is at
    most [n_pc] and returns the object (with less fuel than passes the loop
    is still running); one variable is selected per pass, so [C] has that
    many columns, [St] that many rows and the log that many summary lines;
    and when the tolerance criterion has not fired the passes are exactly
    [n_pc] and the log ends with the message of the maximum reached. *)
Theorem batch_run_terminates {E : Extern} (X : Simplisma.NDDataset) (kw : kwargs)
  (inp : list string) (m n : nat) (z : Z) :
  lstsq_shaped E -> valid_dataset X m n ->
  get (kw_interactive kw) false = false ->
  get (kw_n_pc kw) (PyInt 2) = PyInt z -> (2 <= z)%Z ->
  exists warnings o passes,
    (1 <= passes <= Z.to_nat z)%nat /\
    (forall fuel, (passes <= fuel)%nat ->
                  SIMPLISMA X kw inp fuel = (warnings, inr (Some o))) /\
    (forall fuel, (fuel < passes)%nat ->
                  SIMPLISMA X kw inp fuel = (warnings, inr None)) /\
    has_shape m passes (_C o) /\ has_shape passes n (_St o) /\
    length (filter is_summary (_log o)) = passes /\
    ((forall t, ~ In (TolReached t) (_log o)) ->
     passes = Z.to_nat z /\ In (MaxReached (Z.to_nat z)) (_log o)).
Proof.
  intros HE HX Hint Hv Hz.
  destruct (check_data_valid HX) as (y & _ & Hcheck).
  pose proof (configure_valid X kw Hv Hz) as Hconf. rewrite Hint in Hconf.
  set (e := mkEnv X false (get (kw_verbose kw) true) (get (kw_tol kw) (1 / 10))
                  (get (kw_noise kw) 3) (Z.to_nat z)) in *.
  assert (HXe : valid_dataset (Simplisma.X e) m n) by exact HX.
  destruct (@batch_run E e m n HE HXe eq_refl (Z.to_nat z - 1) (init_state e inp))
    as (st' & tail & Hj & Hfin & Hsome & Hnone & _ & _ & HC & HSt & Hlogs & Hcount & _ & Hend).
  - apply init_state_ok. exact HXe.
  - reflexivity.
  - cbn [j init_state n_pc e]. lia.
  - cbn [j init_state] in *. rewrite Nat.sub_0_r in *. cbn [n_pc e] in *.
    exists (if Rlt_dec y 0 then [NegativeValues] else []), (finish e st'), (j st').
    split; [lia |].
    split; [| split; [| split; [exact HC | split; [exact HSt | split]]]].
    + intros fuel Hfuel. unfold SIMPLISMA. rewrite Hcheck, Hconf. cbn [bind].
      rewrite (Hsome fuel Hfuel). reflexivity.
    + intros fuel Hfuel. unfold SIMPLISMA. rewrite Hcheck, Hconf. cbn [bind].
      rewrite (Hnone fuel Hfuel). reflexivity.
    + cbn [_log finish]. rewrite Hlogs. cbn [logs app filter is_summary]. exact Hcount.
    + cbn [_log finish]. rewrite Hlogs. cbn [logs app]. intros Hno.
      destruct Hend as [Hj' Hin].
      * intros t Ht. apply (Hno t). right. exact Ht.
      * split; [exact Hj' | right; exact Hin].
Qed.

(** ** The tolerance criterion *)

Ltac run_eval :=
  cbv -[sqrt Rabs Rmax Rmin INR pow IZR Rplus Rmult Rminus Rdiv Ropp Rinv
        Rlt_dec Rle_dec Rlt Rle Rgt Rge].

Tactic Notation "run_eval" "in" hyp(H) :=
  cbv -[sqrt Rabs Rmax Rmin INR pow IZR Rplus Rmult Rminus Rdiv Ropp Rinv
        Rlt_dec Rle_dec Rlt Rle Rgt Rge] in H.

(** C4 (amended).  In a batch run, a pass with [j > 0] whose figures of merit
    satisfy [(1 - rsquare) < tol / 100] ends the run: [finished] is set, the
    loop returns, [j] is the number of accepted components and [Pt], [St],
    [s], [C] are sliced to it.  In the pass with [j = 0] the criterion is not
    tested: whatever the figures of merit, the run goes on to the second
    variable with its containers untouched. *)
Theorem tol_ends_batch_run {E : Extern} (e : env) (st st2 : state) (rsquare stdev_res : R) :
  interactive e = false -> finished st = false ->
  pass_merit e st = inr (st2, rsquare, stdev_res) ->
  exists st',
    body e st = inr st' /\ j st' = (j st + 1)%nat /\
    ((0 < j st)%nat -> 1 - rsquare < tol e / 100 ->
     finished st' = true /\
     (forall fuel, while_not_finished fuel e st' = inr (Some st')) /\
     Pt st' = firstn (j st') (Pt st2) /\ St st' = firstn (j st') (St st2) /\
     s st' = firstn (j st') (s st2) /\ C st' = map (firstn (j st')) (C st2) /\
     In (TolReached (tol e)) (logs st')) /\
    (j st = 0%nat -> (1 < n_pc e)%nat ->
     finished st' = false /\
     Pt st' = Pt st2 /\ St st' = St st2 /\ s st' = s st2 /\ C st' = C st2 /\
     forall t, In (TolReached t) (logs st') -> In (TolReached t) (logs st)).
Proof.
  intros Hint Hfin Hpass. unfold pass_merit in Hpass.
  apply bind_inr in Hpass as (st1 & Hscore & Hmerit).
  destruct (body_batch _ _ Hint Hscore Hmerit) as (st' & Hbody & Hstep).
  step_facts Hstep. exists st'. split; [exact Hbody |]. split; [exact Sj |]. split.
  - intros Hj Htol.
    assert (Hfires : tol_fires e st rsquare = true).
    { unfold tol_fires. destruct (Nat.ltb_spec 0 (j st)); [| lia].
      destruct (Rlt_dec (1 - rsquare) (tol e / 100)); [reflexivity | contradiction]. }
    rewrite Hfires in *. rewrite orb_true_r in Sfin. cbn [orb] in Sfin.
    split; [exact Sfin |]. split; [intros fuel; apply while_finished; exact Sfin |].
    rewrite Sj, SPt, SSt, Ss, SC, Slogs. repeat (split; [reflexivity |]).
    apply in_or_app. right. right. left. reflexivity.
  - intros Hj Hpc.
    assert (Hfires : tol_fires e st rsquare = false)
      by (unfold tol_fires; rewrite Hj; reflexivity).
    assert (Hmax : (j st + 1 =? n_pc e)%nat = false) by (apply Nat.eqb_neq; lia).
    rewrite Hfires, Hmax in *. rewrite Hfin in Sfin.
    split; [exact Sfin |].
    rewrite SPt, SSt, Ss, SC, Slogs. repeat (split; [reflexivity |]).
    intros t Ht. apply in_app_or in Ht as [Ht | Ht]; [exact Ht |].
    destruct Ht as [Ht | Ht]; [discriminate | destruct Ht].
Qed.

Lemma valid_one_variable : valid_dataset X_one_variable 2 1.
Proof.
  unfold valid_dataset, has_shape, X_one_variable. cbn [shape Simplisma.data x].
  split; [reflexivity |]. split.
  - split; [reflexivity | repeat constructor].
  - split; [lia |]. split; [lia |]. intros c Hc. discriminate.
Qed.

(** The first pass of the run on [X_one_variable] fits the data exactly. *)
Lemma one_variable_first_merit st2 rsquare stdev_res :
  @pass_merit batch e_one_variable (init_state e_one_variable []) =
    inr (st2, rsquare, stdev_res) ->
  rsquare = 1.
Proof.
  run_eval. intros H. inversion H. clear.
  repeat match goal with
         | |- context [Rabs ?y] =>
             tryif constr_eq y 0 then fail else replace y with 0 by field
         end.
  rewrite Rabs_R0.
  replace (0 * (0 * 1) + (0 * (0 * 1) + 0)) with 0 by ring.
  rewrite sqrt_0. unfold Rdiv. ring.
Qed.

(** C4, as stated, fails in the first pass: on two observations of one
    variable the first component already leaves no unexplained variance
    ([1 - rsquare = 0 < tol / 100]), and the run goes on. *)
Lemma tol_met_in_first_pass_run_goes_on :
  exists st2 rsquare stdev_res st',
    @pass_merit batch e_one_variable (init_state e_one_variable []) =
      inr (st2, rsquare, stdev_res) /\
    1 - rsquare < tol e_one_variable / 100 /\
    @body batch e_one_variable (init_state e_one_variable []) = inr st' /\
    finished st' = false /\ j st' = 1%nat.
Proof.
  destruct (@batch_pass batch e_one_variable 2 1 (init_state e_one_variable []))
    as (st2 & r & sd & st' & Hpass & _ & Hbody & Hstep).
  - exact lstsq_normal_shaped.
  - exact valid_one_variable.
  - reflexivity.
  - apply init_state_ok. exact valid_one_variable.
  - cbn. lia.
  - exists st2, r, sd, st'. split; [exact Hpass |].
    rewrite (one_variable_first_merit Hpass).
    split; [cbn [tol e_one_variable]; lra |]. split; [exact Hbody |].
    rewrite (step_finished Hstep), (step_j Hstep). split; reflexivity.
Qed.

(** *** A run that the criterion ends

    On [X_two_variables] the first pass selects variable 0 and the second
    variable 1; the two components explain all the variance. *)

Lemma valid_two_variables : valid_dataset X_two_variables 2 2.
Proof.
  unfold valid_dataset, has_shape, X_two_variables. cbn [shape Simplisma.data x].
  split; [reflexivity |]. split.
  - split; [reflexivity | repeat constructor].
  - split; [lia |]. split; [lia |]. intros c Hc. discriminate.
Qed.

Lemma mu_two_variables : mu X_two_variables = [1 / 2; 1 / 2].
Proof.
  run_eval. simpl INR. apply f_equal2; [field |]. apply f_equal2; [field | reflexivity].
Qed.

Lemma sigma_two_variables : sigma X_two_variables = [1 / 2; 1 / 2].
Proof.
  run_eval. simpl INR. rewrite !pow2_abs.
  apply f_equal2; [| apply f_equal2; [| reflexivity]];
    apply sqrt_lem_1; lra.
Qed.

Lemma alpha_two_variables : alpha e_two_variables = 3 / 200.
Proof.
  unfold alpha. cbn [X noise e_two_variables]. rewrite mu_two_variables.
  unfold np_max, max_from. rewrite Rmax_left by lra. field.
Qed.

Lemma argmax_pair_ge a b : b <= a -> np_argmax [a; b] = 0%nat.
Proof.
  intros H. unfold np_argmax, argmax_from.
  destruct (Rlt_dec a b); [lra | reflexivity].
Qed.

Lemma argmax_pair_lt a b : a < b -> np_argmax [a; b] = 1%nat.
Proof.
  intros H. unfold np_argmax, argmax_from.
  destruct (Rlt_dec a b); [reflexivity | lra].
Qed.

(** The first pass of the run on [X_two_variables] selects variable 0. *)
Lemma two_variables_first_pass :
  @body batch e_two_variables (init_state e_two_variables []) = inr st_two_after_first /\
  state_ok e_two_variables 2 2 st_two_after_first /\
  j st_two_after_first = 1%nat /\ finished st_two_after_first = false /\
  maxPIndex st_two_after_first = [0; 0; 0]%Z /\
  C st_two_after_first = [[1; 0; 0]; [0; 0; 0]].
Proof.
  pose proof (init_state_ok e_two_variables [] valid_two_variables) as Hinit.
  destruct (@batch_pass batch e_two_variables 2 2 (init_state e_two_variables []))
    as (st2 & r & sd & st' & Hpass & Hst2 & Hbody & Hstep).
  - exact lstsq_normal_shaped.
  - exact valid_two_variables.
  - reflexivity.
  - exact Hinit.
  - cbn. lia.
  - assert (Htol : tol_fires e_two_variables (init_state e_two_variables []) r = false)
      by reflexivity.
    unfold st_two_after_first. rewrite Hbody. split; [reflexivity |].
    split; [exact (state_ok_step Hst2 Hstep Htol) |].
    rewrite (step_j Hstep), (step_finished Hstep), (step_maxPIndex Hstep), (step_C Hstep), Htol.
    split; [reflexivity |]. split; [reflexivity |].
    unfold pass_merit, score in Hpass. cbn [j init_state Nat.eqb] in Hpass.
    rewrite (@score0_eq e_two_variables 2 2 _ valid_two_variables Hinit) in Hpass
      by (cbn; lia || reflexivity).
    cbn [bind] in Hpass.
    assert (Harg : np_argmax (map2 Rmult (p e_two_variables)
                     (map2 (fun l d => l ^ 2 / d) (lamda e_two_variables)
                        (scaling e_two_variables))) = 0%nat).
    { unfold p, lamda, scaling. cbn [X e_two_variables].
      rewrite mu_two_variables, sigma_two_variables.
      cbv [map2 combine map fst snd]. apply argmax_pair_ge. apply Rle_refl. }
    rewrite Harg in Hpass. clear Harg.
    set (w0 := map2 (fun l d => l ^ 2 / d) (lamda e_two_variables)
                 (scaling e_two_variables)) in Hpass.
    set (p0 := p e_two_variables) in Hpass.
    set (s0 := sigma (X e_two_variables)) in Hpass.
    clearbody w0 p0 s0.
    run_eval in Hpass. injection Hpass as Hst2' _ _. subst st2.
    split; reflexivity.
Qed.


Lemma scaling_two_variables :
  scaling e_two_variables =
    [(1 / 2) ^ 2 + (1 / 2 + 3 / 200) ^ 2; (1 / 2) ^ 2 + (1 / 2 + 3 / 200) ^ 2].
Proof.
  unfold scaling. rewrite alpha_two_variables. cbn [X e_two_variables].
  rewrite mu_two_variables, sigma_two_variables. reflexivity.
Qed.

Lemma p_two_variables :
  p e_two_variables = [1 / 2 / (1 / 2 + 3 / 200); 1 / 2 / (1 / 2 + 3 / 200)].
Proof.
  unfold p. rewrite alpha_two_variables. cbn [X e_two_variables].
  rewrite mu_two_variables, sigma_two_variables. reflexivity.
Qed.

(** With variable 0 selected, the second pass selects variable 1, and the two
    components fit the data exactly. *)
Lemma two_variables_second_merit st st2 rsquare stdev_res :
  state_ok e_two_variables 2 2 st -> j st = 1%nat ->
  maxPIndex st = [0; 0; 0]%Z -> C st = [[1; 0; 0]; [0; 0; 0]] ->
  @pass_merit batch e_two_variables st = inr (st2, rsquare, stdev_res) ->
  rsquare = 1.
Proof.
  intros Hst Hj HmI HC Hpass. unfold pass_merit, score in Hpass.
  rewrite Hj in Hpass. cbn [Nat.eqb] in Hpass.
  rewrite (@scorej_eq e_two_variables 2 2 st valid_two_variables Hst) in Hpass
    by (rewrite Hj; cbn; lia).
  cbn [bind] in Hpass.
  assert (Harg : np_argmax (map2 Rmult (p e_two_variables)
                   (map (fun i => det (submatrix (COO e_two_variables) (i :: previous 2 st)))
                      (seq 0 2))) = 1%nat).
  { unfold previous. rewrite Hj, HmI. cbn [firstn map seq position Z.ltb Z.compare Z.to_nat].
    unfold submatrix, det. cbn [map length det_n seq remove_nth nth vsum fold_right].
    rewrite !(COO_entry e_two_variables valid_two_variables) by lia.
    unfold Xscaled. rewrite scaling_two_variables, p_two_variables.
    cbn [X e_two_variables X_two_variables Simplisma.data].
    cbv [map2 combine map fst snd column nth dotp vsum fold_right].
    apply argmax_pair_lt. simpl INR. unfold Rdiv.
    assert (Hk : 0 < / sqrt ((1 * / 2) ^ 2 + (1 * / 2 + 3 * / 200) ^ 2))
      by (apply Rinv_0_lt_compat, sqrt_lt_R0; lra).
    set (k := / sqrt ((1 * / 2) ^ 2 + (1 * / 2 + 3 * / 200) ^ 2)) in *.
    assert (Hk2 : 0 < k * k) by (apply Rmult_lt_0_compat; exact Hk).
    assert (Hk4 : 0 < (k * k) * (k * k)) by (apply Rmult_lt_0_compat; exact Hk2).
    match goal with |- ?a < ?b =>
      replace a with 0 by field; replace b with (25 / 103 * ((k * k) * (k * k))) by field
    end.
    lra. }
  rewrite Harg in Hpass. clear Harg.
  unfold merit in Hpass. state_simpl. rewrite Hj, HmI, HC in Hpass.
  apply bind_inr in Hpass as ([[[C' St'] r] sd] & Hfom & Hret).
  injection Hret as _ Hr _. subst r.
  destruct Hst as (_ & _ & _ & _ & HSt & _).
  rewrite (@figures_of_merit_eq batch (X e_two_variables) _ _ (St st) 1 2 2 3) in Hfom.
  2: exact lstsq_normal_shaped.
  2: split; [reflexivity | repeat constructor].
  2: lia.
  2: split; [reflexivity | repeat constructor].
  2: exact HSt.
  2: lia.
  2: reflexivity.
  2: cbn; unfold index_of; lia.
  injection Hfom as _ _ Hr _. rewrite <- Hr. clear.
  run_eval.
  repeat match goal with
         | |- context [Rabs ?y] =>
             tryif constr_eq y 0 then fail else replace y with 0 by field
         end.
  rewrite Rabs_R0.
  replace (0 ^ 2 + (0 ^ 2 + (0 ^ 2 + (0 ^ 2 + 0)))) with 0 by ring.
  rewrite sqrt_0. unfold Rdiv. ring.
Qed.

(** The second pass of the run on [X_two_variables] meets the tolerance
    criterion. *)
Lemma two_variables_second_pass :
  exists st2 rsquare stdev_res,
    @pass_merit batch e_two_variables st_two_after_first = inr (st2, rsquare, stdev_res) /\
    1 - rsquare < tol e_two_variables / 100.
Proof.
  destruct two_variables_first_pass as (_ & Hst & Hj & _ & HmI & HC).
  destruct (@batch_pass batch e_two_variables 2 2 st_two_after_first)
    as (st2 & r & sd & _ & Hpass & _).
  - exact lstsq_normal_shaped.
  - exact valid_two_variables.
  - reflexivity.
  - exact Hst.
  - rewrite Hj. cbn. lia.
  - exists st2, r, sd. split; [exact Hpass |].
    rewrite (two_variables_second_merit Hst Hj HmI HC Hpass).
    cbn [tol e_two_variables]. lra.
Qed.

(** ** Re-selection of a variable *)


Lemma no_negative_one_variable : ~ Rmin 1 2 < 0.
Proof. unfold Rmin. destruct (Rle_dec 1 2); lra. Qed.

(** The batch run on [X_one_variable]: no warning, and a log made of the
    header, two summary lines for index 0 and end messages. *)
Lemma one_variable_run :
  exists o c1 sd1 r1 c2 sd2 r2 ends,
    @SIMPLISMA batch X_one_variable no_kwargs [] 2 = ([], inr (Some o)) /\
    _log o = Header false 3 (1 / 10) 2 :: IterSummary 1 0 c1 sd1 r1
               :: IterSummary 2 0 c2 sd2 r2 :: ends /\
    Forall (fun en => is_end_message en = true) ends.
Proof.
  run_eval.
  destruct (Rlt_dec (Rmin 1 2) 0) as [Hneg | _];
    [exfalso; exact (no_negative_one_variable Hneg) |].
  match goal with |- context [Rlt_dec ?a ?b] => destruct (Rlt_dec a b) end;
    do 8 eexists; (split; [reflexivity |]); (split; [reflexivity |]);
    repeat constructor.
Qed.


(** ** The dimensions of the containers, in every mode *)

Lemma set_rows_from_shape m n A i v A' :
  has_shape m n A -> set_rows_from A i v = inr A' -> has_shape m n A'.
Proof.
  intros HA. unfold set_rows_from. intros H.
  apply bind_inr in H as (v' & Hv' & H'). inversion H'. subst A'.
  apply broadcast_row_length in Hv'.
  destruct A as [| r t].
  - destruct i; simpl; exact HA.
  - apply has_shape_set_rows_from; [exact HA |].
    rewrite Hv'. apply has_shape_ncols with (m := m); [exact HA |].
    destruct HA as [Hlen _]. simpl in Hlen. lia.
Qed.

Lemma has_shape_map_firstn_min (T : Type) m c k (A : list (list T)) :
  has_shape m c A -> has_shape m (Nat.min k c) (map (firstn k) A).
Proof.
  intros [Hlen Hrows]. split.
  - rewrite length_map. exact Hlen.
  - apply Forall_map. eapply Forall_impl; [| exact Hrows].
    intros r Hr. cbn beta in *. rewrite length_firstn, Hr. reflexivity.
Qed.

Lemma has_shape_firstn_min (T : Type) m n k (A : list (list T)) :
  has_shape m n A -> has_shape (Nat.min k m) n (firstn k A).
Proof.
  intros [Hlen Hrows]. split.
  - rewrite length_firstn, Hlen. reflexivity.
  - apply Forall_firstn. exact Hrows.
Qed.

Lemma shapes_same npc m n st st' :
  same_containers st st' -> shapes npc m n st -> shapes npc m n st'.
Proof.
  intros (HPt & Hs & HC & HSt) (k & Hk & H). exists k.
  rewrite HPt, Hs, HC, HSt. split; assumption.
Qed.

Lemma shapes_truncate npc m n st :
  (0 < j st)%nat -> shapes npc m n st -> shapes npc m n (truncate st).
Proof.
  intros Hj (k & Hk & HPt & Hs & HC & HSt).
  exists (Nat.min (j st) k). split; [lia |]. unfold truncate. state_simpl.
  split; [apply has_shape_firstn_min; exact HPt |].
  split; [apply has_shape_firstn_min; exact Hs |].
  split; [apply has_shape_map_firstn_min; exact HC |].
  apply has_shape_firstn_min; exact HSt.
Qed.

Section AnyMode.

Context {E : Extern}.
Variables (e : env) (m n : nat).

Lemma score_shapes st st1 :
  score e st = inr st1 -> shapes (n_pc e) m n st ->
  shapes (n_pc e) m n st1 /\ j st1 = j st.
Proof.
  intros H (k & Hk & HPt & Hs & HC & HSt).
  destruct (score_frame _ _ H) as (Hj & _ & HC1 & HSt1 & _).
  split; [| exact Hj]. exists k. split; [exact Hk |]. rewrite HC1, HSt1.
  unfold score, score0, scorej in H.
  destruct (j st =? 0)%nat; binds H; inversion H; subst st1; state_simpl.
  - split; [eapply set_row_shape; [exact HPt | eassumption] |].
    split; [eapply set_row_shape; [exact Hs | eassumption] |].
    split; assumption.
  - split; [eapply set_rows_from_shape; [exact HPt | eassumption] |].
    split; [eapply set_row_shape; [exact Hs | eassumption] |].
    split; assumption.
Qed.

Lemma merit_shapes st st2 rsquare stdev_res :
  merit e st = inr (st2, rsquare, stdev_res) -> shapes (n_pc e) m n st ->
  shapes (n_pc e) m n st2 /\ j st2 = j st.
Proof.
  intros H (k & Hk & HPt & Hs & HC & HSt).
  unfold merit, figures_of_merit in H.
  apply bind_inr in H as ([[[C' St'] r] sd] & Hfom & H'). inversion H'. subst.
  binds Hfom. inversion Hfom. subst. state_simpl.
  split; [| reflexivity]. exists k. split; [exact Hk |]. state_simpl.
  split; [exact HPt |]. split; [exact Hs |].
  split; [eapply set_column_shape; [exact HC | eassumption] |].
  eapply set_rows_shape; [exact HSt | lia | eassumption].
Qed.

Lemma change_same new st st' :
  change e new st = inr st' -> same_containers st st' /\ j st' = j st.
Proof.
  unfold change, same_containers. intros H.
  destruct (py_int new); [| destruct (py_float new)];
    try (binds H); inversion H; subst st'; state_simpl; repeat split; reflexivity.
Qed.

Lemma change_loop_shapes first : forall k inp ans st r sd ans' inp' st' r' sd',
  (length inp <= k)%nat ->
  change_loop e first inp ans st r sd = inr (ans', inp', st', r', sd') ->
  shapes (n_pc e) m n st -> shapes (n_pc e) m n st' /\ j st' = j st.
Proof.
  induction k as [| k IH]; intros inp ans st r sd ans' inp' st' r' sd' Hlen H Hst.
  - destruct inp; [| simpl in Hlen; lia]. simpl in H.
    destruct (if first then negb (lower ans =? "a")%string else (lower ans =? "c")%string);
      [discriminate |].
    inversion H. subst. split; [exact Hst | reflexivity].
  - destruct inp as [| new [| ans1 inp2]]; simpl in H;
      destruct (if first then negb (lower ans =? "a")%string else (lower ans =? "c")%string);
      try discriminate; try (inversion H; subst; split; [exact Hst | reflexivity]).
    + binds H. destruct a0 as [[st2 r2] sd2]. binds H. discriminate.
    + binds H. destruct a0 as [[st2 r2] sd2]. binds H.
      destruct (change_same _ _ Ha) as [Hsame Hj1].
      pose proof (shapes_same Hsame Hst) as Hst1.
      destruct (merit_shapes Ha0 Hst1) as [Hst2 Hj2].
      apply IH in H.
      * destruct H as [Hst' Hj']. split; [exact Hst' |].
        rewrite Hj'. state_simpl. congruence.
      * simpl in Hlen. lia.
      * eapply shapes_same; [| exact Hst2]. unfold same_containers. state_simpl.
        repeat split; reflexivity.
Qed.

End AnyMode.

Ltac same_shapes H :=
  eapply shapes_same; [| exact H]; unfold same_containers; state_simpl;
  repeat split; reflexivity.

Section AnyModePass.

Context {E : Extern}.
Variables (e : env) (m n : nat).

Lemma iteration0_shapes st st' :
  (j st =? 0)%nat = true ->
  iteration0 e st = inr st' -> shapes (n_pc e) m n st -> shapes (n_pc e) m n st'.
Proof.
  intros Hz H Hst. unfold iteration0 in H.
  apply bind_inr in H as (st1 & Hscore & H1).
  apply bind_inr in H1 as ([[st2 r0] sd0] & Hmerit & H2).
  apply bind_inr in H2 as (llog & _ & H3).
  apply bind_inr in H3 as ([st4 sd4] & Hi & H4).
  inversion H4. subst st'. clear H4.
  assert (Hscore' : score e st = inr st1) by (unfold score; rewrite Hz; exact Hscore).
  eapply score_shapes in Hscore' as [Hst1 _]; [| exact Hst].
  eapply merit_shapes in Hmerit as [Hst2 _]; [| exact Hst1].
  assert (Hst3 : shapes (n_pc e) m n
                   (if verbose e || interactive e
                    then emit [llog] (log [llog] st2) else log [llog] st2))
    by (destruct (verbose e || interactive e); same_shapes Hst2).
  assert (Hst4 : shapes (n_pc e) m n st4).
  { destruct (interactive e).
    - apply bind_inr in Hi as ([ans inp] & _ & Hi2).
      apply bind_inr in Hi2 as ([[[[ans' inp'] st3] r3] sd3] & Hloop & Hi3).
      inversion Hi3. subst.
      apply change_loop_shapes with (m := m) (n := n) (k := length inp) in Hloop;
        [| lia | exact Hst3].
      destruct Hloop as [Hst3' _]. same_shapes Hst3'.
    - inversion Hi. subst. same_shapes Hst3. }
  same_shapes Hst4.
Qed.

Lemma iterationj_shapes st st' :
  (j st =? 0)%nat = false ->
  iterationj e st = inr st' -> shapes (n_pc e) m n st -> shapes (n_pc e) m n st'.
Proof.
  intros Hz H Hst. unfold iterationj in H.
  apply bind_inr in H as (st1 & Hscore & H1).
  apply bind_inr in H1 as ([[st2 rj] sdj] & Hmerit & H2).
  apply bind_inr in H2 as (llog & _ & H3).
  assert (Hscore' : score e st = inr st1) by (unfold score; rewrite Hz; exact Hscore).
  eapply score_shapes in Hscore' as [Hst1 _]; [| exact Hst].
  eapply merit_shapes in Hmerit as [Hst2 _]; [| exact Hst1].
  assert (Hst3 : shapes (n_pc e) m n
                   (if verbose e || interactive e
                    then emit [llog] (log [llog] (set_prev_stdev_res sdj st2))
                    else log [llog] (set_prev_stdev_res sdj st2)))
    by (destruct (verbose e || interactive e); same_shapes Hst2).
  destruct (interactive e).
  - apply bind_inr in H3 as ([ans inp] & _ & H4).
    apply bind_inr in H4 as ([[[[ans' inp'] st3] r3] sd3] & Hloop & H5).
    apply change_loop_shapes with (m := m) (n := n) (k := length inp) in Hloop;
      [| lia | exact Hst3].
    destruct Hloop as [Hst3' _].
    destruct (lower ans' =? "r")%string.
    + binds H5. inversion H5. subst. same_shapes Hst3'.
    + destruct (lower ans' =? "a")%string.
      * inversion H5. subst. same_shapes Hst3'.
      * destruct (lower ans' =? "f")%string.
        -- inversion H5. subst. apply shapes_truncate.
           ++ state_simpl. lia.
           ++ same_shapes Hst3'.
        -- inversion H5. subst. same_shapes Hst3'.
  - destruct (Rlt_dec (1 - rj) (tol e / 100)).
    + inversion H3. subst.
      eapply shapes_same with
        (st := truncate (log [TolReached (tol e)]
                 (set_j (j (if verbose e || false
                            then emit [llog] (log [llog] (set_prev_stdev_res sdj st2))
                            else log [llog] (set_prev_stdev_res sdj st2)) + 1)
                    (if verbose e || false
                     then emit [llog] (log [llog] (set_prev_stdev_res sdj st2))
                     else log [llog] (set_prev_stdev_res sdj st2))))).
      * unfold same_containers. state_simpl. repeat split; reflexivity.
      * apply shapes_truncate.
        -- state_simpl. lia.
        -- same_shapes Hst3.
    + inversion H3. subst. same_shapes Hst3.
Qed.

Lemma body_shapes st st' :
  body e st = inr st' -> shapes (n_pc e) m n st -> shapes (n_pc e) m n st'.
Proof.
  intros H Hst. unfold body in H.
  apply bind_inr in H as (st1 & Hiter & H1).
  assert (Hst1 : shapes (n_pc e) m n st1).
  { destruct (j st =? 0)%nat eqn:Hz.
    - eapply iteration0_shapes; eassumption.
    - eapply iterationj_shapes; eassumption. }
  destruct (j st1 =? n_pc e)%nat; [destruct (negb (interactive e)) |];
    inversion H1; subst; exact Hst1.
Qed.

Lemma while_shapes : forall fuel st st',
  while_not_finished fuel e st = inr (Some st') ->
  shapes (n_pc e) m n st -> shapes (n_pc e) m n st'.
Proof.
  induction fuel as [| fuel IH]; intros st st' H Hst; simpl in H.
  - destruct (finished st); inversion H. subst. exact Hst.
  - destruct (finished st); [inversion H; subst; exact Hst |].
    apply bind_inr in H as (st1 & Hbody & H1).
    eapply IH; [exact H1 |]. eapply body_shapes; eassumption.
Qed.

End AnyModePass.

Lemma configure_inr X kw e :
  configure X kw = inr e -> Simplisma.X e = X /\ (2 <= n_pc e)%nat.
Proof.
  unfold configure. intros H.
  apply bind_inr in H as (small & Hsmall & H1).
  destruct (small || negb (isinstance_int (get (kw_n_pc kw) (PyInt 2)))) eqn:Hbad;
    [discriminate |].
  inversion H1. subst e. cbn [Simplisma.X n_pc]. split; [reflexivity |].
  apply orb_false_elim in Hbad as [Hs Hi]. subst small.
  destruct (get (kw_interactive kw) false); [cbn; lia |].
  destruct (get (kw_n_pc kw) (PyInt 2)) as [z | r | b | t |];
    simpl in Hsmall, Hi; try discriminate.
  inversion Hsmall as [Hz]. destruct (Z.ltb_spec z 2); [discriminate |]. cbn. lia.
Qed.

Lemma init_state_shapes e m n inp :
  valid_dataset (X e) m n -> (0 < n_pc e)%nat ->
  shapes (n_pc e) m n (init_state e inp).
Proof.
  intros HX Hpc. destruct (@init_state_ok e m n inp HX) as (HPt & _ & Hs & HC & HSt & _).
  exists (n_pc e). split; [lia |]. repeat (split; [assumption |]). assumption.
Qed.

(** C7.  When a run on a valid 2-D dataset of [m] observations of [n]
    variables returns, in batch or interactive mode and however it ended,
    [C] has [m] rows and every row of [St] has [n] entries: the containers
    were allocated for [n_pc] components and have been sliced, if at all, in
    the component dimension only, to some [k] with [0 < k <= n_pc]. *)
Theorem run_keeps_dimensions {E : Extern} (X : Simplisma.NDDataset) (kw : kwargs)
  (inp : list string) (fuel m n : nat) (warnings : list warning) (o : SIMPLISMA_object) :
  valid_dataset X m n ->
  SIMPLISMA X kw inp fuel = (warnings, inr (Some o)) ->
  length (_C o) = m /\
  _St o <> [] /\ Forall (fun r => length r = n) (_St o) /\
  exists e k,
    configure X kw = inr e /\ (0 < k <= n_pc e)%nat /\
    has_shape m k (_C o) /\ has_shape k n (_St o) /\
    has_shape k n (_Pt o) /\ has_shape k n (_s o).
Proof.
  intros HX H. unfold SIMPLISMA in H.
  destruct (check_data X) as [ex | ws]; [inversion H |].
  inversion H as [[Hws Hres]]. clear H.
  apply bind_inr in Hres as (e & Hconf & H1).
  apply bind_inr in H1 as (final & Hloop & H2).
  destruct final as [st' |]; [| discriminate]. inversion H2. subst o. clear H2.
  pose proof Hconf as Hconf'. apply configure_inr in Hconf' as [HXe Hpc].
  assert (HX' : valid_dataset (Simplisma.X e) m n) by (rewrite HXe; exact HX).
  assert (Hst' : shapes (n_pc e) m n st').
  { eapply while_shapes; [exact Hloop |]. apply init_state_shapes; [exact HX' | lia]. }
  destruct Hst' as (k & Hk & HPt & Hs & HC & HSt). cbn [_C _St _Pt _s finish].
  split; [destruct HC; assumption |].
  split; [intros Hnil; destruct HSt as [Hlen _]; rewrite Hnil in Hlen; simpl in Hlen; lia |].
  split; [destruct HSt; assumption |].
  exists e, k. repeat (split; [assumption |]). assumption.
Qed.

(** ** What a batch run keeps from pass to pass *)

Lemma inr_eq (A B : Type) (a b : B) : @inr A B a = inr b -> a = b.
Proof. congruence. Qed.

Section PassFacts.

Variables (e : env) (m n : nat) (st : state).
Hypothesis HX : valid_dataset (X e) m n.
Hypothesis Hst : state_ok e m n st.
Hypothesis Hj : (j st < n_pc e)%nat.

(** The scoring step, in either branch: the weights [wj] of the pass go to
    row [j] of [w], [sigma * wj] to row [j] of [s] and [p * wj] to row [j]
    of [Pt]; the rows before [j] are not touched; the variable selected is
    the first at which [p * wj] is largest. *)
Lemma score_facts :
  exists st1 wj,
    score e st = inr st1 /\ state_ok e m n st1 /\ length wj = n /\
    w st1 = replace_nth (j st) wj (w st) /\
    s st1 = replace_nth (j st) (map2 Rmult (sigma (X e)) wj) (s st) /\
    row (Pt st1) (j st) = map2 Rmult (p e) wj /\
    (forall k, (k < j st)%nat -> row (Pt st1) k = row (Pt st) k) /\
    (np_argmax (map2 Rmult (p e) wj) < n)%nat /\
    maxPIndex st1 =
      replace_nth (j st) (Z.of_nat (np_argmax (map2 Rmult (p e) wj))) (maxPIndex st) /\
    maxPCoordinate st1 =
      replace_nth (j st) (nth (np_argmax (map2 Rmult (p e) wj)) (get_x_data (X e)) 0)
                  (maxPCoordinate st).
Proof.
  destruct (score_ok HX Hst Hj) as (st1 & Hscore & Hst1).
  assert (Hn : (0 < n)%nat) by (destruct HX as (_ & _ & _ & Hn & _); exact Hn).
  pose proof Hscore as Hscore'. unfold score in Hscore'.
  destruct Hst as (HPt & Hw & Hs & HC & HSt & HmI & HmC & Hidx).
  destruct (Nat.eqb_spec (j st) 0) as [Hz | Hnz].
  - pose proof (score0_eq HX Hst ltac:(lia) Hz) as Heq0.
    rewrite Heq0 in Hscore'. apply inr_eq in Hscore'. symmetry in Hscore'.
    rename Hscore' into Heq. clear Heq0.
    exists st1, (map2 (fun l d => l ^ 2 / d) (lamda e) (scaling e)).
    assert (Hw0 : length (map2 (fun l d => l ^ 2 / d) (lamda e) (scaling e)) = n)
      by (rewrite length_map2, (length_lamda e HX), (length_scaling e HX); lia).
    split; [exact Hscore |]. split; [exact Hst1 |]. split; [exact Hw0 |].
    rewrite Heq, Hz. state_simpl.
    split; [reflexivity |]. split; [reflexivity |].
    split; [apply row_replace_nth_eq; destruct HPt; lia |].
    split; [intros k Hk; lia |].
    split; [apply np_argmax_lt; [rewrite length_map2, (length_p e HX), Hw0; lia | exact Hn] |].
    split; reflexivity.
  - pose proof (scorej_eq HX Hst ltac:(lia)) as Heqj.
    rewrite Heqj in Hscore'. apply inr_eq in Hscore'. symmetry in Hscore'.
    rename Hscore' into Heq. clear Heqj.
    exists st1, (map (fun i => det (submatrix (COO e) (i :: previous n st))) (seq 0 n)).
    assert (Hwj : length (map (fun i => det (submatrix (COO e) (i :: previous n st)))
                              (seq 0 n)) = n)
      by (rewrite length_map, length_seq; reflexivity).
    split; [exact Hscore |]. split; [exact Hst1 |]. split; [exact Hwj |].
    rewrite Heq. state_simpl.
    split; [reflexivity |]. split; [reflexivity |].
    split; [apply row_set_rows_from; destruct HPt; lia |].
    split.
    + intros k Hk. unfold row. rewrite app_nth1 by (rewrite length_firstn; destruct HPt; lia).
      rewrite nth_firstn. destruct (Nat.ltb_spec k (j st)); [reflexivity | lia].
    + split; [apply np_argmax_lt; [rewrite length_map2, (length_p e HX), Hwj; lia | exact Hn] |].
      split; reflexivity.
Qed.

End PassFacts.

(** The figures of merit of a pass: the share of the variance that the
    components selected so far explain, and the standard deviation of what
    they leave. *)
Lemma merit_facts {E : Extern} e m n st1 :
  lstsq_shaped E -> valid_dataset (X e) m n -> state_ok e m n st1 ->
  (j st1 < n_pc e)%nat ->
  exists C' St' rsquare stdev_res,
    merit e st1 = inr (set_St St' (set_C C' st1), rsquare, stdev_res) /\
    has_shape m (n_pc e) C' /\ has_shape (n_pc e) n St' /\
    rsquare =
      1 - norm (msub (matmul (map (firstn (j st1 + 1)) C') (firstn (j st1 + 1) St'))
                     (data (X e))) ^ 2 / norm (data (X e)) ^ 2 /\
    stdev_res =
      np_std (flatten (msub (matmul (map (firstn (j st1 + 1)) C') (firstn (j st1 + 1) St'))
                            (data (X e)))).
Proof.
  intros HE HX Hst Hj.
  destruct Hst as (HPt & Hw & Hs & HC & HSt & HmI & HmC & Hidx).
  destruct HX as (Hshape & Hdata & Hm & Hn & Hx).
  assert (Hk : index_of n (nth (j st1) (maxPIndex st1) 0%Z)).
  { rewrite Forall_forall in Hidx. apply Hidx. apply nth_In. lia. }
  unfold merit.
  rewrite figures_of_merit_eq with (m := m) (n := n) (npc := n_pc e); try assumption.
  cbn [bind]. do 4 eexists. split; [reflexivity |].
  split; [eapply merit_C_shape; eassumption |].
  split; [eapply merit_St_shape; eassumption |].
  split; reflexivity.
Qed.

Section BatchInvariant.

Context {E : Extern}.
Variables (e : env) (m n : nat).
Hypothesis HE : lstsq_shaped E.
Hypothesis HX : valid_dataset (X e) m n.
Hypothesis Hint : interactive e = false.

Variable Inv : state -> Prop.

(** A property that every pass of a batch run keeps holds when the run
    returns. *)
Lemma batch_run_invariant :
  (forall st st', state_ok e m n st -> finished st = false -> (j st < n_pc e)%nat ->
                  Inv st -> body e st = inr st' -> Inv st') ->
  forall fuel st st',
    state_ok e m n st -> finished st = false -> (j st < n_pc e)%nat -> Inv st ->
    while_not_finished fuel e st = inr (Some st') ->
    Inv st' /\ finished st' = true.
Proof.
  intros Hkeep. induction fuel as [| fuel IH]; intros st st' Hst Hfin Hj HI Hrun.
  - rewrite while_no_fuel in Hrun by exact Hfin. discriminate.
  - destruct (batch_pass HE HX Hint Hst Hj) as (st2 & r & sd & st1 & _ & Hst2 & Hbody & Hstep).
    erewrite while_step in Hrun; [| exact Hfin | exact Hbody].
    pose proof (Hkeep st st1 Hst Hfin Hj HI Hbody) as HI1.
    step_facts Hstep.
    destruct (finished st1) eqn:Hfin1.
    + rewrite while_finished in Hrun by exact Hfin1.
      apply inr_eq in Hrun. inversion Hrun. subst st'. split; assumption.
    + rewrite Hfin in Sfin. cbn [orb] in Sfin. symmetry in Sfin.
      apply orb_false_elim in Sfin as [Htol Hmax]. apply Nat.eqb_neq in Hmax.
      apply (IH st1 st'); try assumption.
      * eapply state_ok_step; eassumption.
      * lia.
Qed.

End BatchInvariant.

Section BatchPassFacts.

Context {E : Extern}.
Variables (e : env) (m n : nat).
Hypothesis HE : lstsq_shaped E.
Hypothesis HX : valid_dataset (X e) m n.
Hypothesis Hint : interactive e = false.

(** A pass of a batch run, from the state before it to the state after. *)
Lemma batch_pass_facts st st' :
  state_ok e m n st -> finished st = false -> (j st < n_pc e)%nat ->
  body e st = inr st' ->
  exists wj C' St' rsquare stdev_res ends,
    length wj = n /\ (np_argmax (map2 Rmult (p e) wj) < n)%nat /\
    j st' = (j st + 1)%nat /\
    finished st' = tol_fires e st rsquare || (j st + 1 =? n_pc e)%nat /\
    w st' = replace_nth (j st) wj (w st) /\
    (forall k, (k <= j st)%nat ->
               row (s st') k = row (replace_nth (j st) (map2 Rmult (sigma (X e)) wj) (s st)) k) /\
    row (Pt st') (j st) = map2 Rmult (p e) wj /\
    (forall k, (k < j st)%nat -> row (Pt st') k = row (Pt st) k) /\
    (finished st' = true -> length (Pt st') = j st' /\ length (s st') = j st') /\
    logs st' =
      logs st ++ IterSummary (j st + 1) (Z.of_nat (np_argmax (map2 Rmult (p e) wj)))
                   (nth (np_argmax (map2 Rmult (p e) wj)) (get_x_data (X e)) 0)
                   stdev_res rsquare :: ends /\
    Forall (fun en => is_end_message en = true) ends /\
    has_shape m (n_pc e) C' /\ has_shape (n_pc e) n St' /\
    C st' = (if tol_fires e st rsquare then map (firstn (j st + 1)) C' else C') /\
    St st' = (if tol_fires e st rsquare then firstn (j st + 1) St' else St') /\
    rsquare =
      1 - norm (msub (matmul (map (firstn (j st + 1)) C') (firstn (j st + 1) St'))
                     (data (X e))) ^ 2 / norm (data (X e)) ^ 2 /\
    stdev_res =
      np_std (flatten (msub (matmul (map (firstn (j st + 1)) C') (firstn (j st + 1) St'))
                            (data (X e)))).
Proof.
  intros Hst Hfin Hj Hbody.
  destruct (body_batch_inv _ _ Hint Hbody) as (st1 & st2 & r & sd & Hscore & Hmerit & Hstep).
  destruct (score_facts HX Hst Hj)
    as (st1' & wj & Hscore' & Hst1 & Hwj & Hw1 & Hs1 & HPtj & HPtk & Ha & HmI1 & HmC1).
  assert (st1' = st1) by congruence. subst st1'. clear Hscore'.
  destruct (score_frame _ _ Hscore) as (Hj1 & _).
  destruct (@merit_facts E e m n st1 HE HX Hst1 ltac:(lia))
    as (C' & St' & r' & sd' & Hmerit' & HC' & HSt' & Hr & Hsd).
  rewrite Hmerit in Hmerit'. apply inr_eq in Hmerit'.
  assert (Hst2 : st2 = set_St St' (set_C C' st1)) by congruence.
  assert (Hr' : r' = r) by congruence. assert (Hsd' : sd' = sd) by congruence.
  rewrite Hr' in Hr. rewrite Hsd' in Hsd. clear Hmerit' Hr' Hsd'. rewrite Hj1 in Hr, Hsd.
  step_facts Hstep.
  assert (HlenI : (j st < length (maxPIndex st))%nat)
    by (destruct Hst as (_ & _ & _ & _ & _ & -> & _); exact Hj).
  assert (HlenC : (j st < length (maxPCoordinate st))%nat)
    by (destruct Hst as (_ & _ & _ & _ & _ & _ & -> & _); exact Hj).
  assert (HlenPt : length (Pt st1) = n_pc e) by (destruct Hst1 as ([-> _] & _); reflexivity).
  exists wj, C', St', r, sd.
  exists ((if tol_fires e st r then [TolReached (tol e)] else [])
          ++ (if (j st + 1 =? n_pc e)%nat then [MaxReached (n_pc e)] else [])).
  split; [exact Hwj |]. split; [exact Ha |]. split; [exact Sj |].
  split; [rewrite Sfin, Hfin; reflexivity |].
  split; [rewrite Sw, Hst2; state_simpl; exact Hw1 |].
  split.
  { intros k Hk. rewrite Ss, Hst2. state_simpl. rewrite Hs1.
    destruct (tol_fires e st r); [apply row_firstn; lia | reflexivity]. }
  split.
  { rewrite SPt, Hst2. state_simpl.
    destruct (tol_fires e st r); [rewrite row_firstn by lia |]; exact HPtj. }
  split.
  { intros k Hk. rewrite SPt, Hst2. state_simpl.
    destruct (tol_fires e st r); [rewrite row_firstn by lia |]; apply HPtk; exact Hk. }
  split.
  { intros Hfin'. rewrite Sfin, Hfin in Hfin'. cbn [orb] in Hfin'.
    rewrite SPt, Ss, Sj, Hst2. state_simpl.
    destruct Hst1 as ([HlPt _] & _ & [Hls _] & _).
    destruct (tol_fires e st r).
    - rewrite !length_firstn. lia.
    - cbn [orb] in Hfin'. apply Nat.eqb_eq in Hfin'. lia. }
  split.
  { rewrite Slogs, Hst2. state_simpl. rewrite HmI1, HmC1.
    rewrite !nth_replace_nth_eq by assumption. reflexivity. }
  split.
  { apply Forall_app. split.
    - destruct (tol_fires e st r); [constructor; [reflexivity | constructor] | constructor].
    - destruct (j st + 1 =? n_pc e)%nat; [constructor; [reflexivity | constructor] | constructor]. }
  split; [exact HC' |]. split; [exact HSt' |].
  split; [rewrite SC, Hst2; state_simpl; reflexivity |].
  split; [rewrite SSt, Hst2; state_simpl; reflexivity |].
  split; assumption.
Qed.

End BatchPassFacts.

(** ** The reconstruction, the warning *)

(** X6.  [inverse_transform] of the object a run returned, in batch or
    interactive mode: the reconstruction [C . St] has the shape of the
    dataset, whatever the number of components kept. *)
Theorem inverse_transform_shape {E : Extern} (X : Simplisma.NDDataset) (kw : kwargs)
  (inp : list string) (fuel m n : nat) (warnings : list warning) (o : SIMPLISMA_object) :
  valid_dataset X m n ->
  SIMPLISMA X kw inp fuel = (warnings, inr (Some o)) ->
  has_shape m n (inverse_transform o) /\
  fst (transform o) = _C o /\ snd (transform o) = _St o /\
  ncols (_C o) = length (_St o).
Proof.
  intros HX H. unfold SIMPLISMA in H.
  destruct (check_data X) as [ex | ws]; [inversion H |].
  inversion H as [[Hws Hres]]. clear H.
  apply bind_inr in Hres as (e & Hconf & H1).
  apply bind_inr in H1 as (final & Hloop & H2).
  destruct final as [st' |]; [| discriminate]. inversion H2. subst o. clear H2.
  pose proof Hconf as Hconf'. apply configure_inr in Hconf' as [HXe Hpc].
  assert (HX' : valid_dataset (Simplisma.X e) m n) by (rewrite HXe; exact HX).
  assert (Hst' : shapes (n_pc e) m n st').
  { eapply while_shapes; [exact Hloop |]. apply init_state_shapes; [exact HX' | lia]. }
  destruct Hst' as (k & Hk & HPt & Hs & HC & HSt).
  assert (Hm : (0 < m)%nat) by (destruct HX as (_ & _ & Hm & _); exact Hm).
  unfold inverse_transform, transform. cbn [_C _St finish fst snd].
  split; [| split; [reflexivity | split; [reflexivity |]]].
  - pose proof (matmul_shape (C st') (St st')) as Hmm.
    rewrite (has_shape_ncols HSt) in Hmm by lia.
    destruct HC as [HCl _]. rewrite HCl in Hmm. exact Hmm.
  - rewrite (has_shape_ncols HC Hm). destruct HSt as [-> _]. reflexivity.
Qed.



(** ** The first weights and purities *)

Section FirstWeights.

Variables (e : env) (m n : nat) (st : state).
Hypothesis HX : valid_dataset (X e) m n.
Hypothesis Hst : state_ok e m n st.
Hypothesis Hpc : (0 < n_pc e)%nat.
Hypothesis Hj : j st = 0%nat.





End FirstWeights.

(** ** The object a batch run returns *)

Lemma configure_options X kw e :
  configure X kw = inr e ->
  interactive e = get (kw_interactive kw) false /\
  verbose e = get (kw_verbose kw) true /\
  tol e = get (kw_tol kw) (1 / 10) /\ noise e = get (kw_noise kw) 3.
Proof.
  unfold configure. intros H.
  apply bind_inr in H as (small & Hsmall & H1).
  destruct (small || negb (isinstance_int (get (kw_n_pc kw) (PyInt 2)))); [discriminate |].
  apply inr_eq in H1. subst e. repeat split.
Qed.

(** A run that returned an object: the options were accepted, and the loop
    returned the state the object is made of. *)
Lemma run_returned {E : Extern} (X : Simplisma.NDDataset) kw inp fuel warnings o :
  SIMPLISMA X kw inp fuel = (warnings, inr (Some o)) ->
  exists e st',
    configure X kw = inr e /\ Simplisma.X e = X /\ (2 <= n_pc e)%nat /\
    while_not_finished fuel e (init_state e inp) = inr (Some st') /\
    o = finish e st'.
Proof.
  intros H. unfold SIMPLISMA in H.
  destruct (check_data X) as [ex | ws]; [inversion H |].
  inversion H as [[Hws Hres]]. clear H.
  apply bind_inr in Hres as (e & Hconf & H1).
  apply bind_inr in H1 as (final & Hloop & H2).
  destruct final as [st' |]; [| discriminate]. apply inr_eq in H2.
  destruct (configure_inr _ _ Hconf) as [HXe Hpc].
  exists e, st'. repeat split; try assumption.
  inversion H2. reflexivity.
Qed.

Section BatchObject.

Context {E : Extern}.
Variables (X : Simplisma.NDDataset) (kw : kwargs) (inp : list string) (fuel m n : nat).
Variables (warnings : list warning) (o : SIMPLISMA_object).
Hypothesis HE : lstsq_shaped E.
Hypothesis HX : valid_dataset X m n.
Hypothesis Hbatch : get (kw_interactive kw) false = false.
Hypothesis Hrun : SIMPLISMA X kw inp fuel = (warnings, inr (Some o)).

(** A property of the states that the passes keep holds of the state the
    object is made of. *)
Lemma batch_object (Inv : env -> state -> Prop) :
  (forall e, Simplisma.X e = X -> Inv e (init_state e inp)) ->
  (forall e st st', Simplisma.X e = X -> interactive e = false ->
     state_ok e m n st -> finished st = false -> (j st < n_pc e)%nat ->
     Inv e st -> body e st = inr st' -> Inv e st') ->
  exists e st', configure X kw = inr e /\ Simplisma.X e = X /\ o = finish e st' /\
                finished st' = true /\ Inv e st'.
Proof.
  intros Hinit Hkeep.
  destruct (run_returned _ _ _ _ Hrun) as (e & st' & Hconf & HXe & Hpc & Hloop & Ho).
  destruct (configure_options _ _ Hconf) as (Hint & _). rewrite Hbatch in Hint.
  assert (HX' : valid_dataset (Simplisma.X e) m n) by (rewrite HXe; exact HX).
  destruct (@batch_run_invariant E e m n HE HX' Hint (Inv e)) with (fuel := fuel)
    (st := init_state e inp) (st' := st') as [HI Hfin].
  - intros st st1. apply Hkeep; assumption.
  - apply init_state_ok. exact HX'.
  - reflexivity.
  - cbn [j init_state]. lia.
  - apply Hinit. exact HXe.
  - exact Hloop.
  - exists e, st'. repeat split; assumption.
Qed.

End BatchObject.

Lemma nth_p e m n i :
  valid_dataset (X e) m n -> (i < n)%nat ->
  nth i (p e) 0 = nth i (sigma (X e)) 0 / (nth i (mu (X e)) 0 + alpha e).
Proof.
  intros HX Hi. unfold p.
  rewrite (nth_map2 _ _ _ 0 0 0)
    by (rewrite ?(length_mu e HX), ?(length_sigma e HX); exact Hi).
  reflexivity.
Qed.

(** X3.  In the object a batch run returns, the purity spectra and the standard
    deviation spectra are those of the same weights: row by row,
    [Pt[k, i] = s[k, i] / (mu_i + alpha)].  (The assignment [Pt[j:] = ...] of
    a pass also writes the rows after [j]; they are written again by the
    later passes, or sliced off.) *)
Theorem purity_and_stdev_spectra {E : Extern} (X : Simplisma.NDDataset) (kw : kwargs)
  (inp : list string) (fuel m n : nat) (warnings : list warning) (o : SIMPLISMA_object) :
  lstsq_shaped E -> valid_dataset X m n ->
  get (kw_interactive kw) false = false ->
  SIMPLISMA X kw inp fuel = (warnings, inr (Some o)) ->
  exists e,
    configure X kw = inr e /\ length (_Pt o) = length (_s o) /\
    forall k i, (k < length (_Pt o))%nat -> (i < n)%nat ->
      nth i (row (_Pt o) k) 0 =
        nth i (row (_s o) k) 0 / (nth i (mu X) 0 + alpha e).
Proof.
  intros HE HX Hbatch Hrun.
  destruct (@batch_object E X kw inp fuel m n warnings o HE HX Hbatch Hrun
              (fun e st =>
                 (finished st = true -> length (Pt st) = j st /\ length (s st) = j st) /\
                 forall k, (k < j st)%nat ->
                   length (row (w st) k) = n /\
                   row (Pt st) k = map2 Rmult (p e) (row (w st) k) /\
                   row (s st) k = map2 Rmult (sigma (Simplisma.X e)) (row (w st) k)))
    as (e & st' & Hconf & HXe & Ho & Hfin & Hlen & HI).
  - intros e HXe. split; [discriminate |]. intros k Hk. cbn [j init_state] in Hk. lia.
  - intros e st st' HXe Hint Hst Hfin Hj [_ HI] Hbody.
    assert (HX' : valid_dataset (Simplisma.X e) m n) by (rewrite HXe; exact HX).
    destruct (batch_pass_facts HE HX' Hint Hst Hfin Hj Hbody)
      as (wj & C' & St' & r & sd & ends & Hwj & _ & Hj' & _ & Hw' & Hs' & HPtj & HPtk
          & Hlen' & _).
    split; [exact Hlen' |].
    intros k Hk. rewrite Hj' in Hk. rewrite Hw', (Hs' k) by lia.
    destruct Hst as (_ & [Hlw _] & [Hls _] & _).
    destruct (Nat.eq_dec k (j st)) as [-> | Hne].
    + rewrite !row_replace_nth_eq by lia. split; [exact Hwj |]. split; [exact HPtj | reflexivity].
    + unfold row in *. rewrite !nth_replace_nth_neq by lia.
      rewrite HPtk by lia. apply HI. lia.
  - exists e. split; [exact Hconf |].
    destruct (Hlen Hfin) as [HlPt Hls]. subst o. cbn [_Pt _s finish].
    split; [lia |]. intros k i Hk Hi. rewrite HlPt in Hk.
    assert (HX' : valid_dataset (Simplisma.X e) m n) by (rewrite HXe; exact HX).
    destruct (HI k Hk) as (Hlw & HPt & Hs). rewrite HPt, Hs.
    rewrite !(nth_map2 _ _ _ 0 0 0)
      by (rewrite ?(length_p e HX'), ?(length_sigma e HX'), ?Hlw; exact Hi).
    rewrite (nth_p e HX' Hi), HXe. unfold Rdiv. ring.
Qed.

Lemma filter_summary_ends ends :
  Forall (fun en => is_end_message en = true) ends -> filter is_summary ends = [].
Proof.
  induction 1 as [| en ends Hen _ IH]; [reflexivity |].
  destruct en; try discriminate; simpl; exact IH.
Qed.

Lemma Forall_reports_ends X n ends :
  Forall (fun en => is_end_message en = true) ends -> Forall (reports_variable X n) ends.
Proof.
  intros H. eapply Forall_impl; [| exact H].
  intros en Hen. destruct en; try discriminate; exact I.
Qed.

(** X4.  The log of a batch run: its summary lines are numbered 1, 2, ... up to
    the number of components returned; each reports the index of a variable
    of the dataset (counted from 0) with the coordinate of that variable,
    which is the index itself when the dataset has no coordinates. *)
Theorem batch_log_summaries {E : Extern} (X : Simplisma.NDDataset) (kw : kwargs)
  (inp : list string) (fuel m n : nat) (warnings : list warning) (o : SIMPLISMA_object) :
  lstsq_shaped E -> valid_dataset X m n ->
  get (kw_interactive kw) false = false ->
  SIMPLISMA X kw inp fuel = (warnings, inr (Some o)) ->
  map summary_iteration (filter is_summary (_log o)) = seq 1 (length (_Pt o)) /\
  Forall (reports_variable X n) (_log o) /\
  (x X = None ->
   Forall (fun en => match en with
                     | IterSummary _ index coord _ _ => coord = IZR index
                     | _ => True
                     end) (_log o)).
Proof.
  intros HE HX Hbatch Hrun.
  destruct (@batch_object E X kw inp fuel m n warnings o HE HX Hbatch Hrun
              (fun e st =>
                 (finished st = true -> length (Pt st) = j st /\ length (s st) = j st) /\
                 map summary_iteration (filter is_summary (logs st)) = seq 1 (j st) /\
                 Forall (reports_variable X n) (logs st)))
    as (e & st' & Hconf & HXe & Ho & Hfin & Hlen & Hnum & Hall).
  - intros e HXe. split; [discriminate |]. split; [reflexivity |].
    cbn [logs init_state]. constructor; [exact I | constructor].
  - intros e st st' HXe Hint Hst Hfin Hj (_ & Hnum & Hall) Hbody.
    assert (HX' : valid_dataset (Simplisma.X e) m n) by (rewrite HXe; exact HX).
    destruct (batch_pass_facts HE HX' Hint Hst Hfin Hj Hbody)
      as (wj & C' & St' & r & sd & ends & Hwj & Ha & Hj' & _ & _ & _ & _ & _
          & Hlen' & Hlogs & Hends & _ & _ & _ & _ & _ & Hsd).
    split; [exact Hlen' |]. rewrite Hlogs, Hj'. split.
    + rewrite filter_app, map_app. cbn [filter is_summary map summary_iteration].
      rewrite (filter_summary_ends Hends), Hnum. cbn [map].
      replace (j st + 1)%nat with (S (j st)) by lia.
      rewrite seq_S. reflexivity.
    + apply Forall_app. split; [exact Hall |].
      constructor; [| apply Forall_reports_ends; exact Hends].
      cbn [reports_variable]. eexists. split; [exact Ha |].
      split; [reflexivity |]. split; [rewrite HXe; reflexivity |].
      rewrite Hsd. unfold np_std. apply sqrt_pos.
  - destruct (Hlen Hfin) as [HlPt _]. subst o. cbn [_Pt _log finish].
    rewrite HlPt. split; [exact Hnum |]. split; [exact Hall |].
    intros Hx. eapply Forall_impl; [| exact Hall].
    intros en Hen. destruct en; try exact I.
    destruct Hen as (a & Ha & -> & -> & _).
    unfold get_x_data. rewrite Hx. unfold arange.
    rewrite (@nth_map_lt _ _ INR (seq 0 (n_vars X)) a 0 0%nat).
    + rewrite seq_nth; [apply INR_IZR_INZ |].
      destruct HX as (Hs & _). unfold n_vars. rewrite Hs. exact Ha.
    + rewrite length_seq. destruct HX as (Hs & _). unfold n_vars. rewrite Hs. exact Ha.
Qed.

Lemma map_firstn_all (T : Type) m k (A : list (list T)) :
  has_shape m k A -> map (firstn k) A = A.
Proof.
  intros [_ Hrows]. rewrite <- (map_id A) at 2. apply map_ext_in. intros r Hr.
  rewrite Forall_forall in Hrows. apply firstn_all2. rewrite (Hrows r Hr). lia.
Qed.

Lemma map_firstn_firstn (T : Type) k (A : list (list T)) :
  map (firstn k) (map (firstn k) A) = map (firstn k) A.
Proof.
  rewrite map_map. apply map_ext. intros r. rewrite firstn_firstn, Nat.min_id. reflexivity.
Qed.

(** X5.  The last summary line of the log of a batch run reports the quality of
    the reconstruction that [inverse_transform] returns: its R^2 is
    [1 - |C.St - X|^2 / |X|^2] and its standard deviation that of the
    residuals [C.St - X]; the lines after it are the end messages. *)
Theorem last_summary_is_reconstruction {E : Extern} (X : Simplisma.NDDataset) (kw : kwargs)
  (inp : list string) (fuel m n : nat) (warnings : list warning) (o : SIMPLISMA_object) :
  lstsq_shaped E -> valid_dataset X m n ->
  get (kw_interactive kw) false = false ->
  SIMPLISMA X kw inp fuel = (warnings, inr (Some o)) ->
  exists pre iter index coord stdev_res rsquare ends,
    _log o = pre ++ IterSummary iter index coord stdev_res rsquare :: ends /\
    Forall (fun en => is_end_message en = true) ends /\
    rsquare = 1 - norm (msub (inverse_transform o) (Simplisma.data X)) ^ 2
                  / norm (Simplisma.data X) ^ 2 /\
    stdev_res = np_std (flatten (msub (inverse_transform o) (Simplisma.data X))) /\
    (norm (Simplisma.data X) <> 0 -> rsquare <= 1).
Proof.
  intros HE HX Hbatch Hrun.
  destruct (@batch_object E X kw inp fuel m n warnings o HE HX Hbatch Hrun
              (fun e st =>
                 (finished st = true ->
                  (0 < j st)%nat /\ has_shape m (j st) (C st) /\ has_shape (j st) n (St st)) /\
                 (j st = 0%nat \/
                  exists pre iter index coord stdev_res rsquare ends,
                    logs st = pre ++ IterSummary iter index coord stdev_res rsquare :: ends /\
                    Forall (fun en => is_end_message en = true) ends /\
                    rsquare =
                      1 - norm (msub (matmul (map (firstn (j st)) (C st))
                                             (firstn (j st) (St st)))
                                     (Simplisma.data X)) ^ 2
                          / norm (Simplisma.data X) ^ 2 /\
                    stdev_res =
                      np_std (flatten (msub (matmul (map (firstn (j st)) (C st))
                                                    (firstn (j st) (St st)))
                                            (Simplisma.data X))))))
    as (e & st' & Hconf & HXe & Ho & Hfin & Hshape & Hlast).
  - intros e HXe. split; [discriminate | left; reflexivity].
  - intros e st st' HXe Hint Hst Hfin Hj _ Hbody.
    assert (HX' : valid_dataset (Simplisma.X e) m n) by (rewrite HXe; exact HX).
    destruct (batch_pass_facts HE HX' Hint Hst Hfin Hj Hbody)
      as (wj & C' & St' & r & sd & ends & _ & _ & Hj' & Hfin' & _ & _ & _ & _
          & _ & Hlogs & Hends & HC' & HSt' & HC & HSt & Hr & Hsd).
    assert (HCj : map (firstn (j st + 1)) (C st') = map (firstn (j st + 1)) C').
    { rewrite HC. destruct (tol_fires e st r); [apply map_firstn_firstn | reflexivity]. }
    assert (HStj : firstn (j st + 1) (St st') = firstn (j st + 1) St').
    { rewrite HSt. destruct (tol_fires e st r); [| reflexivity].
      rewrite firstn_firstn, Nat.min_id. reflexivity. }
    split.
    + intros Hf. rewrite Hfin' in Hf. rewrite Hj', HC, HSt. split; [lia |].
      destruct (tol_fires e st r).
      * split; [apply has_shape_map_firstn with (c := n_pc e); [exact HC' | lia] |].
        apply has_shape_firstn with (m := n_pc e); [exact HSt' | lia].
      * cbn [orb] in Hf. apply Nat.eqb_eq in Hf. rewrite Hf. split; assumption.
    + right. exists (logs st), (j st + 1)%nat. do 4 eexists. exists ends.
      split; [exact Hlogs |]. split; [exact Hends |].
      rewrite Hj', HCj, HStj, <- HXe. split; assumption.
  - destruct (Hshape Hfin) as (Hpos & HC & HSt).
    destruct Hlast as [Hz | (pre & it & idx & coord & sd & r & ends & Hlogs & Hends & Hr & Hsd)];
      [lia |].
    rewrite (map_firstn_all HC) in Hr, Hsd.
    rewrite firstn_all2 in Hr, Hsd by (destruct HSt as [-> _]; lia).
    exists pre, it, idx, coord, sd, r, ends. subst o.
    unfold inverse_transform. cbn [_log _C _St finish].
    split; [exact Hlogs |]. split; [exact Hends |]. split; [exact Hr |].
    split; [exact Hsd |].
    intros Hnorm. rewrite Hr.
    assert (Hq : 0 <= norm (msub (matmul (C st') (St st')) (Simplisma.data X)) ^ 2
                      / norm (Simplisma.data X) ^ 2).
    { unfold Rdiv. apply Rmult_le_pos; [apply pow2_ge_0 |].
      left. apply Rinv_0_lt_compat.
      pose proof (pow2_ge_0 (norm (Simplisma.data X))) as Hge.
      destruct (Req_dec (norm (Simplisma.data X) ^ 2) 0) as [Hz | Hnz]; [| lra].
      exfalso. apply Hnorm. simpl in Hz. nra. }
    lra.
Qed.

(** ** How a batch run ends *)

(** X21.  A batch run ends on the criterion [tol], on the number of components
    [n_pc], or on both at once when the criterion is met in the pass of
    the last component: the log then has the two messages.  The messages are
    the last entries of the log, nothing before them tells an end, and the
    run returns at least two components: fewer than [n_pc] only if [tol]
    has ended it. *)
Theorem batch_run_end_messages {E : Extern} (X : Simplisma.NDDataset) (kw : kwargs)
  (inp : list string) (fuel m n : nat) (warnings : list warning) (o : SIMPLISMA_object) :
  lstsq_shaped E -> valid_dataset X m n ->
  get (kw_interactive kw) false = false ->
  SIMPLISMA X kw inp fuel = (warnings, inr (Some o)) ->
  exists e pre,
    configure X kw = inr e /\
    Forall (fun en => is_end_message en = false) pre /\
    (2 <= length (_Pt o) <= n_pc e)%nat /\
    ((_log o = pre ++ [TolReached (tol e)] /\ (length (_Pt o) < n_pc e)%nat) \/
     (_log o = pre ++ [MaxReached (n_pc e)] /\ length (_Pt o) = n_pc e) \/
     (_log o = pre ++ [TolReached (tol e); MaxReached (n_pc e)] /\
      length (_Pt o) = n_pc e)).
Proof.
  intros HE HX Hbatch Hrun.
  destruct (@batch_object E X kw inp fuel m n warnings o HE HX Hbatch Hrun
              (fun e st =>
                 (2 <= n_pc e)%nat ->
                 (finished st = false ->
                  Forall (fun en => is_end_message en = false) (logs st)) /\
                 (finished st = true ->
                  exists pre,
                    Forall (fun en => is_end_message en = false) pre /\
                    length (Pt st) = j st /\ (2 <= j st <= n_pc e)%nat /\
                    ((logs st = pre ++ [TolReached (tol e)] /\ (j st < n_pc e)%nat) \/
                     (logs st = pre ++ [MaxReached (n_pc e)] /\ j st = n_pc e) \/
                     (logs st = pre ++ [TolReached (tol e); MaxReached (n_pc e)] /\
                      j st = n_pc e)))))
    as (e & st' & Hconf & HXe & Ho & Hfin & HI).
  - intros e HXe Hpc. split; [| discriminate].
    intros _. cbn [logs init_state]. constructor; [reflexivity | constructor].
  - intros e st st' HXe Hint Hst Hfin Hj HI Hbody Hpc.
    assert (HX' : valid_dataset (Simplisma.X e) m n) by (rewrite HXe; exact HX).
    destruct (HI Hpc) as [Hquiet _]. specialize (Hquiet Hfin).
    destruct (batch_pass_facts HE HX' Hint Hst Hfin Hj Hbody)
      as (wj & C' & St' & r' & sd' & ends' & _ & _ & _ & _ & _ & _ & _ & _ & Hlen & _).
    destruct (body_batch_inv _ _ Hint Hbody) as (st1 & st2 & r & sd & _ & _ & Hstep).
    step_facts Hstep. rewrite Hfin in Sfin. cbn [orb] in Sfin.
    set (llog := IterSummary (j st + 1) (nth (j st) (maxPIndex st2) 0%Z)
                   (nth (j st) (maxPCoordinate st2) 0) sd r) in *.
    assert (Hpre : Forall (fun en => is_end_message en = false) (logs st ++ [llog])).
    { apply Forall_app. split; [exact Hquiet |]. constructor; [reflexivity | constructor]. }
    assert (Hlogs : logs st' =
                    (logs st ++ [llog])
                    ++ (if tol_fires e st r then [TolReached (tol e)] else [])
                    ++ (if (j st + 1 =? n_pc e)%nat then [MaxReached (n_pc e)] else []))
      by (rewrite Slogs, <- app_assoc; reflexivity).
    assert (Hpos : tol_fires e st r = true -> (0 < j st)%nat).
    { unfold tol_fires. intros H. apply andb_prop in H as [H _].
      apply Nat.ltb_lt in H. exact H. }
    split.
    + intros Hf. rewrite Hf in Sfin. symmetry in Sfin.
      apply orb_false_elim in Sfin as [Ht Hm]. rewrite Ht, Hm, app_nil_r in Hlogs.
      rewrite Hlogs. exact Hpre.
    + intros Hf. destruct (Hlen Hf) as [HlPt _].
      exists (logs st ++ [llog]). split; [exact Hpre |]. split; [exact HlPt |].
      rewrite Sj, Hlogs.
      destruct (tol_fires e st r) eqn:Ht; destruct (Nat.eqb_spec (j st + 1) (n_pc e)) as [Hm | Hm].
      * specialize (Hpos eq_refl). split; [lia |]. right. right. split; [reflexivity | exact Hm].
      * specialize (Hpos eq_refl). split; [lia |]. left. split; [reflexivity | lia].
      * split; [lia |]. right. left. split; [reflexivity | exact Hm].
      * rewrite Hf in Sfin. discriminate.
  - destruct (configure_inr _ _ Hconf) as [_ Hpc].
    destruct (HI Hpc) as [_ Hend]. destruct (Hend Hfin) as (pre & Hpre & HlPt & Hk & Hcases).
    exists e, pre. subst o. cbn [_log _Pt finish]. rewrite HlPt.
    split; [exact Hconf |]. split; [exact Hpre |]. split; [exact Hk | exact Hcases].
Qed.

(** ** Determinants: two equal rows *)

Section Sums.








End Sums.

Section RemoveNth.

Variable T : Type.



End RemoveNth.



Section FirstTwoRows.

Variables (n : nat) (rest : matrix).







End FirstTwoRows.






(** ** The console of an interactive run *)

Lemma prompt_valid (valid : list string) : forall inp ans rest,
  prompt valid inp = inr (ans, rest) -> In (lower ans) valid.
Proof.
  induction inp as [| a inp IH]; intros ans rest H; cbn [prompt] in H; [discriminate |].
  destruct (existsb (String.eqb (lower a)) valid) eqn:Hv.
  - inversion H. subst. apply existsb_exists in Hv as (y & Hy & Heq).
    apply String.eqb_eq in Heq. subst y. exact Hy.
  - eapply IH. exact H.
Qed.

(** X7.  [input] until an answer is valid: the answers before it are not valid
    and are dropped, whatever their case; with no valid answer left the
    console is exhausted. *)
Theorem prompt_skips_invalid_answers (valid : list string) (inp : list string) :
  (forall ans rest,
     prompt valid inp = inr (ans, rest) <->
     exists skipped,
       inp = skipped ++ ans :: rest /\
       Forall (fun a => ~ In (lower a) valid) skipped /\ In (lower ans) valid) /\
  (prompt valid inp = inl EOFError <-> Forall (fun a => ~ In (lower a) valid) inp).
Proof.
  assert (Hex : forall a, existsb (String.eqb (lower a)) valid = true <-> In (lower a) valid).
  { intros a. rewrite existsb_exists. split.
    - intros (y & Hy & Heq). apply String.eqb_eq in Heq. subst y. exact Hy.
    - intros Hin. exists (lower a). split; [exact Hin | apply String.eqb_refl]. }
  induction inp as [| a inp [IH1 IH2]]; split.
  - intros ans rest. split; [discriminate |].
    intros ([| s sk] & Heq & _); discriminate.
  - split; [constructor | reflexivity].
  - intros ans rest. cbn [prompt].
    destruct (existsb (String.eqb (lower a)) valid) eqn:Hv; split.
    + intros H. inversion H. subst. exists []. split; [reflexivity |].
      split; [constructor | apply Hex; exact Hv].
    + intros ([| s sk] & Heq & Hsk & Hin).
      * inversion Heq. reflexivity.
      * inversion Heq. subst s. apply Forall_inv in Hsk.
        exfalso. apply Hsk. apply Hex. exact Hv.
    + intros H. apply IH1 in H as (sk & -> & Hsk & Hin).
      exists (a :: sk). split; [reflexivity |]. split; [| exact Hin].
      constructor; [| exact Hsk]. intros Hina. apply Hex in Hina. congruence.
    + intros ([| s sk] & Heq & Hsk & Hin).
      * inversion Heq. subst. apply Hex in Hin. congruence.
      * inversion Heq. subst. apply IH1. exists sk. split; [reflexivity |].
        split; [apply Forall_inv_tail in Hsk; exact Hsk | exact Hin].
  - cbn [prompt]. destruct (existsb (String.eqb (lower a)) valid) eqn:Hv; split.
    + discriminate.
    + intros Hall. apply Forall_inv in Hall. exfalso. apply Hall, Hex. exact Hv.
    + intros H. constructor; [| apply IH2; exact H].
      intros Hina. apply Hex in Hina. congruence.
    + intros Hall. apply IH2. apply Forall_inv_tail in Hall. exact Hall.
Qed.

Lemma argmin_from_spec v : forall best bi i,
  (argmin_from best bi i v = bi /\ forall u, (u < length v)%nat -> best <= nth u v 0) \/
  (exists t, argmin_from best bi i v = (i + t)%nat /\ (t < length v)%nat /\
             nth t v 0 < best /\
             (forall u, (u < length v)%nat -> nth t v 0 <= nth u v 0)).
Proof.
  induction v as [| y v IH]; intros best bi i; simpl.
  - left. split; [reflexivity | intros u Hu; lia].
  - destruct (Rlt_dec y best) as [Hlt | Hge].
    + destruct (IH y i (S i)) as [[Hk Hall] | (t & Hk & Ht & Hbest & Hall)].
      * right. exists 0%nat. rewrite Hk.
        split; [lia |]. split; [lia |]. split; [assumption |].
        intros [| u] Hu; [lra | apply Hall; lia].
      * right. exists (S t). rewrite Hk.
        split; [lia |]. split; [lia |]. split; [simpl; lra |].
        intros [| u] Hu; simpl; [lra | apply Hall; lia].
    + destruct (IH best bi (S i)) as [[Hk Hall] | (t & Hk & Ht & Hbest & Hall)].
      * left. rewrite Hk. split; [reflexivity |].
        intros [| u] Hu; [lra | apply Hall; lia].
      * right. exists (S t). rewrite Hk.
        split; [lia |]. split; [lia |]. split; [assumption |].
        intros [| u] Hu; simpl; [lra | apply Hall; lia].
Qed.

Lemma np_argmin_min v :
  v <> [] ->
  (np_argmin v < length v)%nat /\
  forall u, (u < length v)%nat -> nth (np_argmin v) v 0 <= nth u v 0.
Proof.
  destruct v as [| y v]; [congruence | intros _].
  unfold np_argmin.
  destruct (argmin_from_spec v y 0 1) as [[Hk Hall] | (t & Hk & Ht & Hbest & Hall)];
    rewrite Hk.
  - split; [simpl; lia |].
    intros [| u] Hu; simpl in *; [lra | apply Hall; lia].
  - split; [simpl; lia |].
    intros [| u] Hu; simpl in *; [lra | apply Hall; lia].
Qed.

Lemma norm_index_out n k : ~ index_of n k -> norm_index n k = inl IndexError.
Proof.
  unfold index_of, norm_index. intros Hk.
  destruct (Z.leb_spec 0 k), (Z.ltb_spec k (Z.of_nat n)), (Z.ltb_spec k 0),
    (Z.leb_spec (- Z.of_nat n) k); simpl; try reflexivity; exfalso; apply Hk; lia.
Qed.

(** X8.  The answer to 'enter the new index (int) or variable value (float)',
    for a variable being selected at pass [j].
    - An integer that is an index of a variable (counted from either end)
      becomes [maxPIndex[j]] as it is, with the coordinate of that variable.
    - An integer that is not raises [IndexError]: it is not the [ValueError]
      the code catches, and the construction of the object is abandoned.
    - A number that is not an integer selects a variable whose coordinate
      is nearest to it.
    - Anything else leaves the selection as it is: a message is printed. *)
Theorem change_pure_variable {E : Extern} (e : env) (m n : nat) (st : state)
  (new : string) :
  valid_dataset (X e) m n -> state_ok e m n st -> (j st < n_pc e)%nat ->
  (forall z, py_int new = Some z ->
     (index_of n z ->
      change e new st =
        inr (set_maxPCoordinate
               (replace_nth (j st) (nth (position n z) (get_x_data (X e)) 0)
                            (maxPCoordinate st))
               (set_maxPIndex (replace_nth (j st) z (maxPIndex st)) st))) /\
     (~ index_of n z -> change e new st = inl IndexError)) /\
  (forall r, py_int new = None -> py_float new = Some r ->
     exists a,
       (a < n)%nat /\
       (forall i, (i < n)%nat ->
          Rabs (nth a (get_x_data (X e)) 0 - r) <= Rabs (nth i (get_x_data (X e)) 0 - r)) /\
       change e new st =
         inr (set_maxPCoordinate
                (replace_nth (j st) (nth a (get_x_data (X e)) 0) (maxPCoordinate st))
                (set_maxPIndex (replace_nth (j st) (Z.of_nat a) (maxPIndex st)) st))) /\
  (py_int new = None -> py_float new = None ->
   change e new st = inr (set_console (console st ++ [IncorrectAnswer]) st)).
Proof.
  intros HX Hst Hj.
  destruct Hst as (_ & _ & _ & _ & _ & HmI & HmC & _).
  pose proof (length_get_x_data e HX) as Hx.
  split; [| split].
  - intros z Hz. unfold change. rewrite Hz. split.
    + intros Hidx. rewrite setitem_nat by lia. cbn [bind].
      unfold getitem. rewrite Hx.
      destruct (norm_index_position Hidx) as [-> _]. cbn [bind ret].
      rewrite setitem_nat by lia. reflexivity.
    + intros Hout. rewrite setitem_nat by lia. cbn [bind].
      unfold getitem. rewrite Hx, (norm_index_out Hout). reflexivity.
  - intros r Hi Hf. unfold change. rewrite Hi, Hf.
    set (v := map (fun c => Rabs (c - r)) (get_x_data (X e))).
    assert (Hv : length v = n) by (unfold v; rewrite length_map; exact Hx).
    assert (Hn : (0 < n)%nat) by (destruct HX as (_ & _ & _ & Hn & _); exact Hn).
    destruct (@np_argmin_min v) as [Hlt Hmin].
    { intros Hnil. rewrite Hnil in Hv. simpl in Hv. lia. }
    rewrite Hv in Hlt, Hmin.
    exists (np_argmin v). split; [exact Hlt |]. split.
    + intros i Hi'. specialize (Hmin i Hi'). unfold v in Hmin at 2 3.
      rewrite !(@nth_map_lt _ _ (fun c => Rabs (c - r)) (get_x_data (X e)) _ 0 0) in Hmin
        by (rewrite Hx; assumption).
      exact Hmin.
    + rewrite setitem_nat by lia. cbn [bind].
      rewrite getitem_nat by (rewrite Hx; exact Hlt). cbn [bind].
      rewrite setitem_nat by lia. reflexivity.
  - intros Hi Hf. unfold change. rewrite Hi, Hf. reflexivity.
Qed.

(** ** The answers at the console, in a pass of an interactive run *)

Lemma change_loop_done {E : Extern} (e : env) (first : bool) inp ans st r sd :
  (if first then negb (String.eqb (lower ans) "a") else String.eqb (lower ans) "c") = false ->
  change_loop e first inp ans st r sd = inr (ans, inp, st, r, sd).
Proof. intros H. destruct inp; cbn [change_loop]; rewrite H; reflexivity. Qed.

Lemma pass_merit_inr {E : Extern} e st st2 rsquare stdev_res :
  pass_merit e st = inr (st2, rsquare, stdev_res) ->
  exists st1, score e st = inr st1 /\ merit e st1 = inr (st2, rsquare, stdev_res) /\
              j st2 = j st /\ finished st2 = finished st /\ logs st2 = logs st /\
              stdin st2 = stdin st /\
              (j st < length (maxPIndex st2))%nat /\ (j st < length (maxPCoordinate st2))%nat.
Proof.
  unfold pass_merit. intros H. apply bind_inr in H as (st1 & Hscore & Hmerit).
  destruct (score_frame _ _ Hscore) as (Hj & Hfin & _ & _ & Hlogs & _ & Hin & _ & HlI & HlC).
  destruct (merit_frame _ _ Hmerit) as (C' & St' & Hst2).
  exists st1. subst st2. state_simpl. repeat (split; [assumption |]). assumption.
Qed.

(** X9.  A later pass ([j > 0]) of an interactive run, answered by [a], [r] or
    [f] (in either case, after any number of answers that are none of
    [a], [c], [r], [f]).  The pass has selected a variable and computed its
    figures of merit: [st2].
    - [a] accepts: the next pass selects variable [j + 1].
    - [r] rejects: the index and the coordinate of the variable are set to 0
      and the next pass is the one of variable [j - 1], which is selected
      again; the column of [C] and the rows of [St] written for the rejected
      variable stay.
    - [f] accepts and ends the run, the containers are sliced to the
      [j + 1] components found.
    In no case does the pass end the run for another reason: neither [tol]
    nor the number of components is looked at. *)
Theorem interactive_answers {E : Extern} (e : env) (st st2 : state)
  (rsquare stdev_res : R) (ans : string) (rest : list string) :
  interactive e = true -> (0 < j st)%nat ->
  pass_merit e st = inr (st2, rsquare, stdev_res) ->
  prompt ["a"; "c"; "r"; "f"]%string (stdin st) = inr (ans, rest) ->
  lower ans <> "c"%string ->
  let llog := IterSummary (j st + 1) (nth (j st) (maxPIndex st2) 0%Z)
                (nth (j st) (maxPCoordinate st2) 0) stdev_res rsquare in
  exists st',
    body e st = inr st' /\ stdin st' = rest /\ w st' = w st2 /\
    prev_stdev_res st' = stdev_res /\ console st' = console st2 ++ [llog] /\
    (lower ans = "a"%string ->
     j st' = (j st + 1)%nat /\ finished st' = finished st /\
     logs st' = logs st ++ [llog] /\ same_containers st2 st' /\
     maxPIndex st' = maxPIndex st2 /\ maxPCoordinate st' = maxPCoordinate st2) /\
    (lower ans = "r"%string ->
     j st' = (j st - 1)%nat /\ finished st' = finished st /\
     logs st' = logs st ++ [llog; RejectedPure (j st + 1)] /\ same_containers st2 st' /\
     maxPIndex st' = replace_nth (j st) 0%Z (maxPIndex st2) /\
     maxPCoordinate st' = replace_nth (j st) 0 (maxPCoordinate st2)) /\
    (lower ans = "f"%string ->
     j st' = (j st + 1)%nat /\ finished st' = true /\
     logs st' = logs st ++ [llog; Interrupted (j st + 1)] /\
     Pt st' = firstn (j st + 1) (Pt st2) /\ St st' = firstn (j st + 1) (St st2) /\
     s st' = firstn (j st + 1) (s st2) /\ C st' = map (firstn (j st + 1)) (C st2) /\
     maxPIndex st' = maxPIndex st2 /\ maxPCoordinate st' = maxPCoordinate st2).
Proof.
  intros Hint Hj Hpass Hprompt Hc llog.
  destruct (pass_merit_inr _ _ Hpass)
    as (st1 & Hscore & Hmerit & Hj2 & Hfin2 & Hlogs2 & Hin2 & HlI & HlC).
  assert (Hz : (j st =? 0)%nat = false) by (apply Nat.eqb_neq; lia).
  assert (Hans : In (lower ans) ["a"; "c"; "r"; "f"]%string)
    by (eapply prompt_valid; exact Hprompt).
  assert (Hsum : summary (set_prev_stdev_res stdev_res st2) rsquare stdev_res = inr llog).
  { rewrite summary_ok by (state_simpl; rewrite Hj2; assumption).
    state_simpl. rewrite Hj2. reflexivity. }
  assert (Hnc : String.eqb (lower ans) "c" = false) by (apply String.eqb_neq; exact Hc).
  unfold body, iterationj. rewrite Hz. unfold score in Hscore. rewrite Hz in Hscore.
  rewrite Hscore. cbn [bind]. rewrite Hmerit. cbn [bind]. rewrite Hsum. cbn [bind].
  rewrite Hint, orb_true_r. state_simpl. rewrite Hin2, Hprompt. cbn [bind].
  rewrite change_loop_done by exact Hnc. cbn [bind]. state_simpl.
  rewrite !setitem_nat by (rewrite Hj2; assumption). cbn [bind]. state_simpl.
  rewrite Hj2.
  simpl in Hans. destruct Hans as [Ha | [Hc' | [Hr | [Hf | []]]]];
    [| congruence | |]; rewrite <- ?Ha, <- ?Hr, <- ?Hf; cbn [String.eqb Ascii.eqb Bool.eqb].
  all: cbn [bind ret].
  all: match goal with
       | |- context [if ?c then _ else _] => destruct c
       end.
  all: eexists; (split; [reflexivity |]); unfold truncate, same_containers, log, emit;
    state_simpl.
  all: rewrite ?Hj2, ?Hlogs2, ?Hfin2, <- ?app_assoc.
  all: repeat split; try reflexivity; congruence.
Qed.

(** ** How an interactive run ends *)

Lemma change_frame {E : Extern} e new st st' :
  change e new st = inr st' ->
  j st' = j st /\ finished st' = finished st /\ logs st' = logs st /\ Pt st' = Pt st.
Proof.
  unfold change. intros H.
  destruct (py_int new); [| destruct (py_float new)];
    try (binds H); apply inr_eq in H; subst st'; unfold emit; state_simpl;
    repeat split; reflexivity.
Qed.

Lemma summary_goes_on st r sd llog : summary st r sd = inr llog -> goes_on llog.
Proof.
  unfold summary. intros H. binds H. apply inr_eq in H. subst llog.
  split; reflexivity.
Qed.

Lemma change_loop_log {E : Extern} (e : env) (first : bool) :
  forall k inp ans st r sd ans' inp' st' r' sd',
  (length inp <= k)%nat ->
  change_loop e first inp ans st r sd = inr (ans', inp', st', r', sd') ->
  j st' = j st /\ finished st' = finished st /\ Pt st' = Pt st /\
  (if first then lower ans' = "a"%string else lower ans' <> "c"%string) /\
  exists extra, logs st' = logs st ++ extra /\ Forall goes_on extra.
Proof.
  induction k as [| k IH]; intros inp ans st r sd ans' inp' st' r' sd' Hlen H.
  - destruct inp; [| simpl in Hlen; lia]. simpl in H.
    destruct (if first then negb (lower ans =? "a")%string else (lower ans =? "c")%string)
      eqn:Hc; [discriminate |].
    inversion H. subst. repeat (split; [reflexivity |]). split.
    + destruct first; [apply negb_false_iff, String.eqb_eq in Hc |
                       apply String.eqb_neq in Hc]; exact Hc.
    + exists []. rewrite app_nil_r. split; [reflexivity | constructor].
  - destruct inp as [| new [| ans1 inp2]]; simpl in H;
      destruct (if first then negb (lower ans =? "a")%string else (lower ans =? "c")%string)
        eqn:Hc; try discriminate.
    1, 3, 5: inversion H; subst; repeat (split; [reflexivity |]); split;
      [destruct first; [apply negb_false_iff, String.eqb_eq in Hc |
                        apply String.eqb_neq in Hc]; exact Hc
      | exists []; rewrite app_nil_r; split; [reflexivity | constructor]].
    + binds H. destruct a0 as [[st2 r2] sd2]. binds H. discriminate.
    + binds H. destruct a0 as [[st2 r2] sd2]. binds H.
      destruct (change_frame _ _ _ Ha) as (Hj1 & Hf1 & Hl1 & HP1).
      destruct (merit_frame _ _ Ha0) as (C' & St' & Hst2).
      pose proof (summary_goes_on _ _ _ Ha1) as Hgo.
      apply IH in H; [| simpl in Hlen; lia].
      destruct H as (Hj' & Hf' & HP' & Hans & extra & Hlog & Hex).
      unfold log, emit in *. subst st2. state_simpl. 
      rewrite Hj', Hf', HP', Hj1, Hf1, HP1.
      repeat (split; [reflexivity |]). split; [exact Hans |].
      exists (ChangedPure (j a + 1) :: a0 :: extra).
      rewrite Hlog. state_simpl. rewrite Hl1, <- app_assoc. split; [reflexivity |].
      constructor; [split; reflexivity |]. constructor; assumption.
Qed.

Lemma score_Pt_row e st st1 : score e st = inr st1 -> (j st < length (Pt st1))%nat.
Proof.
  unfold score, score0, scorej. intros H.
  destruct (j st =? 0)%nat; binds H; apply inr_eq in H; subst st1; state_simpl;
    match goal with
    | Hg : get_row ?P (j st) = inr _ |- (_ < length ?P)%nat =>
        unfold get_row in Hg; destruct (Nat.ltb_spec (j st) (length P));
          [assumption | discriminate]
    end.
Qed.

Section InteractiveLog.

Context {E : Extern}.
Variable e : env.
Hypothesis Hint : interactive e = true.

Lemma body_on_request st st' :
  finished st = false -> on_request st -> body e st = inr st' -> on_request st'.
Proof.
  intros Hfin Hinv H. unfold on_request in Hinv. rewrite Hfin in Hinv.
  unfold body in H. apply bind_inr in H as (sti & Hiter & H1).
  rewrite Hint in H1. cbn [negb] in H1.
  assert (Hsti : st' = sti) by (destruct (j sti =? n_pc e)%nat; apply inr_eq in H1; congruence).
  subst sti. clear H1.
  destruct (j st =? 0)%nat eqn:Hz.
  - unfold iteration0 in Hiter.
    apply bind_inr in Hiter as (st1 & Hscore & H1).
    apply bind_inr in H1 as ([[st2 r0] sd0] & Hmerit & H2).
    apply bind_inr in H2 as (llog & Hsum & H3).
    apply bind_inr in H3 as ([st4 sd4] & Hi & H4).
    apply inr_eq in H4. subst st'.
    assert (Hscore' : score e st = inr st1) by (unfold score; rewrite Hz; exact Hscore).
    destruct (score_frame _ _ Hscore') as (Hj1 & Hf1 & _ & _ & Hl1 & _).
    destruct (merit_frame _ _ Hmerit) as (C' & St' & Hst2).
    rewrite Hint in Hi. rewrite orb_true_r in Hi.
    apply bind_inr in Hi as ([ans inp] & _ & Hi2).
    apply bind_inr in Hi2 as ([[[[ans' inp'] st3] r3] sd3] & Hloop & Hi3).
    apply inr_eq in Hi3. inversion Hi3. subst st4 sd4. clear Hi3.
    apply change_loop_log with (k := length inp) in Hloop; [| lia].
    destruct Hloop as (Hj3 & Hf3 & _ & _ & extra & Hlog & Hex).
    unfold log, emit in *. subst st2. revert Hj3 Hf3 Hlog. state_simpl. intros Hj3 Hf3 Hlog.
    unfold on_request. state_simpl. rewrite Hf3, Hf1, Hfin, Hlog, Hl1.
    apply Forall_app. split; [| exact Hex].
    apply Forall_app. split; [exact Hinv |].
    constructor; [eapply summary_goes_on; exact Hsum | constructor].
  - unfold iterationj in Hiter.
    apply bind_inr in Hiter as (st1 & Hscore & H1).
    apply bind_inr in H1 as ([[st2 rj] sdj] & Hmerit & H2).
    apply bind_inr in H2 as (llog & Hsum & H3).
    assert (Hscore' : score e st = inr st1) by (unfold score; rewrite Hz; exact Hscore).
    destruct (score_frame _ _ Hscore') as (Hj1 & Hf1 & _ & _ & Hl1 & _).
    pose proof (score_Pt_row _ _ Hscore') as HPt1.
    destruct (merit_frame _ _ Hmerit) as (C' & St' & Hst2).
    rewrite Hint in H3. rewrite orb_true_r in H3.
    apply bind_inr in H3 as ([ans inp] & _ & H4).
    apply bind_inr in H4 as ([[[[ans' inp'] st3] r3] sd3] & Hloop & H5).
    apply change_loop_log with (k := length inp) in Hloop; [| lia].
    destruct Hloop as (Hj3 & Hf3 & HPt3 & _ & extra & Hlog & Hex).
    unfold log, emit in *. subst st2. revert Hj3 Hf3 HPt3 Hlog. state_simpl.
    intros Hj3 Hf3 HPt3 Hlog.
    assert (Hall : Forall goes_on (logs st3)).
    { rewrite Hlog, Hl1. apply Forall_app. split; [| exact Hex].
      apply Forall_app. split; [exact Hinv |].
      constructor; [eapply summary_goes_on; exact Hsum | constructor]. }
    apply Nat.eqb_neq in Hz.
    destruct (lower ans' =? "r")%string.
    + binds H5. apply inr_eq in H5. subst st'. unfold on_request. state_simpl.
      rewrite Hf3, Hf1, Hfin. apply Forall_app. split; [exact Hall |].
      constructor; [split; reflexivity | constructor].
    + destruct (lower ans' =? "a")%string.
      * apply inr_eq in H5. subst st'. unfold on_request. state_simpl.
        rewrite Hf3, Hf1, Hfin. exact Hall.
      * destruct (lower ans' =? "f")%string.
        -- apply inr_eq in H5. subst st'. unfold on_request, truncate. state_simpl.
           exists (logs st3). split; [reflexivity |]. split; [exact Hall |].
           split; [lia |]. rewrite length_firstn, HPt3. lia.
        -- apply inr_eq in H5. subst st'. unfold on_request. state_simpl.
           rewrite Hf3, Hf1, Hfin. exact Hall.
Qed.

Lemma while_on_request : forall fuel st st',
  on_request st -> while_not_finished fuel e st = inr (Some st') ->
  finished st' = true /\ on_request st'.
Proof.
  induction fuel as [| fuel IH]; intros st st' Hinv H; simpl in H.
  - destruct (finished st) eqn:Hf; [| discriminate].
    apply inr_eq in H. inversion H. subst st'. split; assumption.
  - destruct (finished st) eqn:Hf.
    + apply inr_eq in H. inversion H. subst st'. split; assumption.
    + apply bind_inr in H as (st1 & Hbody & H1).
      eapply IH; [| exact H1]. eapply body_on_request; eassumption.
Qed.

End InteractiveLog.

Lemma configure_interactive X kw e :
  configure X kw = inr e -> get (kw_interactive kw) false = true ->
  interactive e = true /\ n_pc e = 100%nat.
Proof.
  unfold configure. intros H Hi.
  apply bind_inr in H as (small & Hsmall & H1).
  destruct (small || negb (isinstance_int (get (kw_n_pc kw) (PyInt 2)))); [discriminate |].
  apply inr_eq in H1. subst e. rewrite Hi. split; reflexivity.
Qed.

(** X10.  An interactive run that returns was ended by the answer [f], and by
    nothing else: the log ends with the interruption at compound [k], where
    [k], at least 2 and at most 100, is the number of components returned;
    neither the criterion on the unexplained variance ([tol]) nor the number
    of components asked for ([n_pc]) has a message in the log. *)
Theorem interactive_run_ends_on_request {E : Extern} (X : Simplisma.NDDataset)
  (kw : kwargs) (inp : list string) (fuel m n : nat) (warnings : list warning)
  (o : SIMPLISMA_object) :
  valid_dataset X m n ->
  get (kw_interactive kw) false = true ->
  SIMPLISMA X kw inp fuel = (warnings, inr (Some o)) ->
  exists pre k,
    _log o = pre ++ [Interrupted k] /\ Forall goes_on pre /\
    (2 <= k <= 100)%nat /\
    has_shape k n (_Pt o) /\ has_shape k n (_s o) /\
    has_shape m k (_C o) /\ has_shape k n (_St o).
Proof.
  intros HX Hi Hrun.
  destruct (run_returned _ _ _ _ Hrun) as (e & st' & Hconf & HXe & Hpc & Hloop & Ho).
  destruct (configure_interactive _ _ Hconf Hi) as [Hint H100].
  assert (HX' : valid_dataset (Simplisma.X e) m n) by (rewrite HXe; exact HX).
  assert (Hsh : shapes (n_pc e) m n st').
  { eapply while_shapes; [exact Hloop |]. apply init_state_shapes; [exact HX' | lia]. }
  destruct (@while_on_request E e Hint fuel (init_state e inp) st') as [Hfin Hreq].
  - unfold on_request. cbn [finished init_state logs].
    constructor; [split; reflexivity | constructor].
  - exact Hloop.
  - unfold on_request in Hreq. rewrite Hfin in Hreq.
    destruct Hreq as (pre & Hlog & Hpre & Hj & HPt).
    destruct Hsh as (k & Hk & HPk & Hsk & HCk & HStk).
    assert (Hkj : k = j st') by (destruct HPk; lia).
    subst o. cbn [_log _Pt _s _C _St finish]. exists pre, (j st').
    rewrite <- Hkj. rewrite <- Hkj in Hlog, Hj. rewrite H100 in Hk.
    split; [exact Hlog |]. split; [exact Hpre |]. split; [lia |].
    repeat (split; [assumption |]). assumption.
Qed.

(** ** A pass for which no room is left *)


(** ** What [verbose] changes *)

Section Verbose.

Context {E : Extern}.
Variables (e : env) (b : bool).

Let e' : env := set_verbose b e.

Lemma score0_console c st :
  score0 e' (set_console c st) =
  match score0 e st with inr st1 => inr (set_console c st1) | inl ex => inl ex end.
Proof.
  unfold score0. state_simpl.
  change (lamda e') with (lamda e). change (scaling e') with (scaling e).
  change (p e') with (p e). change (X e') with (X e).
  repeat match goal with
         | |- context [bind ?m _] => destruct m; cbn [bind]; try reflexivity
         end.
Qed.

Lemma scorej_console c st :
  scorej e' (set_console c st) =
  match scorej e st with inr st1 => inr (set_console c st1) | inl ex => inl ex end.
Proof.
  unfold scorej. state_simpl.
  change (p e') with (p e). change (X e') with (X e). change (COO e') with (COO e).
  repeat match goal with
         | |- context [bind ?m _] => destruct m; cbn [bind]; try reflexivity
         end.
Qed.

Lemma merit_console c st :
  merit e' (set_console c st) =
  match merit e st with
  | inr (st2, r, sd) => inr (set_console c st2, r, sd)
  | inl ex => inl ex
  end.
Proof.
  unfold merit. state_simpl. change (X e') with (X e).
  destruct (figures_of_merit (X e) (maxPIndex st) (C st) (St st) (j st))
    as [ex | [[[C' St'] r] sd]]; reflexivity.
Qed.

Lemma change_console new c st :
  exists c1,
    change e' new (set_console c st) =
    match change e new st with inr st1 => inr (set_console c1 st1) | inl ex => inl ex end.
Proof.
  unfold change. state_simpl. change (X e') with (X e).
  destruct (py_int new); [| destruct (py_float new)];
    repeat match goal with
           | |- context [bind ?m _] => destruct m; cbn [bind]; try (exists c; reflexivity)
           end.
  eexists. unfold emit. cbn [ret]. state_simpl. reflexivity.
Qed.

Lemma change_loop_console (first : bool) : forall k inp ans st r sd c,
  (length inp <= k)%nat ->
  exists c1,
    change_loop e' first inp ans (set_console c st) r sd =
    match change_loop e first inp ans st r sd with
    | inr (a, i, st1, r1, sd1) => inr (a, i, set_console c1 st1, r1, sd1)
    | inl ex => inl ex
    end.
Proof.
  induction k as [| k IH]; intros inp ans st r sd c Hlen.
  - destruct inp; [| simpl in Hlen; lia]. cbn [change_loop].
    destruct (if first then negb (lower ans =? "a")%string else (lower ans =? "c")%string);
      exists c; reflexivity.
  - destruct inp as [| new inp1]; cbn [change_loop];
      destruct (if first then negb (lower ans =? "a")%string else (lower ans =? "c")%string);
      try (exists c; reflexivity).
    destruct (change_console new c st) as (c1 & ->).
    destruct (change e new st) as [ex | st1]; cbn [bind]; [exists c; reflexivity |].
    rewrite merit_console.
    destruct (merit e st1) as [ex | [[st2 r2] sd2]]; cbn [bind]; [exists c; reflexivity |].
    unfold summary. state_simpl.
    destruct (getitem 0%Z (maxPIndex st2) (Z.of_nat (j st2))) as [ex | k0]; cbn [bind];
      [exists c; reflexivity |].
    destruct (getitem 0 (maxPCoordinate st2) (Z.of_nat (j st2))) as [ex | coord]; cbn [bind];
      [exists c; reflexivity |].
    destruct inp1 as [| ans' inp2]; [exists c; reflexivity |].
    unfold log, emit. cbn [bind ret]. state_simpl.
    match goal with
    | |- context [change_loop e' first inp2 ans' ?s0 r2 sd2] =>
        match s0 with
        | context [set_console ?c0 _] =>
            match goal with
            | |- context [change_loop e first inp2 ans' ?s1 r2 sd2] =>
                destruct (IH inp2 ans' s1 r2 sd2 c0) as (c2 & Hc2);
                  [simpl in Hlen; lia |]
            end
        end
    end.
    exists c2. etransitivity; [| exact Hc2]. reflexivity.
Qed.

Lemma summary_console c st r sd : summary (set_console c st) r sd = summary st r sd.
Proof. reflexivity. Qed.

Ltac same_but_console :=
  unfold log, emit;
  lazymatch goal with
  | |- exists _, ?lhs = _ =>
      exists (match lhs with inr l => console l | inl _ => [] end); vm_compute; reflexivity
  end.

Lemma iteration0_console c st :
  exists c1,
    iteration0 e' (set_console c st) =
    match iteration0 e st with inr st1 => inr (set_console c1 st1) | inl ex => inl ex end.
Proof.
  unfold iteration0. rewrite score0_console.
  change (interactive e') with (interactive e). change (verbose e') with b.
  destruct (score0 e st) as [ex | st1]; cbn [bind]; [same_but_console |].
  rewrite merit_console.
  destruct (merit e st1) as [ex | [[st2 r] sd]]; cbn [bind]; [same_but_console |].
  rewrite summary_console.
  destruct (summary st2 r sd) as [ex | llog]; cbn [bind]; [same_but_console |].
  destruct (interactive e).
  - rewrite !orb_true_r. unfold log, emit. state_simpl.
    destruct (prompt ["a"; "c"]%string (stdin st2)) as [ex | [ans inp]]; cbn [bind];
      [same_but_console |].
    match goal with
    | |- context [change_loop e' true inp ans ?s0 r sd] =>
        match s0 with
        | context [set_console ?c0 _] =>
            match goal with
            | |- context [change_loop e true inp ans ?s1 r sd] =>
                destruct (@change_loop_console true (length inp) inp ans s1 r sd c0 (le_n _))
                  as (c2 & Hc2)
            end
        end
    end.
    match type of Hc2 with ?l = _ => match goal with |- context [bind ?m _] =>
      change m with l end end.
    rewrite Hc2.
    match goal with |- context [change_loop e true inp ans ?s1 r sd] =>
      destruct (change_loop e true inp ans s1 r sd) as [ex | [[[[a i] st3] r3] sd3]] end;
      cbn [bind]; same_but_console.
  - rewrite !orb_false_r. destruct b, (verbose e); same_but_console.
Qed.

Lemma iterationj_console c st :
  exists c1,
    iterationj e' (set_console c st) =
    match iterationj e st with inr st1 => inr (set_console c1 st1) | inl ex => inl ex end.
Proof.
  unfold iterationj. rewrite scorej_console.
  change (interactive e') with (interactive e). change (verbose e') with b.
  change (tol e') with (tol e).
  destruct (scorej e st) as [ex | st1]; cbn [bind]; [same_but_console |].
  rewrite merit_console.
  destruct (merit e st1) as [ex | [[st2 r] sd]]; cbn [bind]; [same_but_console |].
  change (summary (set_prev_stdev_res sd (set_console c st2)) r sd)
    with (summary (set_prev_stdev_res sd st2) r sd).
  destruct (summary (set_prev_stdev_res sd st2) r sd) as [ex | llog]; cbn [bind];
    [same_but_console |].
  destruct (interactive e).
  - rewrite !orb_true_r. unfold log, emit. state_simpl.
    destruct (prompt ["a"; "c"; "r"; "f"]%string (stdin st2)) as [ex | [ans inp]]; cbn [bind];
      [same_but_console |].
    match goal with
    | |- context [change_loop e' false inp ans ?s0 r sd] =>
        match s0 with
        | context [set_console ?c0 _] =>
            match goal with
            | |- context [change_loop e false inp ans ?s1 r sd] =>
                destruct (@change_loop_console false (length inp) inp ans s1 r sd c0 (le_n _))
                  as (c2 & Hc2)
            end
        end
    end.
    match type of Hc2 with ?l = _ => match goal with |- context [bind ?m _] =>
      change m with l end end.
    rewrite Hc2.
    match goal with |- context [change_loop e false inp ans ?s1 r sd] =>
      destruct (change_loop e false inp ans s1 r sd) as [ex | [[[[a i] st3] r3] sd3]] end;
      cbn [bind]; [same_but_console |].
    state_simpl.
    destruct (lower a =? "r")%string.
    + destruct (setitem (maxPCoordinate st3) (Z.of_nat (j st3)) 0); cbn [bind];
        [same_but_console |].
      destruct (setitem (maxPIndex st3) (Z.of_nat (j st3)) 0%Z); cbn [bind];
        same_but_console.
    + destruct (lower a =? "a")%string; [same_but_console |].
      destruct (lower a =? "f")%string; same_but_console.
  - rewrite !orb_false_r.
    destruct (Rlt_dec (1 - r) (tol e / 100)); destruct b, (verbose e); same_but_console.
Qed.

Lemma body_console c st :
  exists c1,
    body e' (set_console c st) =
    match body e st with inr st1 => inr (set_console c1 st1) | inl ex => inl ex end.
Proof.
  unfold body. state_simpl.
  change (n_pc e') with (n_pc e). change (interactive e') with (interactive e).
  destruct (j st =? 0)%nat.
  - destruct (iteration0_console c st) as (c1 & ->).
    destruct (iteration0 e st) as [ex | st1]; cbn [bind]; [same_but_console |].
    state_simpl. destruct (j st1 =? n_pc e)%nat; [| same_but_console].
    destruct (negb (interactive e)); same_but_console.
  - destruct (iterationj_console c st) as (c1 & ->).
    destruct (iterationj e st) as [ex | st1]; cbn [bind]; [same_but_console |].
    state_simpl. destruct (j st1 =? n_pc e)%nat; [| same_but_console].
    destruct (negb (interactive e)); same_but_console.
Qed.

Lemma while_console : forall fuel c st,
  exists c1,
    while_not_finished fuel e' (set_console c st) =
    match while_not_finished fuel e st with
    | inr final => inr (option_map (set_console c1) final)
    | inl ex => inl ex
    end.
Proof.
  induction fuel as [| fuel IH]; intros c st; cbn [while_not_finished]; state_simpl.
  - destruct (finished st); exists c; reflexivity.
  - destruct (finished st); [exists c; reflexivity |].
    destruct (body_console c st) as (c1 & ->).
    destruct (body e st) as [ex | st1]; cbn [bind]; [exists c; reflexivity |].
    apply IH.
Qed.

End Verbose.

(** X23.  The option [verbose] changes what is printed, and nothing else: with
    any value of it the constructor issues the same warnings and raises the
    same error or returns the same object (log, [C], [St], [Pt], [s]), in
    batch and in interactive mode, the answers at the console being the
    same. *)
Theorem verbose_only_prints {E : Extern} (X : Simplisma.NDDataset) (kw : kwargs)
  (b : option bool) (inp : list string) (fuel : nat) :
  SIMPLISMA X (with_verbose b kw) inp fuel = SIMPLISMA X kw inp fuel.
Proof.
  unfold SIMPLISMA. destruct (check_data X) as [ex | ws]; [reflexivity |].
  f_equal. unfold configure. cbn [with_verbose kw_verbose kw_interactive kw_tol kw_noise kw_n_pc].
  destruct (lt_two (get (kw_n_pc kw) (PyInt 2))) as [ex | small]; cbn [bind]; [reflexivity |].
  destruct (small || negb (isinstance_int (get (kw_n_pc kw) (PyInt 2)))); [reflexivity |].
  cbn [bind ret].
  set (e := mkEnv X (get (kw_interactive kw) false) (get (kw_verbose kw) true)
              (get (kw_tol kw) (1 / 10)) (get (kw_noise kw) 3)
              (as_size (if get (kw_interactive kw) false then PyInt 100
                        else get (kw_n_pc kw) (PyInt 2)))).
  destruct (@while_console E e (get b true) fuel
              (console (init_state e inp)) (init_state e inp)) as (c1 & Hw).
  change (while_not_finished fuel (set_verbose (get b true) e)
            (init_state (set_verbose (get b true) e) inp) =
          match while_not_finished fuel e (init_state e inp) with
          | inl ex => inl ex
          | inr final => inr (option_map (set_console c1) final)
          end) in Hw.
  change (mkEnv X (get (kw_interactive kw) false) (get b true)
            (get (kw_tol kw) (1 / 10)) (get (kw_noise kw) 3)
            (as_size (if get (kw_interactive kw) false then PyInt 100
                      else get (kw_n_pc kw) (PyInt 2))))
    with (set_verbose (get b true) e).
  rewrite Hw.
  destruct (while_not_finished fuel e (init_state e inp)) as [ex | [st |]]; reflexivity.
Qed.

(** ** Masked rows and columns: strip, then restore *)

Section MaskedData.

Import Masked.

Lemma compress_all (T : Type) (l : list T) :
  compress (map negb (repeat false (length l))) l = l.
Proof. induction l as [| a t IH]; simpl; [reflexivity | rewrite IH; reflexivity]. Qed.

Lemma bool_index_all (T : Type) (l : list T) k :
  length l = k -> bool_index (map negb (repeat false k)) l = inr l.
Proof.
  intros <-. unfold bool_index.
  rewrite length_map, repeat_length, Nat.eqb_refl, compress_all. reflexivity.
Qed.

Lemma any_repeat_false k : any (repeat false k) = false.
Proof. induction k as [| k IH]; simpl; [reflexivity | exact IH]. Qed.

Lemma get_masked_rc_unmasked self mask :
  np_any mask = false ->
  _get_masked_rc self mask =
    (repeat false (fst (_shape self)), repeat false (snd (_shape self))).
Proof.
  intros Hany. unfold _get_masked_rc. destruct mask as [| b]; [reflexivity |].
  rewrite Hany. reflexivity.
Qed.

(** When no element is masked, strip followed by restore gives the data
    back, with nothing masked. *)
Lemma strip_restore_unmasked self X m n :
  has_shape m n (data X) -> np_any (_mask X) = false ->
  strip_restore self X = inr (plain (data X)).
Proof.
  intros HX Hany.
  assert (Hrows : mapM (bool_index (map negb (repeat false (ncols (data X))))) (data X)
                  = inr (data X)).
  { rewrite (@mapM_inr _ _ _ (fun r => r)); [rewrite map_id; reflexivity |].
    intros r Hr. apply bool_index_all.
    destruct HX as [Hlen Hall]. rewrite Forall_forall in Hall.
    rewrite (Hall r Hr). symmetry.
    apply has_shape_ncols with (m := m);
      [split; [exact Hlen | apply Forall_forall; exact Hall] |].
    destruct (data X); [destruct Hr | simpl in Hlen; lia]. }
  unfold strip_restore, _X_validate, _remove_masked_data, _restore_masked_data.
  cbn [_shape _X_mask].
  rewrite !(get_masked_rc_unmasked _ _ Hany). cbn [_shape fst snd].
  rewrite Hrows. cbn [bind]. rewrite bool_index_all by reflexivity.
  cbn [bind ret data _X_mask _shape].
  rewrite !(get_masked_rc_unmasked _ _ Hany). cbn [_shape fst snd].
  rewrite !any_repeat_false.
  destruct (axis_eq both (AxisInt (-1)) || axis_eq both (AxisInt 1) || axis_eq both both),
    (axis_eq both (AxisInt (-2)) || axis_eq both (AxisInt 0) || axis_eq both both);
    reflexivity.
Qed.

(** A masked column alone, or a masked row alone, is put back where it was. *)
Lemma strip_restore_column :
  strip_restore analysis0 X_column_masked =
    inr [[(0, true); (2, false)]; [(0, true); (4, false)]].
Proof. reflexivity. Qed.

Lemma strip_restore_row :
  strip_restore analysis0 X_row_masked =
    inr [[(0, true); (0, true)]; [(3, false); (4, false)]].
Proof. reflexivity. Qed.

(** C8.  On a dataset with a masked row and a masked column, the data are
    stripped to the one valid element, and the restoration on both axes
    raises: the columns are put back first, into an array of the original
    width, and the rows are then assigned to an array that was given the
    width of the stripped data. *)
Theorem restore_rows_and_columns_raises :
  (exists self,
     _X_validate analysis0 X_row_and_column_masked =
       inr (self, {| data := [[4]]; _mask := NOMASK |}) /\
     _shape self = (2, 2)%nat /\
     _restore_masked_data self (plain [[4]]) (AxisInt 1) =
       inr [[(0, true); (4, false)]] /\
     _restore_masked_data self (plain [[4]]) (AxisInt 0) =
       inr [[(0, true)]; [(4, false)]] /\
     _restore_masked_data self (plain [[4]]) both = inl ValueError_shape) /\
  strip_restore analysis0 X_row_and_column_masked = inl ValueError_shape.
Proof.
  split; [eexists; repeat split |]; reflexivity.
Qed.

End MaskedData.

(** ** Masked rows and columns: what is removed, what is put back *)

Section MaskedShapes.

Import Masked.

Lemma length_all_rows (b : list (list bool)) : length (all_rows b) = length b.
Proof. unfold all_rows. apply length_map. Qed.

Lemma length_all_columns (b : list (list bool)) : length (all_columns b) = ncols b.
Proof. unfold all_columns. rewrite length_map, length_seq. reflexivity. Qed.

Lemma any_false (l : list bool) : any l = false -> l = repeat false (length l).
Proof.
  induction l as [| [|] t IH]; simpl; intros H; [reflexivity | discriminate |].
  rewrite <- IH by exact H. reflexivity.
Qed.

Lemma any_true (l : list bool) :
  any l = true -> exists i, (i < length l)%nat /\ nth i l false = true.
Proof.
  induction l as [| [|] t IH]; simpl; intros H; [discriminate | |].
  - exists 0%nat. split; [lia | reflexivity].
  - destruct (IH H) as (i & Hi & Hn). exists (S i). split; [lia | exact Hn].
Qed.

Lemma length_compress (T : Type) (keep : list bool) (l : list T) :
  length keep = length l -> length (compress keep l) = count keep.
Proof.
  unfold count. revert l. induction keep as [| k ks IH]; intros [| y l] H; simpl in *;
    try lia; try reflexivity.
  destruct k; simpl; rewrite IH by lia; reflexivity.
Qed.

Lemma count_le (keep : list bool) : (count keep <= length keep)%nat.
Proof. unfold count. apply filter_length_le. Qed.

Lemma count_negb_all (l : list bool) :
  any l = false -> count (map negb l) = length l.
Proof.
  unfold count. induction l as [| [|] t IH]; simpl; intros H;
    [reflexivity | discriminate | rewrite IH by exact H; reflexivity].
Qed.

Lemma count_negb_lt (l : list bool) :
  any l = true -> (count (map negb l) < length l)%nat.
Proof.
  unfold count. induction l as [| [|] t IH]; simpl; intros H; [discriminate | |].
  - pose proof (filter_length_le (fun b : bool => b) (map negb t)) as Hle.
    rewrite length_map in Hle. lia.
  - specialize (IH H). lia.
Qed.

Lemma count_pos (l : list bool) i :
  (i < length l)%nat -> nth i l false = true -> (0 < count l)%nat.
Proof.
  unfold count. revert i. induction l as [| [|] t IH]; intros [| i] Hi Hn; simpl in *;
    try lia; try discriminate.
  eapply IH; [| exact Hn]. lia.
Qed.

(** [base[keep] = l[keep]], then the cells outside [keep] are masked. *)
Lemma scatter_compress (T : Type) (keep : list bool) (base l : list T) :
  length keep = length base -> length l = length base ->
  scatter keep base (compress keep l) =
    map2 (fun (k : bool) bx => if k then snd bx else fst bx) keep (combine base l).
Proof.
  unfold map2. revert base l.
  induction keep as [| k ks IH]; intros [| b bs] [| y l] Hk Hl; simpl in *;
    try lia; try reflexivity.
  destruct k; simpl.
  - rewrite IH by lia. reflexivity.
  - rewrite IH by lia. reflexivity.
Qed.

(** A column with an unmasked cell: the row of that cell is not masked. *)
Lemma unmasked_cell_row (b : list (list bool)) n c :
  Forall (fun r => length r = n) b -> (c < n)%nat ->
  forallb (fun r => nth c r false) b = false ->
  exists i, (i < length b)%nat /\ forallb (fun x : bool => x) (nth i b []) = false.
Proof.
  intros Hrows Hc. induction b as [| r t IH]; cbn [forallb]; intros H0; [discriminate |].
  apply Forall_cons_iff in Hrows as [Hr Ht].
  apply andb_false_iff in H0 as [H0 | H0].
  - exists 0%nat. split; [simpl; lia |]. cbn [nth].
    clear - H0 Hr Hc. subst n. revert c Hc H0.
    induction r as [| y r IHr]; intros [| c] Hc H0; simpl in *; try lia.
    + rewrite H0. reflexivity.
    + rewrite (IHr c) by (lia || exact H0). apply andb_false_r.
  - destruct (IH Ht H0) as (i & Hi & Hf). exists (S i). split; [simpl; lia | exact Hf].
Qed.

(** A row with an unmasked cell: the column of that cell is not masked. *)
Lemma unmasked_cell_column (b : list (list bool)) n i :
  Forall (fun r => length r = n) b -> (i < length b)%nat ->
  forallb (fun x : bool => x) (nth i b []) = false ->
  exists c, (c < n)%nat /\ forallb (fun r => nth c r false) b = false.
Proof.
  intros Hrows Hi Hf.
  assert (Hex : exists c, (c < n)%nat /\ nth c (nth i b []) false = false).
  { assert (Hlen : length (nth i b []) = n)
      by (rewrite Forall_forall in Hrows; apply Hrows, nth_In, Hi).
    clear - Hf Hlen. revert n Hlen. induction (nth i b []) as [| y r IHr]; intros n Hlen;
      cbn [forallb] in Hf; [discriminate |].
    destruct y.
    - cbn [andb] in Hf. destruct n; [simpl in Hlen; lia |].
      destruct (IHr Hf n) as (c & Hc & Hn); [simpl in Hlen; lia |].
      exists (S c). split; [lia | exact Hn].
    - exists 0%nat. split; [simpl in Hlen; lia | reflexivity]. }
  destruct Hex as (c & Hc & Hcell). exists c. split; [exact Hc |].
  clear - Hcell Hi. revert i Hi Hcell.
  induction b as [| r t IH]; intros [| i] Hi Hcell; simpl in *; try lia.
  - rewrite Hcell. reflexivity.
  - rewrite (IH i) by (lia || exact Hcell). apply andb_false_r.
Qed.

Lemma length_scatter (T : Type) (keep : list bool) (base vals : list T) :
  length (scatter keep base vals) = length base.
Proof.
  revert base vals. induction keep as [| k ks IH]; intros [| b bs] vals; simpl;
    try reflexivity.
  destruct k; [destruct vals |]; simpl; rewrite IH; reflexivity.
Qed.

(** Reading back what was assigned. *)
Lemma compress_scatter (T : Type) (keep : list bool) (base vals : list T) :
  length keep = length base -> length vals = count keep ->
  compress keep (scatter keep base vals) = vals.
Proof.
  unfold count. revert base vals.
  induction keep as [| k ks IH]; intros [| b bs] vals Hk Hv; simpl in *; try lia.
  - destruct vals; [reflexivity | simpl in Hv; lia].
  - destruct k; simpl in *.
    + destruct vals as [| v vs]; [simpl in Hv; lia |]. simpl.
      rewrite IH by (simpl in Hv; lia). reflexivity.
    + apply IH; lia.
Qed.

(** The cells outside the index are those of the base. *)
Lemma nth_scatter_base (T : Type) (keep : list bool) (base vals : list T) i d :
  nth i keep true = false -> nth i (scatter keep base vals) d = nth i base d.
Proof.
  revert base vals i. induction keep as [| k ks IH]; intros [| b bs] vals [| i] Hi;
    simpl in *; try discriminate; try reflexivity.
  - subst k. reflexivity.
  - destruct k; [destruct vals |]; simpl; apply IH; exact Hi.
Qed.

Lemma Forall_scatter (T : Type) (P : T -> Prop) (keep : list bool) (base vals : list T) :
  Forall P base -> Forall P vals -> Forall P (scatter keep base vals).
Proof.
  revert base vals. induction keep as [| k ks IH]; intros [| b bs] vals Hb Hv; simpl;
    try assumption.
  apply Forall_cons_iff in Hb as [Hb Hbs].
  destruct k.
  - destruct vals as [| v vs].
    + constructor; [exact Hb | apply IH; assumption].
    + apply Forall_cons_iff in Hv as [Hv Hvs]. constructor; [exact Hv | apply IH; assumption].
  - constructor; [exact Hb | apply IH; assumption].
Qed.

(** Masking the cells outside the index does not touch the cells inside. *)
Lemma compress_map2_outside (T : Type) (f : T -> T) (sel : list bool) (l : list T) :
  length sel = length l ->
  compress (map negb sel) (map2 (fun (k : bool) y => if k then f y else y) sel l)
  = compress (map negb sel) l.
Proof.
  unfold map2. revert l. induction sel as [| k ks IH]; intros [| y l] H; simpl in *;
    try lia; try reflexivity.
  destruct k; simpl; rewrite IH by lia; reflexivity.
Qed.

Lemma nth_map2_masked (T : Type) (f : T -> T) (sel : list bool) (l : list T) i d :
  length sel = length l -> nth i sel false = true ->
  nth i (map2 (fun (k : bool) y => if k then f y else y) sel l) d = f (nth i l d).
Proof.
  unfold map2. revert l i. induction sel as [| k ks IH]; intros [| y l] [| i] H Hi;
    simpl in *; try lia; try discriminate.
  - subst k. reflexivity.
  - apply IH; [lia | exact Hi].
Qed.

End MaskedShapes.

Section MaskedRoundTrip.

Import Masked.

Lemma restore_cells_of_row (mc : list bool) : forall (r : list R) n,
  length mc = n -> length r = n ->
  map2 (fun (k : bool) c => if k then set_masked c else c) mc
       (scatter (map negb mc) (repeat (0, false) n)
                (map (fun y => (y, false)) (compress (map negb mc) r)))
  = map2 (fun (c : bool) y => if c then (0, true) else (y, false)) mc r.
Proof.
  unfold map2. induction mc as [| c cs IH]; intros [| y r] [| n] Hc Hr; simpl in *;
    try lia; try reflexivity.
  destruct c; simpl; rewrite IH by lia; reflexivity.
Qed.

Lemma masked_row_cells n (row : list R) :
  length row = n ->
  map2 (fun (c : bool) (y : R) => if true || c then (0, true) else (y, false))
       (repeat false n) row
  = map set_masked (repeat (0, false) n).
Proof.
  unfold map2. revert row. induction n as [| n IH]; intros [| y r] H; simpl in *;
    try lia; try reflexivity.
  rewrite IH by lia. reflexivity.
Qed.

Lemma plain_row_cells n (row : list R) :
  length row = n ->
  map2 (fun (c : bool) (y : R) => if false || c then (0, true) else (y, false))
       (repeat false n) row
  = map (fun y => (y, false)) row.
Proof.
  unfold map2. revert row. induction n as [| n IH]; intros [| y r] H; simpl in *;
    try lia; try reflexivity.
  rewrite IH by lia. reflexivity.
Qed.

Lemma restore_rows_of_data (mr : list bool) : forall (D : list (list R)) m n,
  length mr = m -> has_shape m n D ->
  map2 (fun (k : bool) r => if k then map set_masked r else r) mr
       (scatter (map negb mr) (ma_zeros m n) (plain (compress (map negb mr) D)))
  = restored D mr (repeat false n).
Proof.
  unfold restored, ma_zeros, full, plain.
  induction mr as [| k ks IH]; intros [| row D] [| m] n Hk [Hlen Hrows];
    simpl in *; try lia; try reflexivity.
  inversion Hrows as [| ? ? Hrow Hrest]; subst.
  assert (HD : has_shape m (length row) D) by (split; [lia | exact Hrest]).
  specialize (IH D m (length row) ltac:(lia) HD).
  pose proof (@masked_row_cells (length row) row eq_refl) as Hmasked.
  pose proof (@plain_row_cells (length row) row eq_refl) as Hplain.
  unfold map2 in *.
  destruct k; cbn [map combine scatter compress negb repeat fst snd];
    rewrite IH; [rewrite Hmasked | rewrite Hplain]; reflexivity.
Qed.

Lemma restored_unmasked (D : list (list R)) m n :
  has_shape m n D -> restored D (repeat false m) (repeat false n) = plain D.
Proof.
  unfold restored, plain. revert m. induction D as [| row D IH]; intros [| m] [Hlen Hrows];
    simpl in *; try lia; try reflexivity.
  inversion Hrows as [| ? ? Hrow Hrest]; subst.
  pose proof (@plain_row_cells (length row) row eq_refl) as Hplain.
  unfold map2 in *. cbn [map combine repeat fst snd].
  rewrite (IH m) by (split; [lia | exact Hrest]).
  rewrite Hplain. reflexivity.
Qed.

Lemma restore_columns_of_data (mc : list bool) : forall (D : list (list R)) m n,
  length mc = n -> has_shape m n D ->
  map (fun r => map2 (fun (b : bool) c => if b then set_masked c else c) mc r)
      (map2 (scatter (map negb mc)) (ma_zeros m n)
            (plain (map (compress (map negb mc)) D)))
  = restored D (repeat false m) mc.
Proof.
  unfold restored, ma_zeros, full, plain. intros D m n Hc. revert m.
  induction D as [| row D IH]; intros [| m] [Hlen Hrows]; simpl in *; try lia;
    try reflexivity.
  apply Forall_cons_iff in Hrows as [Hrow Hrest].
  assert (HD : has_shape m n D) by (split; [lia | exact Hrest]).
  specialize (IH m HD).
  pose proof (@restore_cells_of_row mc row n Hc Hrow) as Hcells.
  unfold map2 in *. cbn [map combine fst snd repeat].
  rewrite IH. f_equal. rewrite Hcells. reflexivity.
Qed.

Lemma restored_shape (D : list (list R)) mr mc m n :
  length mr = m -> length mc = n -> has_shape m n D -> has_shape m n (restored D mr mc).
Proof.
  intros Hr Hc [Hl Hrows]. unfold restored. split.
  - rewrite length_map2. lia.
  - unfold map2 at 1. apply Forall_map. apply Forall_forall. intros [b row] Hin.
    cbn [fst snd]. apply in_combine_r in Hin. rewrite Forall_forall in Hrows.
    rewrite length_map2, (Hrows row Hin). lia.
Qed.

Lemma nth_restored (D : list (list R)) mr mc m n i k :
  length mr = m -> length mc = n -> has_shape m n D -> (i < m)%nat -> (k < n)%nat ->
  nth k (nth i (restored D mr mc) []) (0, false) =
    if nth i mr false || nth k mc false then (0, true)
    else (nth k (nth i D []) 0, false).
Proof.
  intros Hr Hc [Hl Hrows] Hi Hk. unfold restored.
  rewrite (@nth_map2 _ _ _ _ mr D i [] false []) by lia.
  assert (Hrow : length (nth i D []) = n)
    by (rewrite Forall_forall in Hrows; apply Hrows, nth_In; lia).
  rewrite (@nth_map2 _ _ _ _ mc (nth i D []) k (0, false) false 0) by lia.
  reflexivity.
Qed.

End MaskedRoundTrip.

Section MaskedAdapter.

Import Masked.

Variables (m n : nat) (mask : maskval) (mr mc : list bool).
Hypothesis Hm : (0 < m)%nat.
Hypothesis Hn : (0 < n)%nat.
Hypothesis Hmask : mask_shaped m n mask.
Hypothesis Hrc : _get_masked_rc (mkAnalysis None (m, n)) mask = (mr, mc).

Lemma get_masked_rc_shape self :
  _shape self = (m, n) -> _get_masked_rc self mask = (mr, mc).
Proof.
  intros Hs. rewrite <- Hrc. unfold _get_masked_rc. rewrite Hs. reflexivity.
Qed.

Lemma masked_rc_lengths : length mr = m /\ length mc = n.
Proof.
  unfold _get_masked_rc in Hrc. cbn [_shape fst snd] in Hrc.
  destruct mask as [| b].
  - inversion Hrc. rewrite !repeat_length. split; reflexivity.
  - destruct (np_any (Mask b)); inversion Hrc.
    + rewrite length_all_rows, length_all_columns.
      cbn [mask_shaped] in Hmask. split; [apply Hmask | apply (has_shape_ncols Hmask Hm)].
    + rewrite !repeat_length. split; reflexivity.
Qed.

(** Nothing is flagged, or a row or a column is flagged when all its cells
    are masked. *)
Lemma masked_rc_cases :
  (mr = repeat false m /\ mc = repeat false n) \/
  (exists b, mask = Mask b /\ mr = all_rows b /\ mc = all_columns b).
Proof.
  unfold _get_masked_rc in Hrc. cbn [_shape fst snd] in Hrc.
  destruct mask as [| b].
  - left. inversion Hrc. split; reflexivity.
  - destruct (np_any (Mask b)); inversion Hrc.
    + right. exists b. repeat split.
    + left. split; reflexivity.
Qed.

Lemma masked_rc_flags :
  any mr || any mc = true ->
  exists b, mask = Mask b /\ mr = all_rows b /\ mc = all_columns b.
Proof.
  intros Hany. destruct masked_rc_cases as [[-> ->] | H]; [| exact H].
  rewrite !any_repeat_false in Hany. discriminate.
Qed.

(** With a masked row and a cell of some column unmasked, or the other way
    round: a row that is masked has all its cells masked, so a column with an
    unmasked cell leaves a row unmasked. *)
Lemma unmasked_column_row :
  any mc = false -> (0 < count (map negb mr))%nat.
Proof.
  intros Hc. destruct masked_rc_lengths as [Hlr Hlc].
  destruct (any mr) eqn:Hr.
  - destruct masked_rc_flags as (b & Hb & Hmr & Hmc); [rewrite Hr; reflexivity |].
    rewrite Hb in Hmask. cbn [mask_shaped] in Hmask.
    assert (H0 : nth 0 mc false = false).
    { rewrite (any_false _ Hc). destruct (length mc); [reflexivity |]. reflexivity. }
    rewrite Hmc in H0. unfold all_columns in H0.
    rewrite (has_shape_ncols Hmask Hm) in H0.
    rewrite (nth_indep _ false (forallb (fun r => nth 0 r false) b)) in H0
      by (rewrite length_map, length_seq; exact Hn).
    rewrite (map_nth (fun c => forallb (fun r => nth c r false) b) (seq 0 n) 0%nat 0) in H0.
    rewrite seq_nth in H0 by exact Hn. cbn [Nat.add] in H0.
    destruct (@unmasked_cell_row b n 0) as (i & Hi & Hf);
      [apply Hmask | exact Hn | exact H0 |].
    apply (@count_pos _ i).
    + rewrite length_map, Hmr, length_all_rows. exact Hi.
    + rewrite (nth_indep _ false (negb false))
        by (rewrite length_map, Hmr, length_all_rows; exact Hi).
      rewrite map_nth. rewrite Hmr. unfold all_rows.
      rewrite (nth_indep _ false (forallb (fun x : bool => x) []))
        by (rewrite length_map; exact Hi).
      rewrite map_nth, Hf. reflexivity.
  - rewrite count_negb_all by exact Hr. lia.
Qed.

Lemma unmasked_row_column :
  any mr = false -> (0 < count (map negb mc))%nat.
Proof.
  intros Hr. destruct masked_rc_lengths as [Hlr Hlc].
  destruct (any mc) eqn:Hc.
  - destruct masked_rc_flags as (b & Hb & Hmr & Hmc); [rewrite Hc; apply orb_true_r |].
    rewrite Hb in Hmask. cbn [mask_shaped] in Hmask.
    assert (H0 : nth 0 mr false = false).
    { rewrite (any_false _ Hr). destruct (length mr); reflexivity. }
    rewrite Hmr in H0. unfold all_rows in H0.
    assert (Hb0 : (0 < length b)%nat) by (destruct Hmask as [-> _]; exact Hm).
    rewrite (nth_indep _ false (forallb (fun x : bool => x) [])) in H0
      by (rewrite length_map; exact Hb0).
    rewrite map_nth in H0.
    destruct (@unmasked_cell_column b n 0) as (c & Hcn & Hf);
      [apply Hmask | exact Hb0 | exact H0 |].
    apply (@count_pos _ c).
    + rewrite length_map, Hlc. exact Hcn.
    + rewrite (nth_indep _ false (negb false)) by (rewrite length_map, Hlc; exact Hcn).
      rewrite map_nth. rewrite Hmc. unfold all_columns.
      rewrite (has_shape_ncols Hmask Hm).
      rewrite (nth_indep _ false (forallb (fun r => nth 0 r false) b))
        by (rewrite length_map, length_seq; exact Hcn).
      rewrite (map_nth (fun c => forallb (fun r => nth c r false) b) (seq 0 n) 0%nat c).
      rewrite seq_nth by exact Hcn. cbn [Nat.add]. rewrite Hf. reflexivity.
  - rewrite count_negb_all by exact Hc. lia.
Qed.

Let self' : AnalysisConfigurable := {| _X_mask := Some mask; _shape := (m, n) |}.

Lemma forallb_zeros_rows (keep : list bool) k c :
  length keep = c ->
  forallb (fun r : list (R * bool) => length keep =? length r)%nat (ma_zeros k c) = true.
Proof.
  intros <-. unfold ma_zeros, full. induction k as [| k IH]; simpl; [reflexivity |].
  rewrite repeat_length, Nat.eqb_refl, IH. reflexivity.
Qed.

Lemma nth_zeros i k c : (i < k)%nat -> nth i (ma_zeros k c) [] = repeat (0, false) c.
Proof.
  intros Hi. unfold ma_zeros, full.
  apply (@nth_repeat_lt _ (repeat (0, false) c)). exact Hi.
Qed.

(** The restoration of the rows alone, as [reduce] asks for it. *)
Lemma restore_rows_eq (D : list (list (R * bool))) k axis :
  axis = AxisInt 0 \/ axis = AxisInt (-2) \/ (axis = both /\ any mc = false) ->
  has_shape (count (map negb mr)) k D -> (0 < count (map negb mr))%nat ->
  _restore_masked_data self' D axis =
    inr (if any mr
         then map2 (fun (b : bool) r => if b then map set_masked r else r) mr
                   (scatter (map negb mr) (ma_zeros m k) D)
         else D).
Proof.
  intros Haxis HDs HM. destruct masked_rc_lengths as [Hlr Hlc].
  unfold _restore_masked_data. cbn [_X_mask _shape self'].
  rewrite (@get_masked_rc_shape self' eq_refl).
  assert (Hax : (if axis_eq axis (AxisInt (-1)) || axis_eq axis (AxisInt 1)
                     || axis_eq axis both then any mc else false) = false /\
                axis_eq axis (AxisInt (-2)) || axis_eq axis (AxisInt 0) || axis_eq axis both
                = true)
    by (destruct Haxis as [-> | [-> | [-> Hc]]]; split; reflexivity || exact Hc).
  destruct Hax as [Hcol ->].
  destruct (axis_eq axis (AxisInt (-1)) || axis_eq axis (AxisInt 1) || axis_eq axis both);
    rewrite ?Hcol; cbn [bind ret];
    (destruct (any mr); [| reflexivity]);
    unfold assign_rows, mask_rows;
    rewrite (has_shape_ncols HDs HM);
    (replace (length (map negb mr) =? length (ma_zeros m k))%nat with true
      by (symmetry; apply Nat.eqb_eq; rewrite length_map; unfold ma_zeros, full;
          rewrite repeat_length; exact Hlr));
    rewrite (broadcast_to_same HDs); cbn [bind ret];
    (replace (length mr =? length (scatter (map negb mr) (ma_zeros m k) D))%nat with true
      by (symmetry; apply Nat.eqb_eq; rewrite length_scatter; unfold ma_zeros, full;
          rewrite repeat_length; exact Hlr));
    reflexivity.
Qed.

Lemma forallb_rows_length (T : Type) (keep : list bool) (A : list (list T)) c :
  length keep = c -> Forall (fun r => length r = c) A ->
  forallb (fun r => length keep =? length r)%nat A = true.
Proof.
  intros <- HA. induction A as [| r A IH]; simpl; [reflexivity |].
  apply Forall_cons_iff in HA as [Hr HA]. rewrite Hr, Nat.eqb_refl, IH by exact HA.
  reflexivity.
Qed.

Lemma scatter_rows_shape (D : list (list (R * bool))) k :
  length D = k ->
  has_shape k n (map2 (scatter (map negb mc)) (ma_zeros k n) D).
Proof.
  intros HDl. split.
  - rewrite length_map2. unfold ma_zeros, full. rewrite repeat_length. lia.
  - unfold map2. apply Forall_map. apply Forall_forall. intros [z r] Hin.
    cbn [fst snd]. rewrite length_scatter.
    apply in_combine_l in Hin. unfold ma_zeros, full in Hin.
    apply repeat_spec in Hin. subst z. apply repeat_length.
Qed.

(** The restoration of the columns alone, as [get_components] asks for it. *)
Lemma restore_columns_eq (D : list (list (R * bool))) k axis :
  axis = AxisInt 1 \/ axis = AxisInt (-1) \/ (axis = both /\ any mr = false) ->
  has_shape k (count (map negb mc)) D ->
  _restore_masked_data self' D axis =
    inr (if any mc
         then map (fun r => map2 (fun (b : bool) c => if b then set_masked c else c) mc r)
                  (map2 (scatter (map negb mc)) (ma_zeros k n) D)
         else D).
Proof.
  intros Haxis HDs. destruct masked_rc_lengths as [Hlr Hlc].
  unfold _restore_masked_data. cbn [_X_mask _shape self'].
  rewrite (@get_masked_rc_shape self' eq_refl).
  assert (Hax : axis_eq axis (AxisInt (-1)) || axis_eq axis (AxisInt 1) || axis_eq axis both
                = true /\
                (if axis_eq axis (AxisInt (-2)) || axis_eq axis (AxisInt 0)
                    || axis_eq axis both then any mr else false) = false)
    by (destruct Haxis as [-> | [-> | [-> Hr]]]; split; reflexivity || exact Hr).
  destruct Hax as [-> Hrow].
  assert (Hstage : forall D' : list (list (R * bool)),
            (if axis_eq axis (AxisInt (-2)) || axis_eq axis (AxisInt 0) || axis_eq axis both
             then if any mr
                  then Dtemp <- assign_rows (ncols D) (ma_zeros m (ncols D)) (map negb mr) D' ;;
                       mask_rows Dtemp mr
                  else ret D'
             else ret D') = inr D').
  { intros D'.
    destruct (axis_eq axis (AxisInt (-2)) || axis_eq axis (AxisInt 0) || axis_eq axis both);
      [rewrite Hrow |]; reflexivity. }
  destruct (any mc); [| cbn [bind]; apply Hstage].
  unfold assign_columns, mask_columns.
  destruct HDs as [HDl HDr]. rewrite HDl.
  rewrite forallb_zeros_rows by (rewrite length_map; exact Hlc).
  unfold ma_zeros at 1, full at 1. rewrite repeat_length.
  rewrite (@broadcast_to_same _ k (count (map negb mc)) D) by (split; assumption).
  cbn [bind ret].
  rewrite (@forallb_rows_length _ mc _ n Hlc) by (apply scatter_rows_shape; exact HDl).
  cbn [bind]. apply Hstage.
Qed.

Lemma Forall_map2_masked (T : Type) (P : T -> Prop) (f : T -> T) (sel : list bool) l :
  (forall y, P y -> P (f y)) -> Forall P l ->
  Forall P (map2 (fun (k : bool) y => if k then f y else y) sel l).
Proof.
  intros Hf. unfold map2. revert l. induction sel as [| k ks IH]; intros [| y l] Hl; simpl;
    try constructor.
  - apply Forall_cons_iff in Hl as [Hy Hl]. destruct k; [apply Hf |]; exact Hy.
  - apply Forall_cons_iff in Hl as [Hy Hl]. apply IH. exact Hl.
Qed.

(** X13.  The rows put back ([axis] 0, as [reduce] and [transform] ask): the
    array returned has one row per row of the input dataset; the rows that
    were not masked are those of [D], in their order; a row that was masked
    is masked in all its cells. *)
Theorem restore_masked_rows (D : list (list (R * bool))) k axis :
  axis = AxisInt 0 \/ axis = AxisInt (-2) ->
  has_shape (count (map negb mr)) k D -> (0 < count (map negb mr))%nat ->
  exists Rs,
    _restore_masked_data self' D axis = inr Rs /\
    has_shape m k Rs /\
    compress (map negb mr) Rs = D /\
    (forall i, nth i mr false = true -> nth i Rs [] = repeat (0, true) k) /\
    (any mr = false -> Rs = D).
Proof.
  intros Haxis HDs HM. destruct masked_rc_lengths as [Hlr Hlc].
  rewrite (@restore_rows_eq D k axis) by (tauto || assumption). eexists. split; [reflexivity |].
  destruct (any mr) eqn:Hany.
  - assert (Hls : length (scatter (map negb mr) (ma_zeros m k) D) = m)
      by (rewrite length_scatter; unfold ma_zeros, full; apply repeat_length).
    assert (Hrs : Forall (fun r => length r = k) (scatter (map negb mr) (ma_zeros m k) D)).
    { apply Forall_scatter; [| apply HDs].
      apply (has_shape_full m k (0, false)). }
    split; [split |].
    + rewrite length_map2. lia.
    + apply Forall_map2_masked; [| exact Hrs].
      intros y Hy. rewrite length_map. exact Hy.
    + split; [| split; [| discriminate]].
      * rewrite compress_map2_outside by lia.
        apply compress_scatter.
        -- rewrite length_map. unfold ma_zeros, full. rewrite repeat_length. exact Hlr.
        -- apply HDs.
      * intros i Hi.
        assert (Hlt : (i < m)%nat).
        { destruct (Nat.lt_ge_cases i m) as [Hlt | Hge]; [exact Hlt |].
          rewrite nth_overflow in Hi by lia. discriminate. }
        rewrite (@nth_map2_masked _ (map set_masked)) by (lia || exact Hi).
        rewrite nth_scatter_base.
        -- rewrite nth_zeros by exact Hlt. rewrite map_repeat. reflexivity.
        -- rewrite (nth_indep _ true (negb false)) by (rewrite length_map; lia).
           rewrite map_nth, Hi. reflexivity.
  - rewrite (count_negb_all _ Hany) in HDs. rewrite Hlr in HDs.
    split; [exact HDs |]. split; [| split; [| reflexivity]].
    + rewrite (any_false _ Hany), Hlr. destruct HDs as [<- _]. apply compress_all.
    + intros i Hi. rewrite (any_false _ Hany) in Hi.
      destruct (Nat.lt_ge_cases i (length mr)) as [Hlt | Hge].
      * rewrite nth_repeat_lt in Hi by exact Hlt. discriminate.
      * rewrite nth_overflow in Hi by (rewrite repeat_length; lia). discriminate.
Qed.

Lemma compress_cells_of_row (r : list (R * bool)) :
  length r = count (map negb mc) ->
  compress (map negb mc)
    (map2 (fun (b : bool) c => if b then set_masked c else c) mc
          (scatter (map negb mc) (repeat (0, false) (length mc)) r)) = r.
Proof.
  intros Hr. rewrite compress_map2_outside by (rewrite length_scatter, repeat_length; reflexivity).
  apply compress_scatter; [rewrite length_map, repeat_length; reflexivity | exact Hr].
Qed.

Lemma masked_cell_of_row (r : list (R * bool)) c :
  nth c mc false = true ->
  nth c (map2 (fun (b : bool) y => if b then set_masked y else y) mc
              (scatter (map negb mc) (repeat (0, false) (length mc)) r)) (0, false)
  = (0, true).
Proof.
  intros Hc.
  assert (Hlt : (c < length mc)%nat).
  { destruct (Nat.lt_ge_cases c (length mc)) as [Hlt | Hge]; [exact Hlt |].
    rewrite nth_overflow in Hc by lia. discriminate. }
  rewrite (@nth_map2_masked _ set_masked)
    by (rewrite ?length_scatter, ?repeat_length; reflexivity || exact Hc).
  rewrite nth_scatter_base.
  - rewrite nth_repeat_lt by exact Hlt. reflexivity.
  - rewrite (nth_indep _ true (negb false)) by (rewrite length_map; lia).
    rewrite map_nth, Hc. reflexivity.
Qed.

(** X14.  The columns put back ([axis] 1 or -1, as [get_components] asks): the
    array returned has one column per column of the input dataset, which is
    what [get_components] asserts; the columns that were not masked are
    those of [D], in their order; a column that was masked is masked in all
    its cells. *)
Theorem restore_masked_columns (D : list (list (R * bool))) k axis :
  axis = AxisInt 1 \/ axis = AxisInt (-1) ->
  has_shape k (count (map negb mc)) D -> (0 < k)%nat ->
  exists Rs,
    _restore_masked_data self' D axis = inr Rs /\
    has_shape k n Rs /\ ncols Rs = snd (_shape self') /\
    map (compress (map negb mc)) Rs = D /\
    (forall c r, nth c mc false = true -> In r Rs -> nth c r (0, false) = (0, true)) /\
    (any mc = false -> Rs = D).
Proof.
  intros Haxis HDs Hk. destruct masked_rc_lengths as [Hlr Hlc].
  rewrite (@restore_columns_eq D k axis) by (tauto || assumption). eexists. split; [reflexivity |].
  destruct (any mc) eqn:Hany.
  - pose proof (@scatter_rows_shape D k (proj1 HDs)) as Hsc.
    assert (Hshape : has_shape k n
              (map (fun r => map2 (fun (b : bool) c => if b then set_masked c else c) mc r)
                   (map2 (scatter (map negb mc)) (ma_zeros k n) D))).
    { destruct Hsc as [Hl Hr]. split; [rewrite length_map; exact Hl |].
      apply Forall_map. eapply Forall_impl; [| exact Hr].
      intros r Hrl. cbn beta in *. rewrite length_map2. lia. }
    split; [exact Hshape |].
    split; [cbn [_shape self' snd]; apply (has_shape_ncols Hshape Hk) |].
    split; [| split; [| discriminate]].
    + rewrite map_map. destruct HDs as [HDl HDr]. clear Hshape Hsc. subst k.
      unfold ma_zeros, full, map2. clear Hk. rewrite <- Hlc.
      induction D as [| r D IH]; [reflexivity |].
      apply Forall_cons_iff in HDr as [Hr HDr].
      cbn [length repeat combine map fst snd].
      rewrite (IH HDr). f_equal. apply (compress_cells_of_row _ Hr).
    + intros c r Hc Hin. apply in_map_iff in Hin as (r0 & <- & Hin).
      unfold map2 in Hin. apply in_map_iff in Hin as ([z v] & <- & Hin).
      cbn [fst snd]. apply in_combine_l in Hin. unfold ma_zeros, full in Hin.
      apply repeat_spec in Hin. subst z. rewrite <- Hlc.
      apply masked_cell_of_row. exact Hc.
  - rewrite (count_negb_all _ Hany), Hlc in HDs.
    split; [exact HDs |].
    split; [cbn [_shape self' snd]; apply (has_shape_ncols HDs Hk) |].
    split; [| split; [| reflexivity]].
    + rewrite (any_false _ Hany), Hlc.
      rewrite <- (map_id D) at 2. apply map_ext_in. intros r Hr.
      destruct HDs as [_ HDr]. rewrite Forall_forall in HDr.
      rewrite <- (HDr r Hr). apply compress_all.
    + intros c r Hc _. rewrite (any_false _ Hany) in Hc.
      destruct (Nat.lt_ge_cases c (length mc)) as [Hlt | Hge].
      * rewrite nth_repeat_lt in Hc by exact Hlt. discriminate.
      * rewrite nth_overflow in Hc by (rewrite repeat_length; lia). discriminate.
Qed.

Variables (self : AnalysisConfigurable) (D0 : list (list R)).
Hypothesis HD : has_shape m n D0.

Let X : NDDataset := {| data := D0; _mask := mask |}.
Let stripped : list (list R) :=
  compress (map negb mr) (map (compress (map negb mc)) D0).

Lemma stripped_shape : has_shape (count (map negb mr)) (count (map negb mc)) stripped.
Proof.
  destruct masked_rc_lengths as [Hlr Hlc]. destruct HD as [Hlen Hrows]. unfold stripped. split.
  - apply length_compress. rewrite !length_map. lia.
  - assert (Hall : Forall (fun r => length r = count (map negb mc))
                     (map (compress (map negb mc)) D0)).
    { apply Forall_map. eapply Forall_impl; [| exact Hrows].
      intros r Hr. cbn beta in *. apply length_compress. rewrite length_map. lia. }
    revert Hall. generalize (map (compress (map negb mc)) D0) as A.
    generalize (map negb mr) as keep.
    induction keep as [| k ks IH]; intros [| r A] Hall; simpl; try constructor.
    apply Forall_cons_iff in Hall as [Hr HA].
    destruct k; [constructor; [exact Hr |] |]; apply IH; exact HA.
Qed.

Lemma X_validate_eq :
  _X_validate self X =
    inr ({| _X_mask := Some mask; _shape := (m, n) |},
         {| data := stripped; _mask := NOMASK |}).
Proof.
  destruct masked_rc_lengths as [Hlr Hlc]. destruct HD as [Hlen Hrows].
  unfold _X_validate, _remove_masked_data. cbn [data _mask X _shape _X_mask].
  rewrite Hlen, (has_shape_ncols HD Hm).
  rewrite (@get_masked_rc_shape {| _X_mask := Some mask; _shape := (m, n) |} eq_refl).
  rewrite (@mapM_inr _ _ _ (compress (map negb mc))).
  - cbn [bind]. unfold bool_index. rewrite !length_map.
    replace (length mr =? length D0)%nat with true by (symmetry; apply Nat.eqb_eq; lia).
    reflexivity.
  - intros r Hr. unfold bool_index. rewrite length_map.
    rewrite Forall_forall in Hrows. rewrite (Hrows r Hr), Hlc, Nat.eqb_refl. reflexivity.
Qed.

Lemma both_axes :
  axis_eq both (AxisInt (-1)) || axis_eq both (AxisInt 1) || axis_eq both both = true /\
  axis_eq both (AxisInt (-2)) || axis_eq both (AxisInt 0) || axis_eq both both = true.
Proof. split; reflexivity. Qed.

Lemma strip_restore_one_axis_eq :
  any mr && any mc = false ->
  strip_restore self X = inr (restored D0 mr mc).
Proof.
  intros Hone. destruct masked_rc_lengths as [Hlr Hlc].
  unfold strip_restore. rewrite X_validate_eq. cbn [bind data].
  fold self'.
  destruct (any mc) eqn:Hc.
  - (* columns only *)
    rewrite andb_true_r in Hone.
    assert (Hstripped : stripped = map (compress (map negb mc)) D0).
    { unfold stripped. rewrite (any_false _ Hone), Hlr.
      replace m with (length (map (compress (map negb mc)) D0))
        by (rewrite length_map; apply HD).
      apply compress_all. }
    rewrite (@restore_columns_eq (plain stripped) m both).
    + rewrite Hc, Hstripped. rewrite (@restore_columns_of_data mc D0 m n Hlc HD).
      rewrite (any_false _ Hone), Hlr. reflexivity.
    + right. right. split; [reflexivity | exact Hone].
    + pose proof stripped_shape as Hs. rewrite (count_negb_all _ Hone), Hlr in Hs.
      unfold plain. destruct Hs as [Hl Hr]. split; [rewrite length_map; exact Hl |].
      apply Forall_map. eapply Forall_impl; [| exact Hr].
      intros r Hrl. cbn beta in *. rewrite length_map. exact Hrl.
  - (* rows only, or nothing *)
    assert (Hstripped : stripped = compress (map negb mr) D0).
    { unfold stripped. f_equal. rewrite (any_false _ Hc), Hlc.
      rewrite <- (map_id D0) at 2. apply map_ext_in. intros r Hr.
      destruct HD as [_ HDr]. rewrite Forall_forall in HDr.
      rewrite <- (HDr r Hr). apply compress_all. }
    pose proof (unmasked_column_row Hc) as HM.
    rewrite (@restore_rows_eq (plain stripped) n both).
    + rewrite Hstripped. rewrite (any_false _ Hc), Hlc.
      destruct (any mr) eqn:Hr.
      * apply f_equal. apply (@restore_rows_of_data mr D0 m n Hlr HD).
      * rewrite (any_false _ Hr), Hlr.
        replace m with (length D0) at 1 by apply HD.
        rewrite compress_all. rewrite (restored_unmasked HD). reflexivity.
    + right. right. split; [reflexivity | exact Hc].
    + pose proof stripped_shape as Hs. rewrite (count_negb_all _ Hc), Hlc in Hs.
      unfold plain. destruct Hs as [Hl Hr]. split; [rewrite length_map; exact Hl |].
      apply Forall_map. eapply Forall_impl; [| exact Hr].
      intros r Hrl. cbn beta in *. rewrite length_map. exact Hrl.
    + exact HM.
Qed.

(** X15.  Strip, then restore on both axes, when whole rows are masked or whole
    columns, not both (or nothing is): the array that comes back has the
    shape of the data; the cells of the masked rows or columns are masked
    and hold 0; every other cell holds the data and is not masked, also a
    cell that was masked on its own in the input. *)
Theorem strip_restore_one_axis :
  any mr && any mc = false ->
  exists Rs,
    strip_restore self X = inr Rs /\ has_shape m n Rs /\
    forall i k, (i < m)%nat -> (k < n)%nat ->
      nth k (nth i Rs []) (0, false) =
        if nth i mr false || nth k mc false then (0, true)
        else (nth k (nth i D0 []) 0, false).
Proof.
  intros Hone. destruct masked_rc_lengths as [Hlr Hlc].
  exists (restored D0 mr mc). split; [exact (strip_restore_one_axis_eq Hone) |].
  split; [exact (@restored_shape D0 mr mc m n Hlr Hlc HD) |].
  intros i k Hi Hk. exact (@nth_restored D0 mr mc m n i k Hlr Hlc HD Hi Hk).
Qed.

(** X16.  Strip, then restore on both axes, when a whole row and a whole column
    are masked (and some row is not): the restoration raises.  The columns
    are put back first, which gives [D] the width of the dataset; the rows
    are then assigned to an array allocated with the width read before. *)
Theorem strip_restore_rows_and_columns :
  any mr = true -> any mc = true -> (0 < count (map negb mr))%nat ->
  strip_restore self X = inl ValueError_shape.
Proof.
  intros Hr Hc HM. destruct masked_rc_lengths as [Hlr Hlc].
  destruct masked_rc_flags as (b & Hb & Hmr & Hmc); [rewrite Hr; reflexivity |].
  pose proof stripped_shape as Hs.
  (* a row that is not masked has a cell that is not: its column is not masked *)
  assert (HN : (0 < count (map negb mc))%nat).
  { rewrite Hb in Hmask. cbn [mask_shaped] in Hmask.
    assert (Hex : exists i, (i < m)%nat /\ nth i mr false = false).
    { clear - HM Hlr. revert m Hlr. unfold count in HM.
      induction mr as [| [|] t IH]; intros m Hlr; simpl in *; try lia.
      - destruct m; [lia |]. destruct (IH HM m) as (i & Hi & Hn); [lia |].
        exists (S i). split; [lia | exact Hn].
      - exists 0%nat. split; [lia | reflexivity]. }
    destruct Hex as (i & Hi & Hrow). rewrite Hmr in Hrow. unfold all_rows in Hrow.
    assert (Hib : (i < length b)%nat) by (destruct Hmask as [-> _]; exact Hi).
    rewrite (nth_indep _ false (forallb (fun x : bool => x) [])) in Hrow
      by (rewrite length_map; exact Hib).
    rewrite map_nth in Hrow.
    destruct (@unmasked_cell_column b n i) as (c & Hcn & Hf);
      [apply Hmask | exact Hib | exact Hrow |].
    apply (@count_pos _ c).
    - rewrite length_map, Hlc. exact Hcn.
    - rewrite (nth_indep _ false (negb false)) by (rewrite length_map, Hlc; exact Hcn).
      rewrite map_nth. rewrite Hmc. unfold all_columns.
      rewrite (has_shape_ncols Hmask Hm).
      rewrite (nth_indep _ false (forallb (fun r => nth 0 r false) b))
        by (rewrite length_map, length_seq; exact Hcn).
      rewrite (map_nth (fun c => forallb (fun r => nth c r false) b) (seq 0 n) 0%nat c).
      rewrite seq_nth by exact Hcn. cbn [Nat.add]. rewrite Hf. reflexivity. }
  pose proof (count_negb_lt _ Hc) as Hlt. rewrite Hlc in Hlt.
  assert (Hplain : has_shape (count (map negb mr)) (count (map negb mc)) (plain stripped)).
  { unfold plain. destruct Hs as [Hl Hrows]. split; [rewrite length_map; exact Hl |].
    apply Forall_map. eapply Forall_impl; [| exact Hrows].
    intros r Hrl. cbn beta in *. rewrite length_map. exact Hrl. }
  unfold strip_restore. rewrite X_validate_eq. cbn [bind data]. fold self'.
  unfold _restore_masked_data. cbn [_X_mask _shape self'].
  rewrite (@get_masked_rc_shape self' eq_refl).
  destruct both_axes as [-> ->]. rewrite Hr, Hc.
  unfold assign_columns, mask_columns.
  rewrite forallb_zeros_rows by (rewrite length_map; exact Hlc).
  unfold ma_zeros at 1, full at 1. rewrite repeat_length.
  rewrite (@broadcast_to_same _ _ (count (map negb mc)) (plain stripped))
    by (split; [reflexivity | apply Hplain]).
  cbn [bind ret].
  pose proof (@scatter_rows_shape (plain stripped) _ eq_refl) as Hsc.
  rewrite (@forallb_rows_length _ mc _ n Hlc) by apply Hsc.
  cbn [bind ret].
  rewrite (has_shape_ncols Hplain HM).
  unfold assign_rows.
  replace (length (map negb mr) =? length (ma_zeros m (count (map negb mc))))%nat with true
    by (symmetry; apply Nat.eqb_eq; rewrite length_map; unfold ma_zeros, full;
        rewrite repeat_length; exact Hlr).
  set (D1 := map _ (map2 (scatter (map negb mc)) _ _)).
  assert (HD1 : has_shape (count (map negb mr)) n D1).
  { subst D1. destruct Hsc as [Hl Hrows]. split.
    - rewrite length_map, Hl. apply Hplain.
    - apply Forall_map. eapply Forall_impl; [| exact Hrows].
      intros r Hrl. cbn beta in *. rewrite length_map2. lia. }
  clearbody D1. unfold broadcast_to.
  destruct HD1 as [HD1l HD1r]. rewrite HD1l, Nat.eqb_refl. cbn [bind ret].
  destruct D1 as [| r0 D1]; [simpl in HD1l; lia |].
  apply Forall_inv in HD1r. cbn [mapM].
  unfold broadcast_row at 1.
  replace (length r0 =? count (map negb mc))%nat with false
    by (symmetry; apply Nat.eqb_neq; lia).
  destruct r0 as [| c0 [| c1 r0]]; [reflexivity | simpl in HD1r; lia | reflexivity].
Qed.

(** X12.  What is left after the masked rows and columns are removed: one row per
    row that is not masked, one column per column that is not; the mask of
    the dataset is destroyed, and kept by the estimator with the shape. *)
Theorem stripped_data_shape :
  exists X',
    _X_validate self X = inr ({| _X_mask := Some mask; _shape := (m, n) |}, X') /\
    _mask X' = NOMASK /\
    has_shape (count (map negb mr)) (count (map negb mc)) (data X') /\
    (count (map negb mr) <= m)%nat /\ (count (map negb mc) <= n)%nat /\
    (any mr = false -> any mc = false -> data X' = D0).
Proof.
  destruct masked_rc_lengths as [Hlr Hlc].
  eexists. split; [exact X_validate_eq |]. cbn [_mask data].
  split; [reflexivity |]. split; [exact stripped_shape |].
  split; [rewrite <- Hlr, <- (length_map negb mr); apply count_le |].
  split; [rewrite <- Hlc, <- (length_map negb mc); apply count_le |].
  intros Hr Hc. unfold stripped.
  rewrite (any_false _ Hr), (any_false _ Hc), Hlr, Hlc.
  replace (map (compress (map negb (repeat false n))) D0) with D0.
  - destruct HD as [<- _]. apply compress_all.
  - rewrite <- (map_id D0) at 1. apply map_ext_in. intros r Hin.
    destruct HD as [_ HDr]. rewrite Forall_forall in HDr.
    rewrite <- (HDr r Hin). symmetry. apply compress_all.
Qed.

End MaskedAdapter.

Section MaskedFlags.

Import Masked.

Lemma forallb_nth (l : list bool) n :
  length l = n ->
  (forallb (fun x : bool => x) l = true <-> forall k, (k < n)%nat -> nth k l false = true).
Proof.
  intros <-. rewrite forallb_forall. split.
  - intros H k Hk. apply H. apply nth_In. exact Hk.
  - intros H x Hx. apply (In_nth _ _ false) in Hx as (k & Hk & <-). apply H. exact Hk.
Qed.

Lemma forallb_column (b : list (list bool)) k :
  forallb (fun r => nth k r false) b = true <->
  forall i, (i < length b)%nat -> nth k (nth i b []) false = true.
Proof.
  rewrite forallb_forall. split.
  - intros H i Hi. apply H. apply nth_In. exact Hi.
  - intros H r Hr. apply (In_nth _ _ []) in Hr as (i & Hi & <-). apply H. exact Hi.
Qed.

Lemma nothing_masked (b : list (list bool)) i k :
  existsb any b = false -> nth k (nth i b []) false = false.
Proof.
  intros Hany. destruct (nth k (nth i b []) false) eqn:Hc; [| reflexivity].
  assert (Hi : (i < length b)%nat).
  { destruct (Nat.lt_ge_cases i (length b)) as [H | H]; [exact H |].
    rewrite (nth_overflow b) in Hc by exact H. destruct k; discriminate. }
  assert (Hk : (k < length (nth i b []))%nat).
  { destruct (Nat.lt_ge_cases k (length (nth i b []))) as [H | H]; [exact H |].
    rewrite nth_overflow in Hc by exact H. discriminate. }
  assert (Hex : existsb any b = true).
  { apply existsb_exists. exists (nth i b []). split; [apply nth_In; exact Hi |].
    unfold any. apply existsb_exists. exists true. split; [| reflexivity].
    rewrite <- Hc. apply nth_In. exact Hk. }
  congruence.
Qed.

(** X24.  [_get_masked_rc] gives one flag per row and one per column of the
    dataset; a row is flagged exactly when all its cells are masked, and so
    is a column: a row or a column that is masked in some of its cells only
    is not flagged, and without a mask nothing is. *)
Theorem whole_rows_and_columns_are_flagged (self : AnalysisConfigurable)
  (m n : nat) (mask : maskval) (mr mc : list bool) :
  (0 < m)%nat -> (0 < n)%nat -> _shape self = (m, n) -> mask_shaped m n mask ->
  _get_masked_rc self mask = (mr, mc) ->
  length mr = m /\ length mc = n /\
  (forall i, (i < m)%nat ->
     (nth i mr false = true <->
      exists b, mask = Mask b /\ forall k, (k < n)%nat -> nth k (nth i b []) false = true)) /\
  (forall k, (k < n)%nat ->
     (nth k mc false = true <->
      exists b, mask = Mask b /\ forall i, (i < m)%nat -> nth k (nth i b []) false = true)).
Proof.
  intros Hm Hn Hshape Hmask Hrc.
  assert (Hnone : forall len i, nth i (repeat false len) false = true -> False).
  { intros len i H. destruct (Nat.lt_ge_cases i len) as [Hlt | Hge].
    - rewrite nth_repeat_lt in H by exact Hlt. discriminate.
    - rewrite nth_overflow in H by (rewrite repeat_length; exact Hge). discriminate. }
  unfold _get_masked_rc in Hrc. rewrite Hshape in Hrc. cbn [fst snd] in Hrc.
  destruct mask as [| b].
  - inversion Hrc. subst mr mc. rewrite !repeat_length.
    split; [reflexivity |]. split; [reflexivity |].
    split; intros i Hi; (split; [intros H; exfalso; exact (Hnone _ _ H) |]);
      intros (b & Hb & _); discriminate.
  - cbn [mask_shaped] in Hmask. destruct Hmask as [Hlen Hrows].
    assert (Hcols : ncols b = n).
    { apply has_shape_ncols with (m := m); [split; assumption | exact Hm]. }
    destruct (np_any (Mask b)) eqn:Hany; inversion Hrc; subst mr mc.
    + rewrite length_all_rows, length_all_columns, Hlen, Hcols.
      split; [reflexivity |]. split; [reflexivity |]. split.
      * intros i Hi. unfold all_rows.
        rewrite (@nth_map_lt _ _ (forallb (fun x : bool => x)) b i false [])
          by (rewrite Hlen; exact Hi).
        rewrite (@forallb_nth (nth i b []) n).
        -- split; [intros H; exists b; split; [reflexivity | exact H] |].
           intros (b' & Hb' & H). inversion Hb'. subst b'. exact H.
        -- rewrite Forall_forall in Hrows. apply Hrows. apply nth_In. lia.
      * intros k Hk. unfold all_columns. rewrite Hcols.
        rewrite nth_map_seq by exact Hk. rewrite forallb_column, Hlen.
        split; [intros H; exists b; split; [reflexivity | exact H] |].
        intros (b' & Hb' & H). inversion Hb'. subst b'. exact H.
    + rewrite !repeat_length.
      split; [reflexivity |]. split; [reflexivity |]. cbn [np_any] in Hany.
      split; intros i Hi; (split; [intros H; exfalso; exact (Hnone _ _ H) |]);
        intros (b' & Hb' & H); inversion Hb'; subst b'; exfalso.
      * specialize (H 0%nat Hn). rewrite (nothing_masked _ _ _ Hany) in H. discriminate.
      * specialize (H 0%nat Hm). rewrite (nothing_masked _ _ _ Hany) in H. discriminate.
Qed.

End MaskedFlags.

(** ** The signs of a singular value decomposition *)

Section SvdFlip.

Import AnalysisUtils.

Lemma np_sign_cases y :
  (0 < y /\ np_sign y = 1) \/ (y < 0 /\ np_sign y = -1) \/ (y = 0 /\ np_sign y = 0).
Proof.
  unfold np_sign. destruct (Rlt_dec 0 y); [left; split; [assumption | reflexivity] |].
  destruct (Rlt_dec y 0); [right; left; split; [assumption | reflexivity] |].
  right. right. split; [lra | reflexivity].
Qed.

Lemma np_sign_abs y : y * np_sign y = Rabs y.
Proof.
  destruct (np_sign_cases y) as [[H ->] | [[H ->] | [H ->]]].
  - rewrite Rabs_right by lra. ring.
  - rewrite Rabs_left by lra. ring.
  - subst y. rewrite Rabs_R0. ring.
Qed.

Lemma np_sign_square y x : (np_sign y = 0 -> x = 0) -> x * np_sign y * np_sign y = x.
Proof.
  intros H0. destruct (np_sign_cases y) as [[H Hs] | [[H Hs] | [H Hs]]].
  - rewrite Hs. ring.
  - rewrite Hs. ring.
  - rewrite (H0 Hs). ring.
Qed.

(** The sum of the products is that of the factors without their signs. *)
Lemma dotp_scaled (r v sg : list R) :
  length r = length sg -> length v = length sg ->
  (forall i, (i < length sg)%nat ->
             nth i r 0 * nth i v 0 * (nth i sg 0 * nth i sg 0) = nth i r 0 * nth i v 0) ->
  dotp (map2 Rmult r sg) (map2 (fun a y => a * y) v sg) = dotp r v.
Proof.
  unfold dotp, map2, vsum. revert r v.
  induction sg as [| y sg IH]; intros [| a r] [| b v] Hr Hv H; simpl in *; try lia;
    try reflexivity.
  rewrite IH by (lia || (intros i Hi; apply (H (S i)); lia)).
  specialize (H 0%nat ltac:(lia)). simpl in H. lra.
Qed.

Lemma map2_map_seq (T V : Type) (f : T -> nat -> V) (g : nat -> T) l :
  map2 f (map g l) l = map (fun c => f (g c) c) l.
Proof.
  unfold map2. induction l as [| c l IH]; simpl; [reflexivity |]. rewrite IH. reflexivity.
Qed.

Lemma nth_scaled c y (r : list R) : nth c (map (fun a => a * y) r) 0 = nth c r 0 * y.
Proof.
  replace 0 with (0 * y) at 1 by ring.
  apply (map_nth (fun a => a * y)).
Qed.

Lemma column_scale_rows (A : list (list R)) (sg : list R) c :
  column (map2 (fun r y => map (fun a => a * y) r) A sg) c
  = map2 (fun a y => a * y) (column A c) sg.
Proof.
  unfold column, map2. revert sg. induction A as [| r A IH]; intros [| y sg]; simpl;
    try reflexivity.
  rewrite IH, nth_scaled. reflexivity.
Qed.

Lemma nth_abs_column (A : list (list R)) c i :
  (i < length A)%nat -> nth i (map Rabs (column A c)) 0 = Rabs (nth c (nth i A []) 0).
Proof.
  intros Hi. unfold column.
  rewrite (@nth_map_lt _ _ Rabs _ i 0 0) by (rewrite length_map; exact Hi).
  rewrite (@nth_map_lt _ _ (fun r => nth c r 0) A i 0 []) by exact Hi.
  reflexivity.
Qed.

Lemma argmax_abs_columns_ok (A : list (list R)) :
  (0 < length A)%nat ->
  argmax_abs_columns A =
    inr (map (fun c => np_argmax (map Rabs (column A c))) (seq 0 (ncols A))).
Proof. destruct A; simpl; [lia | reflexivity]. Qed.

Section ColumnsOfU.

Variables (U VT : list (list R)) (m k n : nat).
Hypothesis HU : has_shape m k U.
Hypothesis HVT : has_shape k n VT.
Hypothesis Hm : (0 < m)%nat.
Hypothesis Hk : (0 < k)%nat.

(** The row of the entry of largest absolute value of column [c], and the
    sign of that entry. *)
Let a (c : nat) : nat := np_argmax (map Rabs (column U c)).
Let sg : list R := column_signs U k.

Lemma length_sg : length sg = k.
Proof. unfold sg, column_signs. rewrite length_map, length_seq. reflexivity. Qed.

Lemma nth_sg c : (c < k)%nat -> nth c sg 0 = np_sign (nth c (nth (a c) U []) 0).
Proof. intros Hc. unfold sg, column_signs. rewrite nth_map_seq by exact Hc. reflexivity. Qed.

Lemma a_lt c : (a c < m)%nat.
Proof.
  unfold a. apply np_argmax_lt; [| exact Hm].
  rewrite length_map, column_length. apply HU.
Qed.

(** The entry chosen in a column bounds the column. *)
Lemma a_max c i : (i < m)%nat ->
  Rabs (nth c (nth i U []) 0) <= Rabs (nth c (nth (a c) U []) 0).
Proof.
  intros Hi. destruct HU as [Hlen _].
  destruct (@np_argmax_first_max (map Rabs (column U c))) as (Hlt & Hall & _).
  - intros Hnil. apply (f_equal (@length R)) in Hnil.
    rewrite length_map, column_length in Hnil. simpl in Hnil. lia.
  - rewrite length_map, column_length in Hlt, Hall.
    specialize (Hall i ltac:(lia)).
    rewrite !nth_abs_column in Hall by lia. exact Hall.
Qed.

Lemma zero_sign_zero_column c i :
  (c < k)%nat -> (i < m)%nat -> nth c sg 0 = 0 -> nth c (nth i U []) 0 = 0.
Proof.
  intros Hc Hi Hs. rewrite nth_sg in Hs by exact Hc.
  destruct (np_sign_cases (nth c (nth (a c) U []) 0)) as [[_ H] | [[_ H] | [H _]]];
    [rewrite H in Hs; lra | rewrite H in Hs; lra |].
  pose proof (a_max c Hi) as Hle. rewrite H, Rabs_R0 in Hle.
  pose proof (Rabs_pos (nth c (nth i U []) 0)) as Hpos.
  destruct (Req_dec (nth c (nth i U []) 0) 0) as [Hz | Hnz]; [exact Hz |].
  apply Rabs_pos_lt in Hnz. lra.
Qed.

Lemma svd_flip_u_eq :
  _svd_flip U VT true =
    inr (map (fun r => map2 Rmult r sg) U,
         map2 (fun r y => map (fun b => b * y) r) VT sg).
Proof.
  unfold _svd_flip.
  rewrite argmax_abs_columns_ok by (destruct HU as [-> _]; exact Hm).
  cbn [bind ret]. rewrite (has_shape_ncols HU Hm).
  rewrite (map2_map_seq (fun i c => np_sign (nth c (row U i) 0))
                        (fun c => np_argmax (map Rabs (column U c)))).
  unfold scale_columns, scale_rows.
  rewrite (has_shape_ncols HU Hm).
  pose proof length_sg as Hl. unfold sg, column_signs, a in Hl |- *.
  rewrite (broadcast_row_same _ Hl). cbn [bind ret].
  rewrite (proj1 HVT).
  rewrite (broadcast_row_same _ Hl). reflexivity.
Qed.

Let U' : list (list R) := map (fun r => map2 Rmult r sg) U.
Let VT' : list (list R) := map2 (fun r y => map (fun b => b * y) r) VT sg.

Lemma flipped_U_shape : has_shape m k U'.
Proof.
  destruct HU as [Hl Hr]. unfold U'. split; [rewrite length_map; exact Hl |].
  apply Forall_map. eapply Forall_impl; [| exact Hr].
  intros r Hrl. cbn beta in *. rewrite length_map2, length_sg. lia.
Qed.

Lemma flipped_VT_shape : has_shape k n VT'.
Proof.
  destruct HVT as [Hl Hr]. unfold VT'. split; [rewrite length_map2, length_sg; lia |].
  unfold map2. apply Forall_map. apply Forall_forall. intros [r y] Hin.
  cbn [fst snd]. apply in_combine_l in Hin. rewrite Forall_forall in Hr.
  rewrite length_map. apply Hr. exact Hin.
Qed.

Lemma nth_flipped_U i c :
  (i < m)%nat -> (c < k)%nat ->
  nth c (nth i U' []) 0 = nth c (nth i U []) 0 * nth c sg 0.
Proof.
  intros Hi Hc. destruct HU as [Hl Hr]. unfold U'.
  rewrite (@nth_map_lt _ _ (fun r => map2 Rmult r sg) U i [] []) by lia.
  assert (Hrow : length (nth i U []) = k)
    by (rewrite Forall_forall in Hr; apply Hr, nth_In; lia).
  rewrite (@nth_map2 _ _ _ _ (nth i U []) sg c 0 0 0) by (rewrite ?length_sg; lia).
  reflexivity.
Qed.

Lemma flipped_product : matmul U' VT' = matmul U VT.
Proof.
  unfold matmul.
  rewrite (has_shape_ncols flipped_VT_shape Hk), (has_shape_ncols HVT Hk).
  unfold U' at 1. rewrite map_map. apply map_ext_in. intros r Hr.
  apply map_ext_in. intros c _. unfold VT'. rewrite column_scale_rows.
  assert (Hrow : length r = k)
    by (destruct HU as [_ Hall]; rewrite Forall_forall in Hall; apply Hall, Hr).
  apply dotp_scaled.
  - rewrite length_sg. exact Hrow.
  - rewrite column_length, length_sg. apply HVT.
  - rewrite length_sg. intros i Hi.
    apply In_nth with (d := []) in Hr. destruct Hr as (i0 & Hi0 & <-).
    destruct HU as [Hlen _]. rewrite Hlen in Hi0.
    destruct (Req_dec (nth i sg 0) 0) as [Hz | Hnz].
    + rewrite (zero_sign_zero_column Hi Hi0 Hz). ring.
    + rewrite nth_sg in * by exact Hi.
      destruct (np_sign_cases (nth i (nth (a i) U []) 0)) as [[_ H] | [[_ H] | [_ H]]];
        rewrite H in *; [ring | ring | contradiction].
Qed.

(** X17.  The signs are chosen on the columns of [U] (the default): the arrays
    returned have the shapes of [U] and [VT], and their product is the
    product of [U] and [VT]. *)
Theorem svd_flip_keeps_product :
  exists U1 VT1,
    _svd_flip U VT true = inr (U1, VT1) /\
    has_shape m k U1 /\ has_shape k n VT1 /\
    matmul U1 VT1 = matmul U VT.
Proof.
  exists U', VT'. split; [exact svd_flip_u_eq |].
  split; [exact flipped_U_shape |]. split; [exact flipped_VT_shape |].
  exact flipped_product.
Qed.

(** X18.  The signs are chosen on the columns of [U]: an entry of the [U]
    returned is the entry of [U] up to its sign, and in every column an entry
    of largest absolute value is positive or null. *)
Theorem svd_flip_sign_convention :
  exists U1 VT1,
    _svd_flip U VT true = inr (U1, VT1) /\
    (forall i c, (i < m)%nat -> (c < k)%nat ->
       Rabs (nth c (nth i U1 []) 0) = Rabs (nth c (nth i U []) 0)) /\
    (forall c, (c < k)%nat ->
       exists i0, (i0 < m)%nat /\
         nth c (nth i0 U1 []) 0 = Rabs (nth c (nth i0 U []) 0) /\
         forall i, (i < m)%nat -> Rabs (nth c (nth i U1 []) 0) <= nth c (nth i0 U1 []) 0).
Proof.
  exists U', VT'. split; [exact svd_flip_u_eq |].
  assert (Habs : forall i c, (i < m)%nat -> (c < k)%nat ->
            Rabs (nth c (nth i U' []) 0) = Rabs (nth c (nth i U []) 0)).
  { intros i c Hi Hc. rewrite nth_flipped_U by assumption.
    destruct (Req_dec (nth c sg 0) 0) as [Hz | Hnz].
    - rewrite (zero_sign_zero_column Hc Hi Hz), Hz. f_equal. ring.
    - rewrite nth_sg in * by exact Hc.
      destruct (np_sign_cases (nth c (nth (a c) U []) 0)) as [[_ H] | [[_ H] | [_ H]]];
        rewrite H in *; [f_equal; ring | | contradiction].
      rewrite <- (Rabs_Ropp (nth c (nth i U []) 0)). f_equal. ring. }
  split; [exact Habs |].
  intros c Hc. exists (a c). split; [apply a_lt |].
  assert (Hval : nth c (nth (a c) U' []) 0 = Rabs (nth c (nth (a c) U []) 0)).
  { rewrite nth_flipped_U by (apply a_lt || exact Hc).
    rewrite nth_sg by exact Hc. apply np_sign_abs. }
  split; [exact Hval |].
  intros i Hi. rewrite Habs by assumption. rewrite Hval. apply a_max. exact Hi.
Qed.

End ColumnsOfU.

Lemma map2_absorb (r sg sg2 : list R) :
  Forall2 (fun y y2 => y * y2 = y) sg sg2 ->
  map2 Rmult (map2 Rmult r sg) sg2 = map2 Rmult r sg.
Proof.
  intros H. revert r. unfold map2.
  induction H as [| y y2 sg sg2 Hy _ IH]; intros [| b r]; simpl; try reflexivity.
  rewrite IH. f_equal. rewrite Rmult_assoc, Hy. reflexivity.
Qed.

Lemma scale_rows_absorb (A : list (list R)) (sg sg2 : list R) :
  Forall2 (fun y y2 => y * y2 = y) sg sg2 ->
  map2 (fun r y => map (fun b => b * y) r)
       (map2 (fun r y => map (fun b => b * y) r) A sg) sg2
  = map2 (fun r y => map (fun b => b * y) r) A sg.
Proof.
  intros H. revert A. unfold map2.
  induction H as [| y y2 sg sg2 Hy _ IH]; intros [| r A]; simpl; try reflexivity.
  rewrite IH. f_equal. rewrite map_map. apply map_ext. intros b.
  rewrite Rmult_assoc, Hy. reflexivity.
Qed.

Lemma Forall2_map_seq (f g : nat -> R) (P : R -> R -> Prop) k :
  (forall c, (c < k)%nat -> P (f c) (g c)) ->
  Forall2 P (map f (seq 0 k)) (map g (seq 0 k)).
Proof.
  intros H. assert (Hin : forall c, In c (seq 0 k) -> P (f c) (g c))
    by (intros c Hc; apply in_seq in Hc; apply H; lia).
  clear H. induction (seq 0 k) as [| c l IH]; simpl; constructor.
  - apply Hin. left. reflexivity.
  - apply IH. intros c' Hc'. apply Hin. right. exact Hc'.
Qed.

(** X19.  Flipping twice is flipping once: [_svd_flip], with the signs chosen on
    the columns of [U], gives back the arrays it has returned. *)
Theorem svd_flip_idempotent (U VT : list (list R)) (m k n : nat) :
  has_shape m k U -> has_shape k n VT -> (0 < m)%nat -> (0 < k)%nat ->
  exists U1 VT1,
    _svd_flip U VT true = inr (U1, VT1) /\
    _svd_flip U1 VT1 true = inr (U1, VT1).
Proof.
  intros HU HVT Hm Hk.
  pose proof (flipped_U_shape HU Hm Hk) as HU1.
  pose proof (flipped_VT_shape U HVT Hm Hk) as HVT1.
  do 2 eexists. split; [exact (svd_flip_u_eq HU HVT Hm) |].
  rewrite (svd_flip_u_eq HU1 HVT1 Hm).
  set (U1 := map (fun r => map2 Rmult r (column_signs U k)) U) in *.
  assert (Hsg : Forall2 (fun y y2 => y * y2 = y) (column_signs U k) (column_signs U1 k)).
  { unfold column_signs at 1 2. apply Forall2_map_seq. intros c Hc.
    fold (row U1 (np_argmax (map Rabs (column U1 c)))).
    assert (Hcol : map Rabs (column U1 c) = map Rabs (column U c)).
    { apply (nth_ext _ _ 0 0).
      - rewrite !length_map, !column_length. destruct HU as [-> _], HU1 as [-> _].
        reflexivity.
      - intros i Hi. rewrite length_map, column_length in Hi.
        destruct HU1 as [Hl1 _]. rewrite Hl1 in Hi.
        rewrite !nth_abs_column by (destruct HU as [HlU _]; lia).
        unfold U1. rewrite (nth_flipped_U HU Hm Hk Hi Hc).
        destruct (Req_dec (nth c (column_signs U k) 0) 0) as [Hz | Hnz].
        + rewrite (zero_sign_zero_column HU Hm Hk Hc Hi Hz), Hz. f_equal. ring.
        + rewrite nth_sg in * by exact Hc.
          destruct (np_sign_cases
                      (nth c (nth (np_argmax (map Rabs (column U c))) U []) 0))
            as [[_ H] | [[_ H] | [_ H]]]; rewrite H in *; [f_equal; ring | | contradiction].
          rewrite <- (Rabs_Ropp (nth c (nth i U []) 0)). f_equal. ring. }
    rewrite Hcol. unfold row.
    set (i0 := np_argmax (map Rabs (column U c))).
    assert (Hi0 : (i0 < m)%nat).
    { unfold i0. apply np_argmax_lt; [| exact Hm].
      rewrite length_map, column_length. apply HU. }
    unfold U1. rewrite (nth_flipped_U HU Hm Hk Hi0 Hc).
    rewrite nth_sg by exact Hc. fold i0.
    rewrite np_sign_abs.
    destruct (np_sign_cases (nth c (nth i0 U []) 0)) as [[Hy H] | [[Hy H] | [Hy H]]];
      rewrite H.
    - rewrite Rabs_right by lra. unfold np_sign.
      destruct (Rlt_dec 0 (nth c (nth i0 U []) 0)); [ring | contradiction].
    - rewrite Rabs_left by lra. unfold np_sign.
      destruct (Rlt_dec 0 (- nth c (nth i0 U []) 0)); [ring | lra].
    - ring. }
  f_equal. f_equal.
  - unfold U1. rewrite map_map. apply map_ext. intros r. apply map2_absorb. exact Hsg.
  - apply scale_rows_absorb. exact Hsg.
Qed.

Lemma map2_map_same (T V W : Type) (f : T -> V -> W) (g : T -> V) l :
  map2 f l (map g l) = map (fun y => f y (g y)) l.
Proof.
  unfold map2. induction l as [| y l IH]; simpl; [reflexivity |]. rewrite IH. reflexivity.
Qed.

Section RowsOfVT.

Variables (U VT : list (list R)) (m k n : nat).
Hypothesis HU : has_shape m k U.
Hypothesis HVT : has_shape k n VT.
Hypothesis Hm : (0 < m)%nat.
Hypothesis Hk : (0 < k)%nat.
Hypothesis Hn : (0 < n)%nat.

Let sg : list R := row_signs VT.

Lemma length_row_signs : length sg = k.
Proof. unfold sg, row_signs. rewrite length_map. apply HVT. Qed.

Lemma nth_row_signs i :
  (i < k)%nat ->
  nth i sg 0 = np_sign (nth (np_argmax (map Rabs (nth i VT []))) (nth i VT []) 0).
Proof.
  intros Hi. unfold sg, row_signs.
  rewrite (@nth_map_lt _ _ _ VT i 0 []) by (destruct HVT as [-> _]; exact Hi).
  reflexivity.
Qed.

Lemma row_of_VT i : (i < k)%nat -> length (nth i VT []) = n.
Proof.
  intros Hi. destruct HVT as [Hl Hr]. rewrite Forall_forall in Hr.
  apply Hr, nth_In. lia.
Qed.

(** The entry chosen in a row bounds the row. *)
Lemma row_max i c : (i < k)%nat -> (c < n)%nat ->
  Rabs (nth c (nth i VT []) 0)
  <= Rabs (nth (np_argmax (map Rabs (nth i VT []))) (nth i VT []) 0).
Proof.
  intros Hi Hc. pose proof (row_of_VT Hi) as Hrow.
  destruct (@np_argmax_first_max (map Rabs (nth i VT []))) as (Hlt & Hall & _).
  - intros Hnil. apply (f_equal (@length R)) in Hnil.
    rewrite length_map in Hnil. simpl in Hnil. lia.
  - rewrite length_map in Hlt, Hall. specialize (Hall c ltac:(lia)).
    rewrite !(@nth_map_lt _ _ Rabs (nth i VT []) _ 0 0) in Hall by lia.
    exact Hall.
Qed.

Lemma zero_sign_zero_row i c :
  (i < k)%nat -> (c < n)%nat -> nth i sg 0 = 0 -> nth c (nth i VT []) 0 = 0.
Proof.
  intros Hi Hc Hs. rewrite nth_row_signs in Hs by exact Hi.
  set (y := nth (np_argmax (map Rabs (nth i VT []))) (nth i VT []) 0) in *.
  destruct (np_sign_cases y) as [[_ H] | [[_ H] | [H _]]];
    [rewrite H in Hs; lra | rewrite H in Hs; lra |].
  pose proof (row_max Hi Hc) as Hle. fold y in Hle. rewrite H, Rabs_R0 in Hle.
  destruct (Req_dec (nth c (nth i VT []) 0) 0) as [Hz | Hnz]; [exact Hz |].
  apply Rabs_pos_lt in Hnz. lra.
Qed.

Lemma svd_flip_v_eq :
  _svd_flip U VT false =
    inr (map (fun r => map2 Rmult r sg) U,
         map2 (fun r y => map (fun b => b * y) r) VT sg).
Proof.
  unfold _svd_flip, argmax_abs_rows.
  rewrite (@mapM_inr _ _ _ (fun r => np_argmax (map Rabs r))).
  - cbn [bind ret]. rewrite map2_map_same. fold (row_signs VT). fold sg.
    unfold scale_columns, scale_rows.
    rewrite (has_shape_ncols HU Hm).
    rewrite (broadcast_row_same _ length_row_signs). cbn [bind ret].
    rewrite (proj1 HVT).
    rewrite (broadcast_row_same _ length_row_signs). reflexivity.
  - intros r Hr. destruct HVT as [_ Hall]. rewrite Forall_forall in Hall.
    specialize (Hall r Hr). destruct r; [simpl in Hall; lia | reflexivity].
Qed.

Let U' : list (list R) := map (fun r => map2 Rmult r sg) U.
Let VT' : list (list R) := map2 (fun r y => map (fun b => b * y) r) VT sg.

Lemma nth_flipped_VT i c :
  (i < k)%nat -> (c < n)%nat ->
  nth c (nth i VT' []) 0 = nth c (nth i VT []) 0 * nth i sg 0.
Proof.
  intros Hi Hc. unfold VT'.
  rewrite (@nth_map2 _ _ _ _ VT sg i [] [] 0)
    by (rewrite ?length_row_signs, ?(proj1 HVT); exact Hi).
  apply nth_scaled.
Qed.

(** X20.  The signs are chosen on the rows of [VT] ([u_based_decision] false):
    the arrays returned have the shapes of [U] and [VT], their product is
    the product of [U] and [VT], and in every row of the [VT] returned an
    entry of largest absolute value is positive or null. *)
Theorem svd_flip_rows_of_VT :
  exists U1 VT1,
    _svd_flip U VT false = inr (U1, VT1) /\
    has_shape m k U1 /\ has_shape k n VT1 /\
    matmul U1 VT1 = matmul U VT /\
    (forall i, (i < k)%nat ->
       exists c0, (c0 < n)%nat /\
         forall c, (c < n)%nat -> Rabs (nth c (nth i VT1 []) 0) <= nth c0 (nth i VT1 []) 0).
Proof.
  exists U', VT'. split; [exact svd_flip_v_eq |].
  assert (HU' : has_shape m k U').
  { destruct HU as [Hl Hr]. unfold U'. split; [rewrite length_map; exact Hl |].
    apply Forall_map. eapply Forall_impl; [| exact Hr].
    intros r Hrl. cbn beta in *. rewrite length_map2, length_row_signs. lia. }
  assert (HVT' : has_shape k n VT').
  { destruct HVT as [Hl Hr]. unfold VT'. split; [rewrite length_map2, length_row_signs; lia |].
    unfold map2. apply Forall_map. apply Forall_forall. intros [r y] Hin.
    cbn [fst snd]. apply in_combine_l in Hin. rewrite Forall_forall in Hr.
    rewrite length_map. apply Hr. exact Hin. }
  split; [exact HU' |]. split; [exact HVT' |]. split.
  - unfold matmul.
    rewrite (has_shape_ncols HVT' Hk), (has_shape_ncols HVT Hk).
    unfold U' at 1. rewrite map_map. apply map_ext_in. intros r Hr.
    apply map_ext_in. intros c Hc. apply in_seq in Hc.
    assert (Hcn : (c < n)%nat) by lia. unfold VT'.
    rewrite column_scale_rows.
    assert (Hrow : length r = k)
      by (destruct HU as [_ Hall]; rewrite Forall_forall in Hall; apply Hall, Hr).
    apply dotp_scaled.
    + rewrite length_row_signs. exact Hrow.
    + rewrite column_length, length_row_signs. apply HVT.
    + rewrite length_row_signs. intros i Hi.
      assert (Hv : nth i (column VT c) 0 = nth c (nth i VT []) 0).
      { unfold column. apply (@nth_map_lt _ _ (fun r => nth c r 0) VT i 0 []).
        destruct HVT as [-> _]. exact Hi. }
      rewrite Hv.
      destruct (Req_dec (nth i sg 0) 0) as [Hz | Hnz].
      * rewrite (zero_sign_zero_row Hi Hcn Hz). ring.
      * rewrite nth_row_signs in * by exact Hi.
        destruct (np_sign_cases
                    (nth (np_argmax (map Rabs (nth i VT []))) (nth i VT []) 0))
          as [[_ H] | [[_ H] | [_ H]]]; rewrite H in *; [ring | ring | contradiction].
  - intros i Hi. exists (np_argmax (map Rabs (nth i VT []))).
    assert (Hc0 : (np_argmax (map Rabs (nth i VT [])) < n)%nat)
      by (apply np_argmax_lt; [rewrite length_map; apply (row_of_VT Hi) | exact Hn]).
    split; [exact Hc0 |]. intros c Hc.
    rewrite !nth_flipped_VT by assumption.
    rewrite (nth_row_signs Hi) at 2. rewrite np_sign_abs.
    destruct (Req_dec (nth i sg 0) 0) as [Hz | Hnz].
    + rewrite (zero_sign_zero_row Hi Hc Hz), Hz.
      replace (0 * 0) with 0 by ring. rewrite Rabs_R0. apply Rabs_pos.
    + rewrite Rabs_mult. rewrite nth_row_signs in * by exact Hi.
      pose proof (row_max Hi Hc) as Hle.
      destruct (np_sign_cases
                  (nth (np_argmax (map Rabs (nth i VT []))) (nth i VT []) 0))
        as [[_ H] | [[_ H] | [_ H]]]; rewrite H in *; [| | contradiction].
      * rewrite Rabs_R1. lra.
      * replace (Rabs (-1)) with 1 by (rewrite Rabs_left; lra). lra.
Qed.

End RowsOfVT.

End SvdFlip.

Section SvdFlipShapes.

Import AnalysisUtils.

Lemma map2_repeat (T V W : Type) (f : T -> V -> W) (l : list T) (y : V) :
  map2 f l (repeat y (length l)) = map (fun a => f a y) l.
Proof.
  unfold map2. induction l as [| a l IH]; simpl; [reflexivity |]. rewrite IH. reflexivity.
Qed.

Lemma broadcast_row_one (T : Type) (y : T) n : broadcast_row n [y] = inr (repeat y n).
Proof.
  unfold broadcast_row. cbn [length].
  destruct (Nat.eqb_spec 1 n) as [<- | _]; reflexivity.
Qed.

(** X25.  [_svd_flip] on arrays that do not go together, the signs being chosen
    on the columns of [U].
    - [U] without rows: [np.argmax] raises.
    - [U] with [k > 1] columns and a [VT] that has not [k] rows: the signs
      cannot be broadcast to the rows of [VT], the multiplication raises.
    - [U] with one column: the one sign is broadcast to all the rows of [VT],
      however many they are, and nothing is raised. *)
Theorem svd_flip_mismatched_shapes (U VT : matrix) (m k : nat) :
  has_shape m k U -> (0 < m)%nat ->
  _svd_flip [] VT true = inl ValueError_empty /\
  ((1 < k)%nat -> length VT <> k -> _svd_flip U VT true = inl ValueError_shape) /\
  (k = 1%nat ->
   exists y, (y = 1 \/ y = -1 \/ y = 0) /\
             _svd_flip U VT true =
               inr (map (map (fun a => a * y)) U, map (map (fun a => a * y)) VT)).
Proof.
  intros HU Hm. split; [reflexivity |].
  assert (Hflip : _svd_flip U VT true =
                  (VT' <- scale_rows VT (column_signs U k) ;;
                   ret (map (fun r => map2 Rmult r (column_signs U k)) U, VT'))).
  { unfold _svd_flip.
    rewrite argmax_abs_columns_ok by (destruct HU as [-> _]; exact Hm).
    cbn [bind ret]. rewrite (has_shape_ncols HU Hm).
    rewrite (map2_map_seq (fun i c => np_sign (nth c (row U i) 0))
                          (fun c => np_argmax (map Rabs (column U c)))).
    fold (column_signs U k). unfold scale_columns.
    rewrite (has_shape_ncols HU Hm), broadcast_row_same
      by (unfold column_signs; rewrite length_map, length_seq; reflexivity).
    reflexivity. }
  assert (Hlen : length (column_signs U k) = k)
    by (unfold column_signs; rewrite length_map, length_seq; reflexivity).
  split.
  - intros Hk HVT. rewrite Hflip. unfold scale_rows, broadcast_row. rewrite Hlen.
    destruct (Nat.eqb_spec k (length VT)) as [Heq | _]; [congruence |].
    destruct (column_signs U k) as [| y [| z t]]; cbn [length] in Hlen; try lia; reflexivity.
  - intros ->. rewrite Hflip.
    destruct (column_signs U 1) as [| y [| z t]] eqn:Hsg; cbn [length] in Hlen; try lia.
    exists y. split.
    + unfold column_signs in Hsg. cbn [seq map] in Hsg. inversion Hsg.
      destruct (np_sign_cases (nth 0 (row U (np_argmax (map Rabs (column U 0)))) 0))
        as [[_ ->] | [[_ ->] | [_ ->]]]; auto.
    + unfold scale_rows. rewrite broadcast_row_one. cbn [bind ret].
      rewrite map2_repeat. unfold ret. apply f_equal. apply f_equal2; [| reflexivity].
      apply map_ext_in. intros r Hr.
      destruct HU as [_ Hrows]. rewrite Forall_forall in Hrows. specialize (Hrows r Hr).
      destruct r as [| a [| a' r]]; cbn [length] in Hrows; try lia.
      unfold map2. reflexivity.
Qed.

End SvdFlipShapes.

(** ** The statements at concrete inputs *)





Lemma tol_ends_batch_run_witness :
  exists st2 rsquare stdev_res st',
    @pass_merit batch e_two_variables st_two_after_first = inr (st2, rsquare, stdev_res) /\
    (0 < j st_two_after_first)%nat /\ 1 - rsquare < tol e_two_variables / 100 /\
    @body batch e_two_variables st_two_after_first = inr st' /\
    j st' = 2%nat /\ finished st' = true /\
    Pt st' = firstn 2 (Pt st2) /\ In (TolReached (tol e_two_variables)) (logs st').
Proof.
  destruct two_variables_first_pass as (_ & _ & Hj & Hfin & _).
  destruct two_variables_second_pass as (st2 & r & sd & Hpass & Htol).
  assert (Hpos : (0 < j st_two_after_first)%nat) by (rewrite Hj; lia).
  destruct (@tol_ends_batch_run batch e_two_variables st_two_after_first st2 r sd
              eq_refl Hfin Hpass) as (st' & Hbody & Hj' & Hconv & _).
  destruct (Hconv Hpos Htol) as (Hfin' & _ & HPt & _ & _ & _ & Hlog).
  assert (Hj2 : j st' = 2%nat) by (rewrite Hj', Hj; reflexivity).
  exists st2, r, sd, st'.
  split; [exact Hpass |]. split; [exact Hpos |]. split; [exact Htol |].
  split; [exact Hbody |]. split; [exact Hj2 |]. split; [exact Hfin' |].
  split; [rewrite <- Hj2; exact HPt | exact Hlog].
Defined.

Lemma batch_run_terminates_witness :
  exists warnings o passes,
    (passes <= 2)%nat /\
    @SIMPLISMA batch X_one_variable no_kwargs [] 2 = (warnings, inr (Some o)) /\
    has_shape 2 passes (_C o) /\ has_shape passes 1 (_St o).
Proof.
  destruct (@batch_run_terminates batch X_one_variable no_kwargs [] 2 1 2)
    as (ws & o & passes & Hp & Hsome & _ & HC & HSt & _).
  - exact lstsq_normal_shaped.
  - exact valid_one_variable.
  - reflexivity.
  - reflexivity.
  - lia.
  - exists ws, o, passes. split; [simpl in Hp; lia |].
    split; [apply Hsome; simpl in Hp; lia |]. split; assumption.
Defined.

Lemma not_valid_n_pc_1 : ~ valid_n_pc (get (kw_n_pc kw_n_pc_1) (PyInt 2)).
Proof. intros (z & Hz & Hle). simpl in Hz. inversion Hz. lia. Qed.

Lemma invalid_n_pc_raises_witness :
  ~ valid_n_pc (get (kw_n_pc kw_n_pc_1) (PyInt 2)) /\
  @SIMPLISMA batch X_one_variable kw_n_pc_1 [] 2 = ([], inl ValueError_n_pc).
Proof.
  split; [exact not_valid_n_pc_1 |].
  destruct (@invalid_n_pc_raises batch X_one_variable kw_n_pc_1 not_valid_n_pc_1)
    as (ex & _ & Hex & Hrun).
  rewrite (Hrun [] 2%nat). subst ex. run_eval.
  destruct (Rlt_dec (Rmin 1 2) 0) as [Hneg | _]; [| reflexivity].
  exfalso. exact (no_negative_one_variable Hneg).
Defined.

Lemma run_keeps_dimensions_witness :
  exists warnings o,
    @SIMPLISMA batch X_one_variable no_kwargs [] 2 = (warnings, inr (Some o)) /\
    length (_C o) = 2%nat /\ Forall (fun r => length r = 1%nat) (_St o).
Proof.
  destruct one_variable_run as (o & c1 & sd1 & r1 & c2 & sd2 & r2 & ends & Hrun & _).
  destruct (@run_keeps_dimensions batch X_one_variable no_kwargs [] 2 2 1 [] o
              valid_one_variable Hrun) as (HC & _ & HSt & _).
  exists [], o. split; [exact Hrun |]. split; assumption.
Defined.


Lemma interactive_keeps_n_pc_check_witness :
  ~ valid_n_pc (get (kw_n_pc kw_n_pc_1) (PyInt 2)) /\
  @SIMPLISMA batch X_one_variable (with_interactive (Some true) kw_n_pc_1) ["a"%string] 2 =
  @SIMPLISMA batch X_one_variable (with_interactive None kw_n_pc_1) [] 2.
Proof.
  split; [exact not_valid_n_pc_1 |].
  destruct (@interactive_keeps_n_pc_check batch X_one_variable kw_n_pc_1) as [Hinv _].
  apply (Hinv not_valid_n_pc_1 None ["a"%string] [] 2%nat 2%nat).
Defined.

Lemma restore_masked_rows_witness :
  exists Rs,
    Masked._restore_masked_data
      {| Masked._X_mask := Some (Masked._mask X_row_masked); Masked._shape := (2, 2)%nat |}
      [[(3, false); (4, false)]] (Masked.AxisInt 0) = inr Rs /\
    has_shape 2 2 Rs /\ nth 0 Rs [] = [(0, true); (0, true)].
Proof.
  destruct (@restore_masked_rows 2 2 (Masked._mask X_row_masked) [true; false] [false; false])
    with (D := [[(3, false); (4, false)]]) (k := 2%nat) (axis := Masked.AxisInt 0)
    as (Rs & Hres & Hshape & _ & Hrow & _).
  - lia.
  - lia.
  - split; [reflexivity | repeat constructor].
  - reflexivity.
  - left. reflexivity.
  - split; [reflexivity | repeat constructor].
  - vm_compute. lia.
  - exists Rs. split; [exact Hres |]. split; [exact Hshape |].
    apply (Hrow 0%nat). reflexivity.
Defined.

Lemma restore_masked_columns_witness :
  exists Rs,
    Masked._restore_masked_data
      {| Masked._X_mask := Some (Masked._mask X_column_masked);
         Masked._shape := (2, 2)%nat |}
      [[(2, false)]; [(4, false)]] (Masked.AxisInt 1) = inr Rs /\
    has_shape 2 2 Rs /\
    map (Masked.compress [false; true]) Rs = [[(2, false)]; [(4, false)]].
Proof.
  destruct (@restore_masked_columns 2 2 (Masked._mask X_column_masked)
              [false; false] [true; false])
    with (D := [[(2, false)]; [(4, false)]]) (k := 2%nat) (axis := Masked.AxisInt 1)
    as (Rs & Hres & Hshape & _ & Hkeep & _).
  - lia.
  - lia.
  - split; [reflexivity | repeat constructor].
  - reflexivity.
  - left. reflexivity.
  - split; [reflexivity | repeat constructor].
  - lia.
  - exists Rs. split; [exact Hres |]. split; [exact Hshape | exact Hkeep].
Defined.

Lemma strip_restore_one_axis_witness :
  exists Rs,
    Masked.strip_restore analysis0 X_column_masked = inr Rs /\ has_shape 2 2 Rs /\
    nth 0 (nth 1 Rs []) (0, false) = (0, true) /\
    nth 1 (nth 1 Rs []) (0, false) = (4, false).
Proof.
  destruct (@strip_restore_one_axis 2 2 (Masked._mask X_column_masked)
              [false; false] [true; false])
    with (self := analysis0) (D0 := Masked.data X_column_masked)
    as (Rs & Hres & Hshape & Hcell).
  - lia.
  - lia.
  - split; [reflexivity | repeat constructor].
  - reflexivity.
  - split; [reflexivity | repeat constructor].
  - reflexivity.
  - exists Rs. split; [exact Hres |]. split; [exact Hshape |].
    split; [apply (Hcell 1%nat 0%nat); lia | apply (Hcell 1%nat 1%nat); lia].
Defined.

Lemma strip_restore_rows_and_columns_witness :
  Masked.strip_restore analysis0 X_row_and_column_masked = inl ValueError_shape.
Proof.
  apply (@strip_restore_rows_and_columns 2 2 (Masked._mask X_row_and_column_masked)
           [true; false] [true; false]).
  - lia.
  - lia.
  - split; [reflexivity | repeat constructor].
  - reflexivity.
  - split; [reflexivity | repeat constructor].
  - reflexivity.
  - reflexivity.
  - vm_compute. lia.
Defined.

Lemma stripped_data_shape_witness :
  exists X',
    Masked._X_validate analysis0 X_row_and_column_masked =
      inr ({| Masked._X_mask := Some (Masked._mask X_row_and_column_masked);
              Masked._shape := (2, 2)%nat |}, X') /\
    Masked._mask X' = Masked.NOMASK /\ has_shape 1 1 (Masked.data X').
Proof.
  destruct (@stripped_data_shape 2 2 (Masked._mask X_row_and_column_masked)
              [true; false] [true; false])
    with (self := analysis0) (D0 := Masked.data X_row_and_column_masked)
    as (X' & Hval & Hmask & Hshape & _).
  - lia.
  - lia.
  - split; [reflexivity | repeat constructor].
  - reflexivity.
  - split; [reflexivity | repeat constructor].
  - exists X'. split; [exact Hval |]. split; [exact Hmask | exact Hshape].
Defined.

Lemma shape_U_two : has_shape 2 2 U_two.
Proof. split; [reflexivity | repeat constructor]. Qed.

Lemma shape_VT_two : has_shape 2 2 VT_two.
Proof. split; [reflexivity | repeat constructor]. Qed.

Lemma svd_flip_keeps_product_witness :
  exists U1 VT1,
    AnalysisUtils._svd_flip U_two VT_two true = inr (U1, VT1) /\
    matmul U1 VT1 = matmul U_two VT_two.
Proof.
  destruct (@svd_flip_keeps_product U_two VT_two 2 2 2 shape_U_two shape_VT_two)
    as (U1 & VT1 & Hflip & _ & _ & Hprod); [lia | lia |].
  exists U1, VT1. split; [exact Hflip | exact Hprod].
Defined.

Lemma svd_flip_sign_convention_witness :
  exists U1 VT1,
    AnalysisUtils._svd_flip U_two VT_two true = inr (U1, VT1) /\
    exists i0, (i0 < 2)%nat /\ nth 0 (nth i0 U1 []) 0 = Rabs (nth 0 (nth i0 U_two []) 0).
Proof.
  destruct (@svd_flip_sign_convention U_two VT_two 2 2 2 shape_U_two shape_VT_two)
    as (U1 & VT1 & Hflip & _ & Hmax); [lia | lia |].
  destruct (Hmax 0%nat) as (i0 & Hi0 & Hpos & _); [lia |].
  exists U1, VT1. split; [exact Hflip |]. exists i0. split; [exact Hi0 | exact Hpos].
Defined.

Lemma svd_flip_idempotent_witness :
  exists U1 VT1,
    AnalysisUtils._svd_flip U_two VT_two true = inr (U1, VT1) /\
    AnalysisUtils._svd_flip U1 VT1 true = inr (U1, VT1).
Proof.
  apply (@svd_flip_idempotent U_two VT_two 2 2 2 shape_U_two shape_VT_two); lia.
Defined.

Lemma svd_flip_rows_of_VT_witness :
  exists U1 VT1,
    AnalysisUtils._svd_flip U_two VT_two false = inr (U1, VT1) /\
    matmul U1 VT1 = matmul U_two VT_two.
Proof.
  destruct (@svd_flip_rows_of_VT U_two VT_two 2 2 2 shape_U_two shape_VT_two)
    as (U1 & VT1 & Hflip & _ & _ & Hprod & _); [lia | lia | lia |].
  exists U1, VT1. split; [exact Hflip | exact Hprod].
Defined.

Lemma inverse_transform_shape_witness :
  exists o,
    @SIMPLISMA batch X_one_variable no_kwargs [] 2 = ([], inr (Some o)) /\
    has_shape 2 1 (inverse_transform o).
Proof.
  destruct one_variable_run as (o & c1 & sd1 & r1 & c2 & sd2 & r2 & ends & Hrun & _).
  destruct (@inverse_transform_shape batch X_one_variable no_kwargs [] 2 2 1 [] o
              valid_one_variable Hrun) as (Hshape & _).
  exists o. split; [exact Hrun | exact Hshape].
Defined.




Lemma purity_and_stdev_spectra_witness :
  exists o e,
    @SIMPLISMA batch X_one_variable no_kwargs [] 2 = ([], inr (Some o)) /\
    configure X_one_variable no_kwargs = inr e /\
    length (_Pt o) = length (_s o).
Proof.
  destruct one_variable_run as (o & c1 & sd1 & r1 & c2 & sd2 & r2 & ends & Hrun & _).
  destruct (@purity_and_stdev_spectra batch X_one_variable no_kwargs [] 2 2 1 [] o
              lstsq_normal_shaped valid_one_variable eq_refl Hrun) as (e & Hconf & Hlen & _).
  exists o, e. split; [exact Hrun |]. split; [exact Hconf | exact Hlen].
Defined.

Lemma batch_log_summaries_witness :
  exists o,
    @SIMPLISMA batch X_one_variable no_kwargs [] 2 = ([], inr (Some o)) /\
    map summary_iteration (filter is_summary (_log o)) = seq 1 (length (_Pt o)).
Proof.
  destruct one_variable_run as (o & c1 & sd1 & r1 & c2 & sd2 & r2 & ends & Hrun & _).
  destruct (@batch_log_summaries batch X_one_variable no_kwargs [] 2 2 1 [] o
              lstsq_normal_shaped valid_one_variable eq_refl Hrun) as (Hseq & _).
  exists o. split; [exact Hrun | exact Hseq].
Defined.

Lemma last_summary_is_reconstruction_witness :
  exists o pre iter index coord stdev_res rsquare ends,
    @SIMPLISMA batch X_one_variable no_kwargs [] 2 = ([], inr (Some o)) /\
    _log o = pre ++ IterSummary iter index coord stdev_res rsquare :: ends /\
    stdev_res =
      np_std (flatten (msub (inverse_transform o) (Simplisma.data X_one_variable))).
Proof.
  destruct one_variable_run as (o & c1 & sd1 & r1 & c2 & sd2 & r2 & ends0 & Hrun & _).
  destruct (@last_summary_is_reconstruction batch X_one_variable no_kwargs [] 2 2 1 [] o
              lstsq_normal_shaped valid_one_variable eq_refl Hrun)
    as (pre & iter & index & coord & sd & r & ends & Hlog & _ & _ & Hsd & _).
  exists o, pre, iter, index, coord, sd, r, ends.
  split; [exact Hrun |]. split; [exact Hlog | exact Hsd].
Defined.

Lemma change_pure_variable_witness :
  @change digits e_one_variable "0" (init_state e_one_variable []) =
    inr (set_maxPCoordinate
           (replace_nth 0 (nth 0 (get_x_data X_one_variable) 0) [0; 0])
           (set_maxPIndex (replace_nth 0 0%Z [0%Z; 0%Z]) (init_state e_one_variable []))) /\
  @change digits e_one_variable "1" (init_state e_one_variable []) = inl IndexError.
Proof.
  destruct (@change_pure_variable digits e_one_variable 2 1 (init_state e_one_variable [])
              "0") as (Hint & _).
  - exact valid_one_variable.
  - apply init_state_ok. exact valid_one_variable.
  - cbn. lia.
  - destruct (@change_pure_variable digits e_one_variable 2 1
                (init_state e_one_variable []) "1") as (Hint1 & _).
    + exact valid_one_variable.
    + apply init_state_ok. exact valid_one_variable.
    + cbn. lia.
    + destruct (Hint 0%Z eq_refl) as [Hin _]. destruct (Hint1 1%Z eq_refl) as [_ Hout].
      split; [apply Hin; unfold index_of; lia | apply Hout; unfold index_of; lia].
Defined.

Lemma state_ok_interactive inp k :
  state_ok e_interactive 2 1 (set_j k (init_state e_interactive inp)).
Proof. exact (init_state_ok e_interactive inp valid_one_variable). Qed.

Lemma interactive_answers_witness :
  exists st',
    @body batch e_interactive (set_j 1 (init_state e_interactive ["x"; "R"]%string)) =
      inr st' /\
    j st' = 0%nat /\ finished st' = false /\ stdin st' = [].
Proof.
  pose proof (state_ok_interactive ["x"; "R"]%string 1) as Hst.
  destruct (@score_ok e_interactive 2 1 _ valid_one_variable Hst) as (st1 & Hscore & Hst1);
    [cbn; lia |].
  destruct (score_frame _ _ Hscore) as (Hj1 & _).
  destruct (@merit_ok batch e_interactive 2 1 st1 lstsq_normal_shaped valid_one_variable Hst1)
    as (st2 & r & sd & Hmerit & _); [rewrite Hj1; cbn; lia |].
  destruct (@interactive_answers batch e_interactive
              (set_j 1 (init_state e_interactive ["x"; "R"]%string)) st2 r sd "R" [])
    as (st' & Hbody & Hin & _ & _ & _ & _ & Hrej & _).
  - reflexivity.
  - cbn. lia.
  - unfold pass_merit. rewrite Hscore. exact Hmerit.
  - reflexivity.
  - discriminate.
  - destruct (Hrej eq_refl) as (Hj & Hfin & _).
    exists st'. split; [exact Hbody |]. split; [exact Hj |]. split; [exact Hfin | exact Hin].
Defined.

Lemma one_variable_interactive_run :
  exists o,
    @SIMPLISMA batch X_one_variable (with_interactive (Some true) no_kwargs)
      ["a"; "f"]%string 2 = ([], inr (Some o)).
Proof.
  run_eval.
  destruct (Rlt_dec (Rmin 1 2) 0) as [Hneg | _];
    [exfalso; exact (no_negative_one_variable Hneg) |].
  eexists. reflexivity.
Qed.

Lemma interactive_run_ends_on_request_witness :
  exists o pre,
    @SIMPLISMA batch X_one_variable (with_interactive (Some true) no_kwargs)
      ["a"; "f"]%string 2 = ([], inr (Some o)) /\
    _log o = pre ++ [Interrupted 2].
Proof.
  destruct one_variable_interactive_run as (o & Hrun).
  destruct (@interactive_run_ends_on_request batch X_one_variable
              (with_interactive (Some true) no_kwargs) ["a"; "f"]%string 2 2 1 [] o
              valid_one_variable eq_refl Hrun)
    as (pre & k & Hlog & _ & Hk & HPt & _).
  exists o, pre. split; [exact Hrun |].
  assert (Hk2 : k = 2%nat).
  { destruct HPt as [Hlen _]. revert Hrun Hlen. run_eval.
    destruct (Rlt_dec (Rmin 1 2) 0) as [Hneg | _];
      [exfalso; exact (no_negative_one_variable Hneg) |].
    intros Hrun. inversion Hrun. subst o. cbn. lia. }
  rewrite <- Hk2. exact Hlog.
Defined.



Lemma batch_run_end_messages_witness :
  exists o e pre,
    @SIMPLISMA batch X_one_variable no_kwargs [] 2 = ([], inr (Some o)) /\
    configure X_one_variable no_kwargs = inr e /\
    length (_Pt o) = 2%nat /\
    (_log o = pre ++ [MaxReached (n_pc e)] \/
     _log o = pre ++ [TolReached (tol e); MaxReached (n_pc e)]).
Proof.
  destruct one_variable_run as (o & c1 & sd1 & r1 & c2 & sd2 & r2 & ends & Hrun & _).
  destruct (@batch_run_end_messages batch X_one_variable no_kwargs [] 2 2 1 [] o
              lstsq_normal_shaped valid_one_variable eq_refl Hrun)
    as (e & pre & Hconf & _ & Hk & Hcases).
  assert (Hpc : n_pc e = 2%nat).
  { rewrite (@configure_valid X_one_variable no_kwargs 2 eq_refl) in Hconf by lia.
    apply inr_eq in Hconf. subst e. reflexivity. }
  exists o, e, pre. split; [exact Hrun |]. split; [exact Hconf |].
  split; [lia |].
  destruct Hcases as [[_ Hlt] | [[Hlog _] | [Hlog _]]];
    [lia | left; exact Hlog | right; exact Hlog].
Defined.

Lemma whole_rows_and_columns_are_flagged_witness :
  Masked._get_masked_rc analysis0 (Masked._mask X_column_masked) =
    ([false; false], [true; false]) /\
  (nth 0 [true; false] false = true <->
   exists b, Masked._mask X_column_masked = Masked.Mask b /\
             forall i, (i < 2)%nat -> nth 0 (nth i b []) false = true).
Proof.
  split; [reflexivity |].
  destruct (@whole_rows_and_columns_are_flagged
              {| Masked._X_mask := None; Masked._shape := (2, 2)%nat |} 2 2
              (Masked._mask X_column_masked) [false; false] [true; false])
    as (_ & _ & _ & Hcol).
  - lia.
  - lia.
  - reflexivity.
  - split; [reflexivity | repeat constructor].
  - reflexivity.
  - apply (Hcol 0%nat). lia.
Defined.

Lemma svd_flip_mismatched_shapes_witness :
  AnalysisUtils._svd_flip U_two [[1; -3]] true = inl ValueError_shape.
Proof.
  destruct (@svd_flip_mismatched_shapes U_two [[1; -3]] 2 2 shape_U_two) as (_ & Hbad & _).
  - lia.
  - apply Hbad; [lia | cbn; lia].
Defined.
